(** * Logstream: the MCP query gateway and the client SDKs

    A shallow embedding of
    - [mcp/log-mcp-server.ts]: [parseDuration], [buildFilter] and the
      [tools/call] request handler,
    - the Node SDK ([createLogger]: [log], [flush], [startTrace],
      [continueTrace]) and
    - the browser SDK ([createBrowserLogger]: [log], [flush]),
    together with the properties of the query layer and of the SDKs.

    Conventions of the embedding.
    - A JavaScript value that may be [undefined] is an [option]; a string
      is truthy when it is defined and not empty, a number when it is
      defined and not zero.
    - The numbers the code handles here (durations, limits, epoch
      milliseconds) are integers; they are modelled in [Z] and printed in
      decimal. JavaScript computes with doubles, which agree with [Z] on
      integers of magnitude at most 2^53 - 1 and print them in decimal;
      beyond that range a double rounds. Every statement below that
      depends on the value of a duration or of a cutoff is made within
      that range ([Spec.exact_cutoff]).
    - [Date.now()], [new Date().toISOString()] and [randomUUID()] are
      inputs: the clock is an argument, the UUID source is a function of
      the number of draws made so far.
    - The search engine is an argument of the handler: a function from
      the query and the search parameters to a response or a thrown
      error. *)

From Stdlib Require Import ZArith String Ascii List Bool Lia.
From stdpp Require Import base option strings gmap list pretty sorting.

Import ListNotations.
Local Open Scope string_scope.
Local Open Scope Z_scope.

(** The double-quote character, as a string. *)
Definition dquote : string := String (ascii_of_nat 34) EmptyString.

(** ** JavaScript idioms shared by the three files *)

Module Js.

(** Truthiness of a possibly undefined string. *)
Definition truthy (o : option string) : bool :=
  match o with
  | Some s => negb (String.eqb s "")
  | None => false
  end.

(** [o || d] on strings. *)
Definition str_or (o : option string) (d : string) : string :=
  match o with
  | Some s => if String.eqb s "" then d else s
  | None => d
  end.

(** [o || d] on numbers. *)
Definition num_or (o : option Z) (d : Z) : Z :=
  match o with
  | Some n => if n =? 0 then d else n
  | None => d
  end.

(** A hole of a template literal: [undefined] prints as such. *)
Definition interp (o : option string) : string :=
  match o with
  | Some s => s
  | None => "undefined"
  end.

(** [parts.join(sep)]. *)
Definition join (sep : string) (parts : list string) : string :=
  String.concat sep parts.

(** [[...new Set(xs)]]: the distinct values in order of first
    occurrence. *)
Definition set_add {A} `{EqDecision A} (seen : list A) (x : A) : list A :=
  if decide (x ∈ seen) then seen else seen ++ [x].

Definition unique {A} `{EqDecision A} (xs : list A) : list A :=
  fold_left set_add xs [].

End Js.

(** ** mcp/log-mcp-server.ts *)

Module Mcp.

(** *** parseDuration *)

Definition is_digit (c : ascii) : bool :=
  ((48 <=? nat_of_ascii c) && (nat_of_ascii c <=? 57))%nat.

(** The greedy [\d+] group: the longest prefix of digits and what
    follows it. *)
Fixpoint span_digits (s : string) : string * string :=
  match s with
  | String c rest =>
      if is_digit c
      then let '(ds, tl) := span_digits rest in (String c ds, tl)
      else ("", s)
  | EmptyString => ("", "")
  end.

Definition is_unit (u : string) : bool :=
  String.eqb u "s" || String.eqb u "m" || String.eqb u "h" || String.eqb u "d".

(** [s.match(/^(\d+)(s|m|h|d)$/)]: the two groups on a match. No unit
    letter is a digit, so the greedy group never has to give back. *)
Definition match_duration (s : string) : option (string * string) :=
  let '(ds, tl) := span_digits s in
  if String.eqb ds "" then None
  else if is_unit tl then Some (ds, tl)
  else None.

Definition digit_value (c : ascii) : Z := Z.of_nat (nat_of_ascii c) - 48.

Fixpoint parseInt_from (acc : Z) (ds : string) : Z :=
  match ds with
  | String c rest => parseInt_from (10 * acc + digit_value c) rest
  | EmptyString => acc
  end.

(** [parseInt] on a string of decimal digits: the integer the digits
    denote, which is the number JavaScript returns as long as it is at
    most 2^53 - 1. *)
Definition parseInt (ds : string) : Z := parseInt_from 0 ds.

Definition units : gmap string Z :=
  {[ "s" := 1000; "m" := 60000; "h" := 3600000; "d" := 86400000 ]}.

Definition parseDuration (s : string) : Z :=
  match match_duration s with
  | None => 3600000
  | Some (ds, u) =>
      let n := parseInt ds in
      n * Js.num_or (units !! u) 0
  end.

(** *** buildFilter *)

Record FilterOpts := {
  o_project : option string;
  o_level : option string;
  o_traceId : option string;
  o_environment : option string;
  o_since : option string;
  o_extraFilter : option string;
}.

(** The template literal of an equality clause: the field, [ = ], and
    the value between two double quotes, with nothing done to the value. *)
Definition eq_clause (field v : string) : string :=
  field ++ " = " ++ dquote ++ v ++ dquote.

(** The template literal of the range clause. The hole prints the
    cutoff in decimal, with a minus sign when it is negative: this is
    how JavaScript prints an integer of magnitude at most 2^53 - 1. *)
Definition since_clause (cutoff : Z) : string :=
  "timestampMs > " ++ pretty cutoff.

(** [if (o) parts.push(f(o))]. *)
Definition push_if (o : option string) (f : string → string)
    (parts : list string) : list string :=
  match o with
  | Some v => if Js.truthy o then parts ++ [f v] else parts
  | None => parts
  end.

Definition filter_parts (now : Z) (opts : FilterOpts) : list string :=
  let parts := [] in
  let parts := push_if (o_project opts) (eq_clause "project") parts in
  let parts := push_if (o_level opts) (eq_clause "level") parts in
  let parts := push_if (o_traceId opts) (eq_clause "traceId") parts in
  let parts := push_if (o_environment opts) (eq_clause "environment") parts in
  let parts :=
    push_if (o_since opts)
      (λ since, let cutoff := now - parseDuration since in since_clause cutoff)
      parts in
  let parts := push_if (o_extraFilter opts) (λ extra, extra) parts in
  parts.

Definition buildFilter (now : Z) (opts : FilterOpts) : option string :=
  let parts := filter_parts now opts in
  match parts with
  | [] => None
  | _ => Some (Js.join " AND " parts)
  end.



(** *** The engine, and a [tools/call] request *)

(** A document of the index, as the engine returns it ([h: any] in the
    code): every attribute may be missing. *)
Record Hit := {
  h_id : option string;
  h_timestamp : option string;
  h_project : option string;
  h_level : option string;
  h_message : option string;
  h_traceId : option string;
  h_spanId : option string;
  h_parentSpanId : option string;
  h_source : option string;
  h_meta : option (list (string * string));
  h_environment : option string;
}.

(** The options object of [logs.search]; a key the code leaves out, or
    sets to [undefined], is [None]. *)
Record SearchParams := {
  p_filter : option string;
  p_sort : option (list string);
  p_limit : option Z;
  p_facets : option (list string);
  p_attributesToRetrieve : option (list string);
}.

Record SearchResponse := {
  hits : list Hit;
  estimatedTotalHits : option Z;
  facetDistribution : option (gmap string (gmap string Z));
}.

(** A thrown value, seen through what [err.message] makes of it: an
    [Error] (or any object with a [message]), a value without a
    [message] property, [null] or [undefined]. *)
Inductive exn :=
| Error (message : string)
| NoMessage
| Null
| Undefined.

Inductive outcome (A : Type) :=
| Return (a : A)
| Throw (e : exn).
Arguments Return {A} a.
Arguments Throw {A} e.

#[global] Instance outcome_ret : MRet outcome := λ A a, Return a.
#[global] Instance outcome_bind : MBind outcome := λ A B k m,
  match m with
  | Return a => k a
  | Throw e => Throw e
  end.

(** [await logs.search(query, params)]. *)
Definition Engine : Type := option string → SearchParams → outcome SearchResponse.

Record Args := {
  a_query : option string;
  a_project : option string;
  a_level : option string;
  a_traceId : option string;
  a_environment : option string;
  a_since : option string;
  a_message : option string;
  a_limit : option Z;
}.

(** [request.params]: the tool name and its arguments, which the protocol
    lets a client leave out. *)
Record Request := {
  name : string;
  arguments : option Args;
}.

(** The request the handler is given; [params] may be missing. *)
Record RawRequest := {
  params : option Request;
}.

(** Reading a property of [args]: a [TypeError] when [args] is
    [undefined], with the message V8 gives it; [field] is the first
    property the tool reads. *)
Definition read_args (req : Request) (field : string) : outcome Args :=
  match arguments req with
  | Some args => Return args
  | None =>
      Throw (Error ("Cannot read properties of undefined (reading '" ++ field ++ "')"))
  end.

(** *** The objects handed to [JSON.stringify] *)

Record TimelineEvent := {
  tl_timestamp : option string;
  tl_project : option string;
  tl_level : option string;
  tl_message : option string;
  tl_spanId : option string;
  tl_parentSpanId : option string;
  tl_source : option string;
}.

Record ErrorEvent := {
  er_timestamp : option string;
  er_project : option string;
  er_message : option string;
  er_source : option string;
  er_traceId : option string;
  er_meta : option (list (string * string));
}.

Record TracePayload := {
  traceId : option string;
  eventCount : nat;
  projects : list (option string);
  timeline : list TimelineEvent;
}.

Record ProjectsPayload := {
  totalLogs : option Z;
  byProject : option (gmap string Z);
  byLevel : option (gmap string Z);
  byEnvironment : option (gmap string Z);
}.

Record ErrorsPayload := {
  totalErrors : option Z;
  errorsByProject : option (gmap string Z);
  recentErrors : list ErrorEvent;
}.

Inductive Payload :=
| SearchLogs (totalHits : option Z)
    (facets : option (gmap string (gmap string Z))) (found : list Hit)
| Trace (p : TracePayload)
| TailLogs (count : nat) (logs : list Hit)
| Projects (p : ProjectsPayload)
| ErrorSummary (p : ErrorsPayload)
| Similar (query : option string) (matches : list Hit).

(** The [text] of the single content item: a stringified payload or a
    plain message. *)
Inductive ContentText :=
| Json (p : Payload)
| Text (s : string).

(** A missing [isError] is [false]. *)
Record ToolResult := {
  content : ContentText;
  isError : bool;
}.

Definition success (p : Payload) : ToolResult :=
  {| content := Json p; isError := false |}.

Definition failure (text : string) : ToolResult :=
  {| content := Text text; isError := true |}.

(** *** The six tools: what each asks the engine, and how it shapes the
    answer *)

Definition search_logs_call (now : Z) (args : Args)
    : option string * SearchParams :=
  let filter :=
    buildFilter now
      {| o_project := a_project args;
         o_level := a_level args;
         o_traceId := a_traceId args;
         o_environment := a_environment args;
         o_since := a_since args;
         o_extraFilter := None |} in
  (Some (Js.str_or (a_query args) ""),
   {| p_filter := filter;
      p_sort := Some ["timestamp:desc"];
      p_limit := Some (Z.min (Js.num_or (a_limit args) 20) 100);
      p_facets := Some ["project"; "level"];
      p_attributesToRetrieve :=
        Some ["id"; "timestamp"; "project"; "level"; "message";
              "traceId"; "spanId"; "source"; "meta"; "environment"] |}).

Definition search_logs_shape (results : SearchResponse) : Payload :=
  SearchLogs (estimatedTotalHits results) (facetDistribution results)
    (hits results).

Definition get_trace_call (args : Args) : option string * SearchParams :=
  (Some "",
   {| p_filter := Some (eq_clause "traceId" (Js.interp (a_traceId args)));
      p_sort := Some ["timestamp:asc"];
      p_limit := Some 500;
      p_facets := None;
      p_attributesToRetrieve := None |}).

Definition timeline_event (h : Hit) : TimelineEvent :=
  {| tl_timestamp := h_timestamp h;
     tl_project := h_project h;
     tl_level := h_level h;
     tl_message := h_message h;
     tl_spanId := h_spanId h;
     tl_parentSpanId := h_parentSpanId h;
     tl_source := h_source h |}.

Definition get_trace_shape (args : Args) (results : SearchResponse) : Payload :=
  let hits := hits results in
  let projects := Js.unique (map h_project hits) in
  Trace
    {| traceId := a_traceId args;
       eventCount := length hits;
       projects := projects;
       timeline := map timeline_event hits |}.

Definition tail_logs_call (now : Z) (args : Args)
    : option string * SearchParams :=
  let filter :=
    buildFilter now
      {| o_project := a_project args;
         o_level := a_level args;
         o_traceId := None;
         o_environment := None;
         o_since := None;
         o_extraFilter := None |} in
  (Some "",
   {| p_filter := filter;
      p_sort := Some ["timestamp:desc"];
      p_limit := Some (Z.min (Js.num_or (a_limit args) 30) 100);
      p_facets := None;
      p_attributesToRetrieve := None |}).

Definition tail_logs_shape (results : SearchResponse) : Payload :=
  TailLogs (length (hits results)) (rev (hits results)).

Definition list_projects_call : option string * SearchParams :=
  (Some "",
   {| p_filter := None;
      p_sort := None;
      p_limit := Some 0;
      p_facets := Some ["project"; "level"; "environment"];
      p_attributesToRetrieve := None |}).

(** [results.facetDistribution?.facet]. *)
Definition facet_of (results : SearchResponse) (facet : string)
    : option (gmap string Z) :=
  facetDistribution results ≫= λ fd, fd !! facet.

Definition list_projects_shape (results : SearchResponse) : Payload :=
  Projects
    {| totalLogs := estimatedTotalHits results;
       byProject := facet_of results "project";
       byLevel := facet_of results "level";
       byEnvironment := facet_of results "environment" |}.

(** The literal the error summary passes as [extraFilter]: the level is
    error or the level is fatal, in brackets. *)
Definition errors_filter : string :=
  "(level = " ++ dquote ++ "error" ++ dquote
  ++ " OR level = " ++ dquote ++ "fatal" ++ dquote ++ ")".

Definition error_summary_call (now : Z) (args : Args)
    : option string * SearchParams :=
  let filter :=
    buildFilter now
      {| o_project := a_project args;
         o_level := None;
         o_traceId := None;
         o_environment := None;
         o_since := Some (Js.str_or (a_since args) "1h");
         o_extraFilter := Some errors_filter |} in
  (Some (Js.str_or (a_query args) ""),
   {| p_filter := filter;
      p_sort := Some ["timestamp:desc"];
      p_limit := Some 30;
      p_facets := Some ["project"];
      p_attributesToRetrieve := None |}).

Definition error_event (h : Hit) : ErrorEvent :=
  {| er_timestamp := h_timestamp h;
     er_project := h_project h;
     er_message := h_message h;
     er_source := h_source h;
     er_traceId := h_traceId h;
     er_meta := h_meta h |}.

Definition error_summary_shape (results : SearchResponse) : Payload :=
  ErrorSummary
    {| totalErrors := estimatedTotalHits results;
       errorsByProject := facet_of results "project";
       recentErrors := map error_event (hits results) |}.

Definition find_similar_call (now : Z) (args : Args)
    : option string * SearchParams :=
  let filter :=
    buildFilter now
      {| o_project := a_project args;
         o_level := None;
         o_traceId := None;
         o_environment := None;
         o_since := None;
         o_extraFilter := None |} in
  (a_message args,
   {| p_filter := filter;
      p_sort := None;
      p_limit := Some (Js.num_or (a_limit args) 10);
      p_facets := None;
      p_attributesToRetrieve := None |}).

Definition find_similar_shape (args : Args) (results : SearchResponse) : Payload :=
  Similar (a_message args) (hits results).

(** *** The handler *)

Definition search (engine : Engine) (call : option string * SearchParams)
    : outcome SearchResponse :=
  engine (fst call) (snd call).

(** The body of the [try] block: the [switch] on the tool name. *)
Definition dispatch (engine : Engine) (now : Z) (req : Request)
    : outcome ToolResult :=
  let name := name req in
  if String.eqb name "search_logs" then
    args ← read_args req "project";
    results ← search engine (search_logs_call now args);
    mret (success (search_logs_shape results))
  else if String.eqb name "get_trace" then
    args ← read_args req "traceId";
    results ← search engine (get_trace_call args);
    mret (success (get_trace_shape args results))
  else if String.eqb name "tail_logs" then
    args ← read_args req "project";
    results ← search engine (tail_logs_call now args);
    mret (success (tail_logs_shape results))
  else if String.eqb name "list_projects" then
    results ← search engine list_projects_call;
    mret (success (list_projects_shape results))
  else if String.eqb name "error_summary" then
    args ← read_args req "project";
    results ← search engine (error_summary_call now args);
    mret (success (error_summary_shape results))
  else if String.eqb name "find_similar" then
    args ← read_args req "project";
    results ← search engine (find_similar_call now args);
    mret (success (find_similar_shape args results))
  else
    mret (failure ("Unknown tool: " ++ name)).

(** [err.message] in the [catch] block: the message of an error, the
    word [undefined] printed by the template literal for a value without
    one, and a [TypeError] of its own for [null] and [undefined]. *)
Definition read_message (err : exn) : outcome string :=
  match err with
  | Error m => Return m
  | NoMessage => Return "undefined"
  | Null => Throw (Error "Cannot read properties of null (reading 'message')")
  | Undefined =>
      Throw (Error "Cannot read properties of undefined (reading 'message')")
  end.

(** The [try] block and the [catch] that turns a thrown value into a
    result; what the [catch] block itself throws leaves the handler. *)
Definition tools_call (engine : Engine) (now : Z) (req : Request)
    : outcome ToolResult :=
  match dispatch engine now req with
  | Return result => Return result
  | Throw err =>
      text ← read_message err;
      mret (failure ("Error: " ++ text))
  end.

(** The [tools/call] handler: [request.params] is destructured before
    the [try] block, so a request without [params] throws out of the
    handler. *)
Definition handler (engine : Engine) (now : Z) (request : RawRequest)
    : outcome ToolResult :=
  match params request with
  | Some req => tools_call engine now req
  | None =>
      Throw (Error
        "Cannot destructure property 'name' of 'request.params' as it is undefined.")
  end.

(** *** The [tools/list] handler *)

(** The type a schema gives a property: a string, a number, or a string
    out of an enumeration. *)
Inductive PropType :=
| TString
| TNumber
| TEnum (values : list string).

(** One entry of the list: the name of the tool, the properties of its
    input schema and the ones it requires. The descriptions, which are
    prose, are left out. *)
Record Tool := {
  tool_name : string;
  tool_properties : list (string * PropType);
  tool_required : list string;
}.

Definition tools_list : list Tool :=
  [ {| tool_name := "search_logs";
       tool_properties :=
         [("query", TString); ("project", TString);
          ("level", TEnum ["debug"; "info"; "warn"; "error"; "fatal"]);
          ("traceId", TString); ("environment", TString); ("since", TString);
          ("limit", TNumber)];
       tool_required := [] |};
    {| tool_name := "get_trace";
       tool_properties := [("traceId", TString)];
       tool_required := ["traceId"] |};
    {| tool_name := "tail_logs";
       tool_properties :=
         [("project", TString); ("level", TString); ("limit", TNumber)];
       tool_required := [] |};
    {| tool_name := "list_projects";
       tool_properties := [];
       tool_required := [] |};
    {| tool_name := "error_summary";
       tool_properties :=
         [("since", TString); ("project", TString); ("query", TString)];
       tool_required := [] |};
    {| tool_name := "find_similar";
       tool_properties :=
         [("message", TString); ("project", TString); ("limit", TNumber)];
       tool_required := ["message"] |} ].

End Mcp.

(** ** The Node SDK: createLogger *)

Module NodeSdk.

Record LogstreamOptions := {
  serverUrl : string;
  project : string;
  environment : option string;
  batchMs : option Z;
  batchSize : option Z;
}.

Record LogMeta := {
  m_traceId : option string;
  m_spanId : option string;
  m_parentSpanId : option string;
  m_meta : option (gmap string string);
  m_source : option string;
}.

(** One queued entry; the five optional keys are set only from truthy
    values of [extra]. *)
Record Entry := {
  e_timestamp : string;
  e_project : string;
  e_environment : string;
  e_level : string;
  e_message : string;
  e_traceId : option string;
  e_spanId : option string;
  e_parentSpanId : option string;
  e_meta : option (gmap string string);
  e_source : option string;
}.

(** The variables the closures of one logger share: the socket state, the
    queue, the batches given to [ws.send], and the number of UUIDs drawn. *)
Record State := {
  connected : bool;
  queue : list Entry;
  sent : list (list Entry);
  draws : nat;
}.

Definition initial : State :=
  {| connected := false; queue := []; sent := []; draws := 0 |}.

(** [opts.batchSize ?? 50]: only a missing value takes the default. *)
Definition batch_size (opts : LogstreamOptions) : Z :=
  match batchSize opts with
  | Some n => n
  | None => 50
  end.

Definition flush (st : State) : State :=
  if negb (connected st) || (length (queue st) =? 0)%nat then st
  else {| connected := connected st;
          queue := [];
          sent := sent st ++ [queue st];
          draws := draws st |}.

(** [if (extra?.key) entry.key = extra.key]. *)
Definition pick (extra : option LogMeta) (key : LogMeta → option string)
    : option string :=
  match extra with
  | Some x => if Js.truthy (key x) then key x else None
  | None => None
  end.

Definition new_entry (opts : LogstreamOptions) (timestamp level message : string)
    (extra : option LogMeta) : Entry :=
  {| e_timestamp := timestamp;
     e_project := project opts;
     e_environment := Js.str_or (environment opts) "dev";
     e_level := level;
     e_message := message;
     e_traceId := pick extra m_traceId;
     e_spanId := pick extra m_spanId;
     e_parentSpanId := pick extra m_parentSpanId;
     e_meta := extra ≫= m_meta;
     e_source := pick extra m_source |}.

Definition log (opts : LogstreamOptions) (timestamp level message : string)
    (extra : option LogMeta) (st : State) : State :=
  let entry := new_entry opts timestamp level message extra in
  let st := {| connected := connected st;
               queue := queue st ++ [entry];
               sent := sent st;
               draws := draws st |} in
  if batch_size opts <=? Z.of_nat (length (queue st)) then flush st else st.

(** The [open] and [close] events of the socket. *)
Definition on_open (st : State) : State :=
  flush {| connected := true; queue := queue st; sent := sent st;
           draws := draws st |}.

Definition on_close (st : State) : State :=
  {| connected := false; queue := queue st; sent := sent st;
     draws := draws st |}.

(** *** Traces *)

(** Which of the two constructors made a context: [startTrace], or
    [continueTrace] with the [x-span-id] header it read. *)
Inductive Origin :=
| Started
| Continued (parentSpanId : option string).

(** The captured variables of a trace context. *)
Record TraceContext := {
  traceId : string;
  spanId : string;
  t_name : string;
  t_origin : Origin;
}.

Record SpanContext := {
  span_traceId : string;
  span_spanId : string;
  span_parentSpanId : string;
  span_name : string;
  span_origin : Origin;
}.

Section Uuid.

(** [randomUUID()]: the value of the n-th draw. *)
Variable uuid : nat → string.

Definition randomUUID (st : State) : string * State :=
  (uuid (draws st),
   {| connected := connected st; queue := queue st; sent := sent st;
      draws := S (draws st) |}).

Definition operation (name : string) : option (gmap string string) :=
  Some {[ "operation" := name ]}.

Definition startTrace (opts : LogstreamOptions) (timestamp name : string)
    (st : State) : TraceContext * State :=
  let '(traceId, st) := randomUUID st in
  let '(spanId, st) := randomUUID st in
  let st :=
    log opts timestamp "info" ("trace:start " ++ name)
      (Some {| m_traceId := Some traceId; m_spanId := Some spanId;
               m_parentSpanId := None; m_meta := operation name;
               m_source := None |}) st in
  ({| traceId := traceId; spanId := spanId; t_name := name;
      t_origin := Started |}, st).

Definition continueTrace (opts : LogstreamOptions) (timestamp : string)
    (headers : gmap string string) (name : string) (st : State)
    : TraceContext * State :=
  let '(traceId, st) :=
    if Js.truthy (headers !! "x-trace-id")
    then (Js.str_or (headers !! "x-trace-id") "", st)
    else randomUUID st in
  let parentSpanId := headers !! "x-span-id" in
  let '(spanId, st) := randomUUID st in
  let st :=
    log opts timestamp "info" ("span:start " ++ name)
      (Some {| m_traceId := Some traceId; m_spanId := Some spanId;
               m_parentSpanId := parentSpanId; m_meta := operation name;
               m_source := None |}) st in
  ({| traceId := traceId; spanId := spanId; t_name := name;
      t_origin := Continued parentSpanId |}, st).

(** [trace.span(childName)], the same in both constructors. *)
Definition span (opts : LogstreamOptions) (timestamp : string)
    (trace : TraceContext) (childName : string) (st : State)
    : SpanContext * State :=
  let '(childSpanId, st) := randomUUID st in
  let st :=
    log opts timestamp "info" ("span:start " ++ childName)
      (Some {| m_traceId := Some (traceId trace); m_spanId := Some childSpanId;
               m_parentSpanId := Some (spanId trace);
               m_meta := operation childName; m_source := None |}) st in
  ({| span_traceId := traceId trace; span_spanId := childSpanId;
      span_parentSpanId := spanId trace; span_name := childName;
      span_origin := t_origin trace |}, st).

End Uuid.

(** [trace.end()]. *)
Definition trace_end (opts : LogstreamOptions) (timestamp : string)
    (trace : TraceContext) (st : State) : State :=
  let label :=
    match t_origin trace with
    | Started => "trace:end "
    | Continued _ => "span:end "
    end in
  log opts timestamp "info" (label ++ t_name trace)
    (Some {| m_traceId := Some (traceId trace); m_spanId := Some (spanId trace);
             m_parentSpanId := None; m_meta := None; m_source := None |}) st.

(** [trace.headers()]. *)
Definition trace_headers (trace : TraceContext) : gmap string string :=
  match t_origin trace with
  | Started =>
      {[ "x-trace-id" := traceId trace; "x-span-id" := spanId trace ]}
  | Continued parentSpanId =>
      {[ "x-trace-id" := traceId trace; "x-span-id" := spanId trace;
         "x-parent-span-id" := Js.str_or parentSpanId "" ]}
  end.

(** [span.end()]: only a span of a started trace logs its parent. *)
Definition span_end (opts : LogstreamOptions) (timestamp : string)
    (s : SpanContext) (st : State) : State :=
  log opts timestamp "info" ("span:end " ++ span_name s)
    (Some {| m_traceId := Some (span_traceId s); m_spanId := Some (span_spanId s);
             m_parentSpanId :=
               match span_origin s with
               | Started => Some (span_parentSpanId s)
               | Continued _ => None
               end;
             m_meta := None; m_source := None |}) st.

(** [span.headers()]. *)
Definition span_headers (s : SpanContext) : gmap string string :=
  {[ "x-trace-id" := span_traceId s; "x-span-id" := span_spanId s;
     "x-parent-span-id" := span_parentSpanId s ]}.

(** What can happen to one logger: a call of its interface, or an event
    of its socket or of its flush timer. *)
Inductive Op :=
| OpLog (timestamp level message : string) (extra : option LogMeta)
| OpFlush
| OpOpen
| OpClose
| OpStartTrace (timestamp name : string)
| OpContinueTrace (timestamp : string) (headers : gmap string string) (name : string)
| OpSpan (timestamp : string) (trace : TraceContext) (childName : string)
| OpTraceEnd (timestamp : string) (trace : TraceContext)
| OpSpanEnd (timestamp : string) (s : SpanContext).

Definition step (uuid : nat → string) (opts : LogstreamOptions) (st : State)
    (op : Op) : State :=
  match op with
  | OpLog timestamp level message extra => log opts timestamp level message extra st
  | OpFlush => flush st
  | OpOpen => on_open st
  | OpClose => on_close st
  | OpStartTrace timestamp name => snd (startTrace uuid opts timestamp name st)
  | OpContinueTrace timestamp headers name =>
      snd (continueTrace uuid opts timestamp headers name st)
  | OpSpan timestamp trace childName => snd (span uuid opts timestamp trace childName st)
  | OpTraceEnd timestamp trace => trace_end opts timestamp trace st
  | OpSpanEnd timestamp s => span_end opts timestamp s st
  end.

Definition run (uuid : nat → string) (opts : LogstreamOptions) (ops : list Op)
    : State :=
  fold_left (step uuid opts) ops initial.

(** Every entry the logger holds or has sent. *)
Definition emitted (st : State) : list Entry :=
  concat (sent st) ++ queue st.

End NodeSdk.

(** ** The browser SDK: createBrowserLogger *)

Module BrowserSdk.

Record BrowserLoggerOptions := {
  endpoint : string;
  project : string;
  environment : option string;
  flushMs : option Z;
  captureErrors : option bool;
  captureConsole : option bool;
}.

(** What the page provides: [location.href] when there is a [location],
    whether there is a [window], and whether [navigator.sendBeacon] is a
    function. *)
Record Host := {
  location : option string;
  has_window : bool;
  has_sendBeacon : bool;
}.

Record Entry := {
  e_timestamp : string;
  e_project : string;
  e_environment : string;
  e_level : string;
  e_message : string;
  e_meta : gmap string string;
}.

(** The queue, and the batches given to [navigator.sendBeacon] and to
    [fetch]. *)
Record State := {
  queue : list Entry;
  beacons : list (list Entry);
  posts : list (list Entry);
}.

Definition initial : State := {| queue := []; beacons := []; posts := [] |}.

Definition flush (host : Host) (beacon : bool) (st : State) : State :=
  match queue st with
  | [] => st
  | batch =>
      if beacon && has_sendBeacon host
      then {| queue := []; beacons := beacons st ++ [batch]; posts := posts st |}
      else {| queue := []; beacons := beacons st; posts := posts st ++ [batch] |}
  end.

(** The object spread of [meta] followed by the [url] key; a key whose
    value is [undefined] is not serialised. *)
Definition with_url (host : Host) (meta : option (gmap string string))
    : gmap string string :=
  let m := default ∅ meta in
  match location host with
  | Some href => <["url" := href]> m
  | None => delete "url" m
  end.

Definition log (opts : BrowserLoggerOptions) (host : Host)
    (timestamp level message : string) (meta : option (gmap string string))
    (st : State) : State :=
  {| queue :=
       queue st ++
       [ {| e_timestamp := timestamp;
            e_project := project opts;
            e_environment := Js.str_or (environment opts) "dev";
            e_level := level;
            e_message := message;
            e_meta := with_url host meta |} ];
     beacons := beacons st;
     posts := posts st |}.

(** The guard of the two listeners: [captureErrors] is not [false] and
    there is a [window]. *)
Definition captures_errors (opts : BrowserLoggerOptions) (host : Host) : bool :=
  negb (bool_decide (captureErrors opts = Some false)) && has_window host.

Definition captures_console (opts : BrowserLoggerOptions) : bool :=
  bool_decide (captureConsole opts = Some true).

(** A key of a meta object literal with a value that may be undefined. *)
Definition set_key (key : string) (value : option string)
    (m : gmap string string) : gmap string string :=
  match value with
  | Some v => <[key := v]> m
  | None => m
  end.

(** A call of the logger's interface, a timer or page event, or one of
    the captured events. *)
Inductive Op :=
| OpLog (timestamp level message : string) (meta : option (gmap string string))
| OpFlush (beacon : bool)
| OpError (timestamp message source : string) (stack : option string)
| OpRejection (timestamp reason : string) (stack : option string)
| OpConsoleError (timestamp : string) (args : list string).

Definition step (opts : BrowserLoggerOptions) (host : Host) (st : State)
    (op : Op) : State :=
  match op with
  | OpLog timestamp level message meta => log opts host timestamp level message meta st
  | OpFlush beacon => flush host beacon st
  | OpError timestamp message source stack =>
      if captures_errors opts host then
        log opts host timestamp "error" message
          (Some (set_key "stack" stack
                   {[ "source" := source; "type" := "unhandled_error" ]})) st
      else st
  | OpRejection timestamp reason stack =>
      if captures_errors opts host then
        log opts host timestamp "error" ("Unhandled promise rejection: " ++ reason)
          (Some (set_key "stack" stack {[ "type" := "unhandled_rejection" ]})) st
      else st
  | OpConsoleError timestamp args =>
      if captures_console opts then
        log opts host timestamp "error" (Js.join " " args)
          (Some {[ "type" := "console_error" ]}) st
      else st
  end.

Definition run (opts : BrowserLoggerOptions) (host : Host) (ops : list Op) : State :=
  fold_left (step opts host) ops initial.

(** Every entry the logger holds or has sent. *)
Definition emitted (st : State) : list Entry :=
  concat (beacons st) ++ concat (posts st) ++ queue st.

End BrowserSdk.

(** ** Notions the properties are stated with *)

Module Spec.

(** *** Durations *)

(** The place of a character in a string, counted from [i]. *)
Fixpoint place_in (c : ascii) (s : string) (i : Z) : option Z :=
  match s with
  | EmptyString => None
  | String d rest => if Ascii.eqb c d then Some i else place_in c rest (i + 1)
  end.

(** What a decimal digit is worth: its place among the ten digits. *)
Definition digit (c : ascii) : option Z := place_in c "0123456789" 0.

(** A string of decimal digits, and the number it denotes. *)
Fixpoint all_digits (ds : string) : bool :=
  match ds with
  | String c rest =>
      match digit c with
      | Some _ => all_digits rest
      | None => false
      end
  | EmptyString => true
  end.

Fixpoint decimal_value (ds : string) : Z :=
  match ds with
  | String c rest =>
      default 0 (digit c) * 10 ^ Z.of_nat (String.length rest)
      + decimal_value rest
  | EmptyString => 0
  end.

(** The milliseconds in each unit of a duration. *)
Definition unit_ms : list (string * Z) :=
  [("s", 1000); ("m", 60000); ("h", 3600000); ("d", 86400000)].

(** [s] is one or more digits [ds] followed by a unit letter [u] worth
    [ms] milliseconds. *)
Definition duration_of (s ds u : string) (ms : Z) : Prop :=
  s = ds ++ u ∧ ds ≠ "" ∧ all_digits ds = true ∧ In (u, ms) unit_ms.

Definition is_duration (s : string) : Prop :=
  ∃ ds u ms, duration_of s ds u ms.

(** The string without its last character, and that character. *)
Fixpoint split_last (s : string) : option (string * string) :=
  match s with
  | EmptyString => None
  | String c rest =>
      match split_last rest with
      | None => Some ("", String c "")
      | Some (init, last) => Some (String c init, last)
      end
  end.

Fixpoint unit_worth (u : string) (table : list (string * Z)) : option Z :=
  match table with
  | [] => None
  | (u', ms) :: others => if String.eqb u u' then Some ms else unit_worth u others
  end.

(** The milliseconds a [since] stands for: the number times the unit
    for digits followed by a unit letter, one hour for anything else. *)
Definition duration_ms (s : string) : Z :=
  match split_last s with
  | Some (ds, u) =>
      match unit_worth u unit_ms with
      | Some ms =>
          if negb (String.eqb ds "") && all_digits ds
          then decimal_value ds * ms
          else 3600000
      | None => 3600000
      end
  | None => 3600000
  end.

(** The largest integer up to which every integer is a double. *)
Definition max_safe : Z := 9007199254740991.

(** The clock and the duration of [since] are in the range in which
    JavaScript computes and prints the cutoff exactly. *)
Definition exact_cutoff (now : Z) (since : option string) : Prop :=
  0 ≤ now ≤ max_safe
  ∧ match since with
    | Some s => duration_ms s ≤ max_safe
    | None => True
    end.

(** *** Quoted values, as the engine reads them *)

Definition is_dquote (c : ascii) : bool := (nat_of_ascii c =? 34)%nat.
Definition is_backslash (c : ascii) : bool := (nat_of_ascii c =? 92)%nat.

(** Reads a double-quoted value whose opening quote has been consumed: a
    backslash takes the next character with it, the first double quote
    that is not escaped closes the value. Returns the text read and what
    is left of the expression after the closing quote; nothing when the
    value is never closed. *)
Fixpoint read_quoted (s : string) : option (string * string) :=
  match s with
  | EmptyString => None
  | String c rest =>
      if is_dquote c then Some ("", rest)
      else if is_backslash c then
        match rest with
        | EmptyString => None
        | String d rest' =>
            match read_quoted rest' with
            | Some (v, tl) => Some (String c (String d v), tl)
            | None => None
            end
        end
      else
        match read_quoted rest with
        | Some (v, tl) => Some (String c v, tl)
        | None => None
        end
  end.

Fixpoint strip_prefix (p s : string) : option string :=
  match p, s with
  | EmptyString, _ => Some s
  | String a p', String b s' => if Ascii.eqb a b then strip_prefix p' s' else None
  | String _ _, EmptyString => None
  end.

(** What the engine is left with after it has read the quoted value of
    the clause on [field]: empty when the value ends with the clause. *)
Definition after_value (field clause : string) : option string :=
  match strip_prefix (field ++ " = " ++ dquote) clause with
  | Some body =>
      match read_quoted body with
      | Some (_, tl) => Some tl
      | None => None
      end
  | None => None
  end.

(** A value with no double quote and no backslash in it. *)
Fixpoint plain (v : string) : bool :=
  match v with
  | String c rest => negb (is_dquote c) && negb (is_backslash c) && plain rest
  | EmptyString => true
  end.

(** The six tools of the server. *)
Definition tool_names : list string :=
  ["search_logs"; "get_trace"; "tail_logs"; "list_projects"; "error_summary";
   "find_similar"].

(** What the handler makes of a value thrown by a tool: an error result
    that carries the message, the word undefined for a value that has
    none; a thrown [null] or [undefined] makes the handler throw. *)
Definition caught (err : Mcp.exn) : Mcp.outcome Mcp.ToolResult :=
  match err with
  | Mcp.Error m =>
      Mcp.Return {| Mcp.content := Mcp.Text ("Error: " ++ m); Mcp.isError := true |}
  | Mcp.NoMessage =>
      Mcp.Return
        {| Mcp.content := Mcp.Text "Error: undefined"; Mcp.isError := true |}
  | Mcp.Null =>
      Mcp.Throw (Mcp.Error "Cannot read properties of null (reading 'message')")
  | Mcp.Undefined =>
      Mcp.Throw
        (Mcp.Error "Cannot read properties of undefined (reading 'message')")
  end.

(** The handler returns the payload [p], stringified, as a result that
    is no error. *)
Definition answer (p : Mcp.Payload) : Mcp.outcome Mcp.ToolResult :=
  Mcp.Return {| Mcp.content := Mcp.Json p; Mcp.isError := false |}.

(** The search a request makes: the one of its tool, when the name is a
    tool and the arguments it reads are there. *)
Definition call_of (now : Z) (req : Mcp.Request)
    : option (option string * Mcp.SearchParams) :=
  let tool := Mcp.name req in
  if String.eqb tool "list_projects" then Some Mcp.list_projects_call
  else
    match Mcp.arguments req with
    | None => None
    | Some args =>
        if String.eqb tool "search_logs" then Some (Mcp.search_logs_call now args)
        else if String.eqb tool "get_trace" then Some (Mcp.get_trace_call args)
        else if String.eqb tool "tail_logs" then Some (Mcp.tail_logs_call now args)
        else if String.eqb tool "error_summary"
        then Some (Mcp.error_summary_call now args)
        else if String.eqb tool "find_similar"
        then Some (Mcp.find_similar_call now args)
        else None
    end.

(** The result for a name that is no tool. *)
Definition unknown_tool (name : string) : Mcp.ToolResult :=
  {| Mcp.content := Mcp.Text ("Unknown tool: " ++ name); Mcp.isError := true |}.

(** *** Limits *)

Definition clamp (lo hi x : Z) : Z := Z.max lo (Z.min x hi).

(** *** Filters as conjunctions of clauses *)

Inductive Clause :=
| Equals (field value : string)
| After (cutoff : Z)
| Extra (expression : string).

Definition render (c : Clause) : string :=
  match c with
  | Equals field value => field ++ " = " ++ dquote ++ value ++ dquote
  | After cutoff => "timestampMs > " ++ pretty cutoff
  | Extra expression => expression
  end.

(** A component counts as given when it is defined and not empty. *)
Definition given (o : option string) : option string :=
  match o with
  | Some EmptyString => None
  | Some v => Some v
  | None => None
  end.

Definition equality (field : string) (o : option string) : list Clause :=
  match o with
  | Some v => [Equals field v]
  | None => []
  end.

(** The clauses of the components that are given, in the order project,
    level, traceId, environment, since, extra. *)
Definition clauses (now : Z) (opts : Mcp.FilterOpts) : list Clause :=
  (equality "project" (Mcp.o_project opts)
   ++ equality "level" (Mcp.o_level opts)
   ++ equality "traceId" (Mcp.o_traceId opts)
   ++ equality "environment" (Mcp.o_environment opts)
   ++ match Mcp.o_since opts with
      | Some s => [After (now - duration_ms s)]
      | None => []
      end
   ++ match Mcp.o_extraFilter opts with
      | Some e => [Extra e]
      | None => []
      end)%list.

(** The equalities of a search: project, level, traceId, environment,
    each when it is given. *)
Definition search_equalities (args : Mcp.Args) : list Clause :=
  (equality "project" (given (Mcp.a_project args))
   ++ equality "level" (given (Mcp.a_level args))
   ++ equality "traceId" (given (Mcp.a_traceId args))
   ++ equality "environment" (given (Mcp.a_environment args)))%list.

(** The four string values of the options, each with the attribute it
    is compared with. *)
Definition string_values (opts : Mcp.FilterOpts) : list (string * option string) :=
  [("project", Mcp.o_project opts); ("level", Mcp.o_level opts);
   ("traceId", Mcp.o_traceId opts); ("environment", Mcp.o_environment opts)].

(** The parts, in order, with the word AND between two spaces between
    any two of them. *)
Fixpoint and_join (parts : list string) : string :=
  match parts with
  | [] => ""
  | p :: rest =>
      match rest with
      | [] => p
      | _ => p ++ " AND " ++ and_join rest
      end
  end.

(** Their conjunction, and no filter when there is none. *)
Definition conjunction (cs : list Clause) : option string :=
  match cs with
  | [] => None
  | _ => Some (and_join (map render cs))
  end.

Definition given_opts (opts : Mcp.FilterOpts) : Mcp.FilterOpts :=
  {| Mcp.o_project := given (Mcp.o_project opts);
     Mcp.o_level := given (Mcp.o_level opts);
     Mcp.o_traceId := given (Mcp.o_traceId opts);
     Mcp.o_environment := given (Mcp.o_environment opts);
     Mcp.o_since := given (Mcp.o_since opts);
     Mcp.o_extraFilter := given (Mcp.o_extraFilter opts) |}.

(** A stored record, as far as filters see it: its filterable string
    attributes and its time stamp. *)
Record LogRecord := {
  attribute : gmap string string;
  timestampMs : Z;
}.

Section Satisfaction.

(** The meaning of an expression a caller passes as is. *)
Variable extra_holds : string → LogRecord → Prop.

Definition holds (r : LogRecord) (c : Clause) : Prop :=
  match c with
  | Equals field value => attribute r !! field = Some value
  | After cutoff => timestampMs r > cutoff
  | Extra expression => extra_holds expression r
  end.

Definition satisfies (r : LogRecord) (cs : list Clause) : Prop :=
  Forall (holds r) cs.

End Satisfaction.

(** *** Filter expressions, as the engine reads them *)

(** The attributes the index lets a filter compare. *)
Definition filterable : list string :=
  ["project"; "level"; "traceId"; "environment"].

(** The value a quoted text denotes: a backslash stands for the
    character after it. *)
Fixpoint unescape (v : string) : string :=
  match v with
  | EmptyString => ""
  | String c rest =>
      if is_backslash c then
        match rest with
        | EmptyString => ""
        | String d rest' => String d (unescape rest')
        end
      else String c (unescape rest)
  end.

(** An equality on one of [fields] at the head of [s], and what follows
    its closing quote. *)
Fixpoint read_equality (fields : list string) (s : string)
    : option (Clause * string) :=
  match fields with
  | [] => None
  | field :: others =>
      match strip_prefix (field ++ " = " ++ dquote) s with
      | Some body =>
          match read_quoted body with
          | Some (v, tl) => Some (Equals field (unescape v), tl)
          | None => None
          end
      | None => read_equality others s
      end
  end.

Definition is_minus (c : ascii) : bool := (nat_of_ascii c =? 45)%nat.

(** The longest prefix made of digits and minus signs. *)
Fixpoint span_numeral (s : string) : string * string :=
  match s with
  | String c rest =>
      if is_minus c || bool_decide (is_Some (digit c))
      then let '(num, tl) := span_numeral rest in (String c num, tl)
      else ("", s)
  | EmptyString => ("", "")
  end.

Fixpoint read_digits (acc : Z) (ds : string) : option Z :=
  match ds with
  | EmptyString => Some acc
  | String c rest =>
      match digit c with
      | Some d => read_digits (10 * acc + d) rest
      | None => None
      end
  end.

(** The integer a decimal numeral denotes: digits, after a minus sign
    or not. *)
Definition read_integer (t : string) : option Z :=
  match t with
  | EmptyString => None
  | String c rest =>
      if is_minus c then
        match rest with
        | EmptyString => None
        | _ => Z.opp <$> read_digits 0 rest
        end
      else read_digits 0 t
  end.

(** One clause at the head of [s]: an equality on a filterable
    attribute or a lower bound on the time stamp. *)
Definition read_clause (s : string) : option (Clause * string) :=
  match read_equality filterable s with
  | Some r => Some r
  | None =>
      match strip_prefix "timestampMs > " s with
      | Some t =>
          let '(num, tl) := span_numeral t in
          match read_integer num with
          | Some cutoff => Some (After cutoff, tl)
          | None => None
          end
      | None => None
      end
  end.

(** An expression made of clauses, AND and OR, AND binding tighter: the
    alternatives it offers, each a list of clauses that must all hold.
    Nothing when the text is no such expression. *)
Fixpoint read_terms (fuel : nat) (s : string) : option (list (list Clause)) :=
  match fuel with
  | O => None
  | S fuel' =>
      match read_clause s with
      | None => None
      | Some (c, tl) =>
          match tl with
          | EmptyString => Some [[c]]
          | _ =>
              match strip_prefix " AND " tl with
              | Some rest =>
                  match read_terms fuel' rest with
                  | Some (first :: more) => Some ((c :: first) :: more)
                  | _ => None
                  end
              | None =>
                  match strip_prefix " OR " tl with
                  | Some rest =>
                      match read_terms fuel' rest with
                      | Some more => Some ([c] :: more)
                      | None => None
                      end
                  | None => None
                  end
              end
          end
      end
  end.

Definition read_filter (text : string) : option (list (list Clause)) :=
  read_terms (S (String.length text)) text.

(** The clauses [read_clause] reads back: an equality of a filterable
    attribute with a value free of double quotes and backslashes, and
    a bound on the time stamp. *)
Definition readable (c : Clause) : Prop :=
  match c with
  | Equals field value => In field filterable ∧ plain value = true
  | After _ => True
  | Extra _ => False
  end.

(** What may follow a clause: the end of the text or a space. *)
Definition clause_end (tl : string) : Prop :=
  tl = "" ∨ ∃ rest, tl = " " ++ rest.

(** No expression is passed as is. *)
Definition no_extra : string → LogRecord → Prop := λ _ _, False.

(** The records a search with [filter] delivers: all of them without a
    filter; with one, those that satisfy every clause of one of its
    alternatives; none when the engine cannot read the filter. *)
Definition selects (filter : option string) (r : LogRecord) : Prop :=
  match filter with
  | None => True
  | Some text =>
      match read_filter text with
      | Some terms => Exists (satisfies no_extra r) terms
      | None => False
      end
  end.

(** Every string value of the options is free of double quotes and
    backslashes. *)
Definition plain_values (opts : Mcp.FilterOpts) : bool :=
  forallb (λ fv, match snd fv with Some v => plain v | None => true end)
    (string_values opts).

(** [wider] keeps every component that [base] gives. *)
Definition keeps (base wider : option string) : Prop :=
  ∀ v, given base = Some v → given wider = Some v.

Definition extends (base wider : Mcp.FilterOpts) : Prop :=
  keeps (Mcp.o_project base) (Mcp.o_project wider)
  ∧ keeps (Mcp.o_level base) (Mcp.o_level wider)
  ∧ keeps (Mcp.o_traceId base) (Mcp.o_traceId wider)
  ∧ keeps (Mcp.o_environment base) (Mcp.o_environment wider)
  ∧ keeps (Mcp.o_since base) (Mcp.o_since wider)
  ∧ keeps (Mcp.o_extraFilter base) (Mcp.o_extraFilter wider).

(** *** Lists *)

(** The values of a list in the order in which they first occur. *)
Fixpoint first_occurrences {A} `{EqDecision A} (xs : list A) : list A :=
  match xs with
  | [] => []
  | x :: rest => x :: filter (λ y, y ≠ x) (first_occurrences rest)
  end.

(** *** Operations that log *)

(** The operations of a Node logger that call [log]. *)
Definition node_logs (op : NodeSdk.Op) : bool :=
  match op with
  | NodeSdk.OpFlush | NodeSdk.OpOpen | NodeSdk.OpClose => false
  | _ => true
  end.

Definition is_open (op : NodeSdk.Op) : bool :=
  match op with
  | NodeSdk.OpOpen => true
  | _ => false
  end.


(** While the socket is open, the queue is shorter than a batch, and
    empty when the size of a batch is not positive. *)
Definition queue_below_batch (opts : NodeSdk.LogstreamOptions)
    (st : NodeSdk.State) : Prop :=
  NodeSdk.connected st = true →
  Z.of_nat (length (NodeSdk.queue st)) < Z.max 1 (NodeSdk.batch_size opts).

End Spec.

(** ** Sample inputs *)

Module Sample.

Definition no_opts : Mcp.FilterOpts :=
  {| Mcp.o_project := None; Mcp.o_level := None; Mcp.o_traceId := None;
     Mcp.o_environment := None; Mcp.o_since := None;
     Mcp.o_extraFilter := None |}.

Definition project_only (v : string) : Mcp.FilterOpts :=
  {| Mcp.o_project := Some v; Mcp.o_level := None; Mcp.o_traceId := None;
     Mcp.o_environment := None; Mcp.o_since := None;
     Mcp.o_extraFilter := None |}.

Definition project_and_level (p l : string) : Mcp.FilterOpts :=
  {| Mcp.o_project := Some p; Mcp.o_level := Some l; Mcp.o_traceId := None;
     Mcp.o_environment := None; Mcp.o_since := None;
     Mcp.o_extraFilter := None |}.

(** A stored error of the project api. *)
Definition api_error : Spec.LogRecord :=
  {| Spec.attribute := {[ "project" := "api"; "level" := "error" ]};
     Spec.timestampMs := 1767225600000 |}.

Definition no_args : Mcp.Args :=
  {| Mcp.a_query := None; Mcp.a_project := None; Mcp.a_level := None;
     Mcp.a_traceId := None; Mcp.a_environment := None; Mcp.a_since := None;
     Mcp.a_message := None; Mcp.a_limit := None |}.

Definition since_args (s : string) : Mcp.Args :=
  {| Mcp.a_query := None; Mcp.a_project := None; Mcp.a_level := None;
     Mcp.a_traceId := None; Mcp.a_environment := None; Mcp.a_since := Some s;
     Mcp.a_message := None; Mcp.a_limit := None |}.

(** The errors of the project api since [s]. *)
Definition api_errors_since (s : string) : Mcp.Args :=
  {| Mcp.a_query := None; Mcp.a_project := Some "api";
     Mcp.a_level := Some "error"; Mcp.a_traceId := None;
     Mcp.a_environment := None; Mcp.a_since := Some s;
     Mcp.a_message := None; Mcp.a_limit := None |}.

Definition limit_args (n : Z) : Mcp.Args :=
  {| Mcp.a_query := None; Mcp.a_project := None; Mcp.a_level := None;
     Mcp.a_traceId := None; Mcp.a_environment := None; Mcp.a_since := None;
     Mcp.a_message := None; Mcp.a_limit := Some n |}.

Definition trace_args (t : string) : Mcp.Args :=
  {| Mcp.a_query := None; Mcp.a_project := None; Mcp.a_level := None;
     Mcp.a_traceId := Some t; Mcp.a_environment := None; Mcp.a_since := None;
     Mcp.a_message := None; Mcp.a_limit := None |}.

Definition hit (project message : string) : Mcp.Hit :=
  {| Mcp.h_id := None; Mcp.h_timestamp := None; Mcp.h_project := Some project;
     Mcp.h_level := Some "info"; Mcp.h_message := Some message;
     Mcp.h_traceId := Some "T"; Mcp.h_spanId := None;
     Mcp.h_parentSpanId := None; Mcp.h_source := None; Mcp.h_meta := None;
     Mcp.h_environment := None |}.

(** An engine that answers every search with the same three events of
    two services. *)
Definition three_events : Mcp.Engine :=
  λ _ _,
    Mcp.Return
      {| Mcp.hits := [hit "svcA" "a"; hit "svcB" "b"; hit "svcA" "c"];
         Mcp.estimatedTotalHits := Some 3;
         Mcp.facetDistribution := None |}.

(** An engine that is down. *)
Definition unreachable : Mcp.Engine :=
  λ _ _, Mcp.Throw (Mcp.Error "fetch failed").

(** An engine whose client rejects with [null]. *)
Definition rejects_null : Mcp.Engine :=
  λ _ _, Mcp.Throw Mcp.Null.

(** A request for a tool, with or without an arguments object. *)
Definition call (tool : string) (arguments : option Mcp.Args) : Mcp.RawRequest :=
  {| Mcp.params := Some {| Mcp.name := tool; Mcp.arguments := arguments |} |}.

(** A request without [params]. *)
Definition no_params : Mcp.RawRequest := {| Mcp.params := None |}.

(** A source of identifiers: the letter u and the number of the draw. *)
Definition uuid (n : nat) : string := String (ascii_of_nat 117) (pretty n).

(** The source of another process: the letter v and the number. *)
Definition uuid_b (n : nat) : string := String (ascii_of_nat 118) (pretty n).

Definition node_opts (environment : option string) : NodeSdk.LogstreamOptions :=
  {| NodeSdk.serverUrl := "ws://localhost:4800/ws";
     NodeSdk.project := "api";
     NodeSdk.environment := environment;
     NodeSdk.batchMs := None;
     NodeSdk.batchSize := None |}.

(** A logger that sends batches of two, and three entries logged after
    its socket has opened. *)
Definition small_batches : NodeSdk.LogstreamOptions :=
  {| NodeSdk.serverUrl := "ws://localhost:4800/ws";
     NodeSdk.project := "api";
     NodeSdk.environment := None;
     NodeSdk.batchMs := None;
     NodeSdk.batchSize := Some 2 |}.

Definition three_logs : list NodeSdk.Op :=
  [NodeSdk.OpOpen;
   NodeSdk.OpLog "2026-01-01T00:00:00.001Z" "info" "one" None;
   NodeSdk.OpLog "2026-01-01T00:00:00.002Z" "info" "two" None;
   NodeSdk.OpLog "2026-01-01T00:00:00.003Z" "info" "three" None].

(** Two entries logged, with a tick of the flush timer between them,
    on a logger whose socket has not opened. *)
Definition two_offline : list NodeSdk.Op :=
  [NodeSdk.OpLog "2026-01-01T00:00:00.001Z" "warn" "slow" None;
   NodeSdk.OpFlush;
   NodeSdk.OpLog "2026-01-01T00:00:00.002Z" "error" "down" None].

Definition browser_opts (environment : option string)
    : BrowserSdk.BrowserLoggerOptions :=
  {| BrowserSdk.endpoint := "http://localhost:4800/ingest";
     BrowserSdk.project := "web";
     BrowserSdk.environment := environment;
     BrowserSdk.flushMs := None;
     BrowserSdk.captureErrors := None;
     BrowserSdk.captureConsole := None |}.

Definition page : BrowserSdk.Host :=
  {| BrowserSdk.location := Some "http://localhost/app";
     BrowserSdk.has_window := true;
     BrowserSdk.has_sendBeacon := true |}.

(** A trace started by one service, and its continuation by another
    service from the headers of the first. *)
Definition started : NodeSdk.TraceContext :=
  fst (NodeSdk.startTrace uuid (node_opts None) "2026-01-01T00:00:00.000Z"
         "checkout" NodeSdk.initial).

Definition received : NodeSdk.TraceContext :=
  fst (NodeSdk.continueTrace uuid_b (node_opts (Some "prod"))
         "2026-01-01T00:00:00.020Z" (NodeSdk.trace_headers started) "charge"
         NodeSdk.initial).

(** A hit with a time stamp, and an engine that answers with three of
    them, the latest first. *)
Definition timed_hit (timestamp message : string) : Mcp.Hit :=
  {| Mcp.h_id := None; Mcp.h_timestamp := Some timestamp;
     Mcp.h_project := Some "api"; Mcp.h_level := Some "info";
     Mcp.h_message := Some message; Mcp.h_traceId := None;
     Mcp.h_spanId := None; Mcp.h_parentSpanId := None; Mcp.h_source := None;
     Mcp.h_meta := None; Mcp.h_environment := None |}.

Definition latest_first : Mcp.Engine :=
  λ _ _,
    Mcp.Return
      {| Mcp.hits := [timed_hit "2026-01-01T00:00:03.000Z" "third";
                      timed_hit "2026-01-01T00:00:02.000Z" "second";
                      timed_hit "2026-01-01T00:00:01.000Z" "first"];
         Mcp.estimatedTotalHits := Some 3;
         Mcp.facetDistribution := None |}.

(** [a] is not older than [b], by their time stamps. *)
Definition not_older (a b : Mcp.Hit) : Prop :=
  String.leb (Js.interp (Mcp.h_timestamp b)) (Js.interp (Mcp.h_timestamp a)) = true.

(** The state of the first service after it has started its trace, and
    the span it then opens for the payment. *)
Definition after_start : NodeSdk.State :=
  snd (NodeSdk.startTrace uuid (node_opts None) "2026-01-01T00:00:00.000Z"
         "checkout" NodeSdk.initial).

Definition payment_span : NodeSdk.SpanContext :=
  fst (NodeSdk.span uuid (node_opts None) "t1" started "payment.charge"
         after_start).

(** A value that carries a double quote: x, a quote, an OR clause on the
    level whose own closing quote is left out. *)
Definition quoting_value : string :=
  "x" ++ dquote ++ " OR level = " ++ dquote ++ "error".

(** Options that ask for the level info, and the same with the project
    set to [quoting_value]. *)
Definition level_only (l : string) : Mcp.FilterOpts :=
  {| Mcp.o_project := None; Mcp.o_level := Some l; Mcp.o_traceId := None;
     Mcp.o_environment := None; Mcp.o_since := None;
     Mcp.o_extraFilter := None |}.

(** A stored debug line of the project x. *)
Definition x_debug : Spec.LogRecord :=
  {| Spec.attribute := {[ "project" := "x"; "level" := "debug" ]};
     Spec.timestampMs := 1767225600000 |}.

(** Options with a project, a level and a range of five minutes. *)
Definition recent_api_errors : Mcp.FilterOpts :=
  {| Mcp.o_project := Some "api"; Mcp.o_level := Some "error";
     Mcp.o_traceId := None; Mcp.o_environment := None;
     Mcp.o_since := Some "5m"; Mcp.o_extraFilter := None |}.

End Sample.

(** * Properties *)

(** ** Strings and joins *)

Lemma string_app_cons (c : ascii) (a b : string) :
  String c a ++ b = String c (a ++ b).
Proof. reflexivity. Qed.

Lemma string_app_nil_l (a : string) : "" ++ a = a.
Proof. reflexivity. Qed.

Lemma string_app_assoc (a b c : string) : (a ++ b) ++ c = a ++ (b ++ c).
Proof.
  induction a as [|x a IH]; [reflexivity |].
  now rewrite !string_app_cons, IH.
Qed.

Lemma string_app_nil_r (a : string) : a ++ "" = a.
Proof.
  induction a as [|x a IH]; [reflexivity |].
  now rewrite string_app_cons, IH.
Qed.

Lemma string_length_app (a b : string) :
  String.length (a ++ b) = (String.length a + String.length b)%nat.
Proof.
  induction a as [|x a IH]; [reflexivity |].
  rewrite string_app_cons. simpl. now rewrite IH.
Qed.

(** The join of the code puts the separator where [Spec.and_join] puts
    it. *)
Lemma join_and_join (parts : list string) :
  Js.join " AND " parts = Spec.and_join parts.
Proof.
  unfold Js.join. induction parts as [|p [|q rest] IH]; [reflexivity.. |].
  change (p ++ " AND " ++ String.concat " AND " (q :: rest)
          = p ++ " AND " ++ Spec.and_join (q :: rest)).
  now rewrite IH.
Qed.

Lemma and_join_cons (p q : string) (rest : list string) :
  Spec.and_join (p :: q :: rest) = p ++ " AND " ++ Spec.and_join (q :: rest).
Proof. reflexivity. Qed.

(** The digits of the code are the ten decimal digits, with their
    values. *)
Lemma digit_spec (c : ascii) :
  match Spec.digit c with
  | Some d => Mcp.is_digit c = true ∧ Mcp.digit_value c = d
  | None => Mcp.is_digit c = false
  end.
Proof.
  destruct c as [[] [] [] [] [] [] [] []]; vm_compute; auto.
Qed.

Lemma is_digit_digit (c : ascii) :
  Mcp.is_digit c = true ↔ is_Some (Spec.digit c).
Proof.
  pose proof (digit_spec c) as H. destruct (Spec.digit c) as [d|].
  - split; [eauto | tauto].
  - rewrite H. split; [discriminate | intros [? ?]; discriminate].
Qed.

Lemma all_digits_cons (c : ascii) (ds : string) :
  Spec.all_digits (String c ds) = Mcp.is_digit c && Spec.all_digits ds.
Proof.
  simpl. pose proof (digit_spec c) as H. destruct (Spec.digit c).
  - now rewrite (proj1 H).
  - now rewrite H.
Qed.


(** ** parseDuration *)

Section Duration.

Lemma unit_ms_inv (u : string) (ms : Z) :
  In (u, ms) Spec.unit_ms →
  (u = "s" ∧ ms = 1000) ∨ (u = "m" ∧ ms = 60000) ∨
  (u = "h" ∧ ms = 3600000) ∨ (u = "d" ∧ ms = 86400000).
Proof.
  unfold Spec.unit_ms. simpl. intros H.
  repeat (destruct H as [H | H]; [inversion H; tauto |]). contradiction.
Qed.

Lemma is_unit_inv (u : string) :
  Mcp.is_unit u = true → ∃ ms, In (u, ms) Spec.unit_ms.
Proof.
  unfold Mcp.is_unit. rewrite !orb_true_iff, !String.eqb_eq.
  intros [[[-> | ->] | ->] | ->]; eexists; simpl; eauto 6.
Qed.

(** The table lookup of the code agrees with the table of the units. *)
Lemma units_lookup (u : string) (ms : Z) :
  In (u, ms) Spec.unit_ms → Js.num_or (Mcp.units !! u) 0 = ms ∧ Mcp.is_unit u = true.
Proof.
  intros H. apply unit_ms_inv in H.
  destruct H as [[-> ->] | [[-> ->] | [[-> ->] | [-> ->]]]]; split; vm_compute; reflexivity.
Qed.

(** A unit letter stops the run of digits. *)
Lemma span_digits_unit (u : string) (ms : Z) :
  In (u, ms) Spec.unit_ms → Mcp.span_digits u = ("", u).
Proof.
  intros H. apply unit_ms_inv in H.
  destruct H as [[-> _] | [[-> _] | [[-> _] | [-> _]]]]; reflexivity.
Qed.

Lemma span_digits_app (ds tl : string) :
  Spec.all_digits ds = true → Mcp.span_digits tl = ("", tl) →
  Mcp.span_digits (ds ++ tl) = (ds, tl).
Proof.
  intros Hds Htl. induction ds as [|c ds IH]; [exact Htl |].
  rewrite all_digits_cons in Hds. apply andb_true_iff in Hds as [Hc Hds].
  rewrite string_app_cons. simpl. rewrite Hc, (IH Hds). reflexivity.
Qed.

(** What the run of digits returns: a split of the input whose first
    half is all digits and whose second half does not start with one. *)
Lemma span_digits_split (s ds tl : string) :
  Mcp.span_digits s = (ds, tl) →
  s = ds ++ tl ∧ Spec.all_digits ds = true.
Proof.
  revert ds tl. induction s as [|c s IH]; simpl; intros ds tl H.
  - inversion H. now split.
  - destruct (Mcp.is_digit c) eqn:Hc.
    + destruct (Mcp.span_digits s) as [ds' tl'] eqn:E. inversion H; subst.
      destruct (IH ds' tl eq_refl) as [-> Hd].
      now rewrite all_digits_cons, Hc, Hd.
    + inversion H. now split.
Qed.

Lemma match_duration_complete (s ds u : string) (ms : Z) :
  Spec.duration_of s ds u ms → Mcp.match_duration s = Some (ds, u).
Proof.
  intros (-> & Hne & Hds & Hu). unfold Mcp.match_duration.
  rewrite (span_digits_app ds u Hds (span_digits_unit u ms Hu)).
  apply String.eqb_neq in Hne. rewrite Hne.
  now rewrite (proj2 (units_lookup u ms Hu)).
Qed.

Lemma match_duration_sound (s ds u : string) :
  Mcp.match_duration s = Some (ds, u) → ∃ ms, Spec.duration_of s ds u ms.
Proof.
  unfold Mcp.match_duration.
  destruct (Mcp.span_digits s) as [ds' tl] eqn:E.
  destruct (String.eqb ds' "") eqn:Hne; [discriminate |].
  destruct (Mcp.is_unit tl) eqn:Hu; [| discriminate].
  intros H; inversion H; subst.
  destruct (is_unit_inv u Hu) as [ms Hms].
  destruct (span_digits_split s ds u E) as [-> Hds].
  exists ms. repeat split; auto. now apply String.eqb_neq.
Qed.

Lemma not_duration_no_match (s : string) :
  ¬ Spec.is_duration s ↔ Mcp.match_duration s = None.
Proof.
  split.
  - intros Hno. destruct (Mcp.match_duration s) as [[ds u]|] eqn:E; [| reflexivity].
    destruct (match_duration_sound s ds u E) as [ms H].
    exfalso. apply Hno. now exists ds, u, ms.
  - intros E (ds & u & ms & H). rewrite (match_duration_complete s ds u ms H) in E.
    discriminate.
Qed.

(** [parseInt] reads the digits most significant first. *)
Lemma parseInt_from_decimal (ds : string) (acc : Z) :
  Spec.all_digits ds = true →
  Mcp.parseInt_from acc ds
  = acc * 10 ^ Z.of_nat (String.length ds) + Spec.decimal_value ds.
Proof.
  revert acc. induction ds as [|c ds IH]; intros acc Hds; simpl Mcp.parseInt_from.
  - simpl. lia.
  - simpl in Hds. pose proof (digit_spec c) as Hc.
    destruct (Spec.digit c) as [d|] eqn:Ed; [| discriminate].
    rewrite (IH _ Hds). cbn [String.length Spec.decimal_value].
    rewrite Ed. destruct Hc as [_ ->].
    change (default 0 (Some d)) with d.
    rewrite Nat2Z.inj_succ, Z.pow_succ_r by lia. ring.
Qed.

Lemma parseInt_decimal (ds : string) :
  Spec.all_digits ds = true → Mcp.parseInt ds = Spec.decimal_value ds.
Proof.
  intros Hds. unfold Mcp.parseInt. rewrite parseInt_from_decimal by exact Hds. lia.
Qed.

Lemma parseDuration_match (s ds u : string) (ms : Z) :
  Spec.duration_of s ds u ms → Mcp.parseDuration s = Spec.decimal_value ds * ms.
Proof.
  intros H. unfold Mcp.parseDuration.
  rewrite (match_duration_complete s ds u ms H).
  destruct H as (_ & _ & Hds & Hu).
  now rewrite (proj1 (units_lookup u ms Hu)), (parseInt_decimal ds Hds).
Qed.

Lemma parseDuration_default (s : string) :
  ¬ Spec.is_duration s → Mcp.parseDuration s = 3600000.
Proof.
  intros H. apply not_duration_no_match in H.
  unfold Mcp.parseDuration. now rewrite H.
Qed.

Lemma split_last_app (ds u : string) :
  String.length u = 1%nat → Spec.split_last (ds ++ u) = Some (ds, u).
Proof.
  intros Hu. induction ds as [|c ds IH].
  - destruct u as [|c [|d u]]; try discriminate. reflexivity.
  - rewrite string_app_cons. simpl. now rewrite IH.
Qed.

Lemma split_last_sound (s ds u : string) :
  Spec.split_last s = Some (ds, u) → s = ds ++ u.
Proof.
  revert ds. induction s as [|c s IH]; intros ds; simpl; [discriminate |].
  destruct (Spec.split_last s) as [[i l]|] eqn:E; intros H; inversion H; subst.
  - now rewrite (IH i eq_refl).
  - destruct s as [|d s]; [reflexivity |]. simpl in E.
    destruct (Spec.split_last s) as [[? ?]|]; discriminate.
Qed.

Lemma unit_worth_In (u : string) (ms : Z) :
  Spec.unit_worth u Spec.unit_ms = Some ms ↔ In (u, ms) Spec.unit_ms.
Proof.
  split.
  - unfold Spec.unit_ms. simpl.
    repeat match goal with
      | |- context [String.eqb u ?x] =>
          destruct (String.eqb_spec u x) as [-> |];
          [intros H; inversion H; subst; auto 6 |]
      end.
    discriminate.
  - intros H. apply unit_ms_inv in H.
    destruct H as [[-> ->] | [[-> ->] | [[-> ->] | [-> ->]]]]; reflexivity.
Qed.

(** The duration of the code is the duration a [since] stands for. *)
Lemma duration_ms_parseDuration (s : string) :
  Spec.duration_ms s = Mcp.parseDuration s.
Proof.
  destruct (Mcp.match_duration s) as [[ds u]|] eqn:E.
  - destruct (match_duration_sound s ds u E) as [ms H].
    rewrite (parseDuration_match s ds u ms H).
    destruct H as (-> & Hne & Hds & Hu). unfold Spec.duration_ms.
    rewrite split_last_app.
    + rewrite (proj2 (unit_worth_In u ms) Hu), Hds.
      apply String.eqb_neq in Hne. now rewrite Hne.
    + apply unit_ms_inv in Hu.
      destruct Hu as [[-> _] | [[-> _] | [[-> _] | [-> _]]]]; reflexivity.
  - rewrite parseDuration_default by now apply not_duration_no_match.
    unfold Spec.duration_ms.
    destruct (Spec.split_last s) as [[ds u]|] eqn:Es; [| reflexivity].
    destruct (Spec.unit_worth u Spec.unit_ms) as [ms|] eqn:Eu; [| reflexivity].
    destruct (negb (String.eqb ds "") && Spec.all_digits ds) eqn:Ec; [| reflexivity].
    exfalso. apply andb_true_iff in Ec as [Hne Hds].
    apply negb_true_iff, String.eqb_neq in Hne.
    apply unit_worth_In in Eu. apply split_last_sound in Es.
    assert (Hd : Spec.duration_of s ds u ms) by now repeat split.
    rewrite (match_duration_complete s ds u ms Hd) in E. discriminate.
Qed.

Lemma duration_ms_match (s ds u : string) (ms : Z) :
  Spec.duration_of s ds u ms → Spec.duration_ms s = Spec.decimal_value ds * ms.
Proof.
  intros H. rewrite duration_ms_parseDuration. exact (parseDuration_match s ds u ms H).
Qed.

End Duration.

(** ** buildFilter *)

Section Filter.

Variable now : Z.

(** The components that are given are the ones JavaScript takes for
    true. *)
Lemma given_truthy (o : option string) :
  Spec.given o = if Js.truthy o then o else None.
Proof. now destruct o as [[|c s]|]. Qed.

Lemma given_some (o : option string) (v : string) :
  Spec.given o = Some v ↔ o = Some v ∧ v ≠ "".
Proof.
  destruct o as [[|c s]|]; simpl; split;
    try discriminate; try (intros [E Hne]; congruence).
  intros E; inversion E; subst. now split.
Qed.

(** One conditional push adds the clause of a given component, and
    nothing for a component that is missing or empty. *)
Lemma push_if_given (o : option string) (f : string → string) (parts : list string) :
  Mcp.push_if o f parts
  = (parts ++ match Spec.given o with Some v => [f v] | None => [] end)%list.
Proof.
  rewrite given_truthy. unfold Mcp.push_if. destruct o as [v|]; simpl.
  - destruct (String.eqb v ""); simpl; [now rewrite app_nil_r | reflexivity].
  - now rewrite app_nil_r.
Qed.

Lemma equality_render (field : string) (o : option string) :
  map Spec.render (Spec.equality field o)
  = match o with Some v => [Mcp.eq_clause field v] | None => [] end.
Proof. now destruct o. Qed.

(** The parts the code collects are the rendered clauses of the given
    components, in order. *)
Lemma filter_parts_clauses (opts : Mcp.FilterOpts) :
  Mcp.filter_parts now opts
  = map Spec.render (Spec.clauses now (Spec.given_opts opts)).
Proof.
  unfold Mcp.filter_parts, Spec.clauses, Spec.given_opts. simpl.
  rewrite !push_if_given, !map_app, !equality_render. simpl.
  repeat rewrite <- app_assoc.
  destruct (Spec.given (Mcp.o_project opts)), (Spec.given (Mcp.o_level opts)),
    (Spec.given (Mcp.o_traceId opts)), (Spec.given (Mcp.o_environment opts)),
    (Spec.given (Mcp.o_since opts)), (Spec.given (Mcp.o_extraFilter opts));
    simpl; rewrite ?duration_ms_parseDuration; reflexivity.
Qed.

Lemma buildFilter_given (opts : Mcp.FilterOpts) :
  Mcp.buildFilter now opts
  = Spec.conjunction (Spec.clauses now (Spec.given_opts opts)).
Proof.
  unfold Mcp.buildFilter, Spec.conjunction. rewrite filter_parts_clauses.
  destruct (Spec.clauses now (Spec.given_opts opts)); [reflexivity |].
  now rewrite join_and_join.
Qed.

Lemma clauses_elem (opts : Mcp.FilterOpts) (c : Spec.Clause) :
  In c (Spec.clauses now opts) ↔
    (∃ v, c = Spec.Equals "project" v ∧ Mcp.o_project opts = Some v)
    ∨ (∃ v, c = Spec.Equals "level" v ∧ Mcp.o_level opts = Some v)
    ∨ (∃ v, c = Spec.Equals "traceId" v ∧ Mcp.o_traceId opts = Some v)
    ∨ (∃ v, c = Spec.Equals "environment" v ∧ Mcp.o_environment opts = Some v)
    ∨ (∃ s, c = Spec.After (now - Spec.duration_ms s) ∧ Mcp.o_since opts = Some s)
    ∨ (∃ e, c = Spec.Extra e ∧ Mcp.o_extraFilter opts = Some e).
Proof.
  unfold Spec.clauses. rewrite !in_app_iff.
  destruct (Mcp.o_project opts), (Mcp.o_level opts), (Mcp.o_traceId opts),
    (Mcp.o_environment opts), (Mcp.o_since opts), (Mcp.o_extraFilter opts);
    simpl; split; intros H;
    repeat match goal with
      | H : _ ∨ _ |- _ => destruct H as [H | H]
      | H : ∃ _, _ |- _ => destruct H as [? [? ?]]
      | H : False |- _ => contradiction
      | H : None = Some _ |- _ => discriminate
      | H : Some _ = Some _ |- _ => inversion H; subst; clear H
      end; subst; eauto 12.
Qed.

End Filter.

(** The filter of a search: the equalities of the arguments that are
    given, then the range of [since]. *)
Lemma search_logs_filter (now : Z) (args : Mcp.Args) :
  Mcp.p_filter (snd (Mcp.search_logs_call now args))
  = Spec.conjunction
      (Spec.search_equalities args
       ++ match Spec.given (Mcp.a_since args) with
          | Some s => [Spec.After (now - Spec.duration_ms s)]
          | None => []
          end)%list.
Proof.
  unfold Mcp.search_logs_call. cbn [snd Mcp.p_filter].
  rewrite buildFilter_given. unfold Spec.clauses, Spec.given_opts, Spec.search_equalities.
  cbn [Mcp.o_project Mcp.o_level Mcp.o_traceId Mcp.o_environment Mcp.o_since
       Mcp.o_extraFilter].
  change (Spec.given None) with (@None string).
  now rewrite app_nil_r, <- !app_assoc.
Qed.

Lemma conjunction_snoc (cs : list Spec.Clause) (c : Spec.Clause) :
  Spec.conjunction (cs ++ [c])
  = Some (Spec.and_join (map Spec.render (cs ++ [c]))).
Proof. now destruct cs. Qed.

(** C3. Within the range in which JavaScript numbers are exact: a
    [since] that is digits followed by s, m, h or d is worth the number
    times the unit (1000, 60000, 3600000, 86400000 ms), and the search
    filter is the equalities that are given followed by the clause on
    timestampMs with the cutoff [now] minus that duration; any other
    string is worth 3600000 ms, and when it is not empty the clause uses
    that hour. *)
Theorem since_clause_of_duration (now : Z) (args : Mcp.Args) (s : string) :
  Mcp.a_since args = Some s →
  0 ≤ now ≤ Spec.max_safe →
  (∀ ds u ms,
     Spec.duration_of s ds u ms →
     Spec.decimal_value ds * ms ≤ Spec.max_safe →
     Mcp.parseDuration s = Spec.decimal_value ds * ms
     ∧ Mcp.p_filter (snd (Mcp.search_logs_call now args))
       = Some (Spec.and_join
                 (map Spec.render (Spec.search_equalities args)
                  ++ ["timestampMs > " ++ pretty (now - Spec.decimal_value ds * ms)])))
  ∧ (¬ Spec.is_duration s →
     Mcp.parseDuration s = 3600000
     ∧ (s ≠ "" →
        Mcp.p_filter (snd (Mcp.search_logs_call now args))
        = Some (Spec.and_join
                  (map Spec.render (Spec.search_equalities args)
                   ++ ["timestampMs > " ++ pretty (now - 3600000)])))).
Proof.
  intros Hs _.
  assert (Hfilter : s ≠ "" →
    Mcp.p_filter (snd (Mcp.search_logs_call now args))
    = Some (Spec.and_join
              (map Spec.render (Spec.search_equalities args)
               ++ ["timestampMs > " ++ pretty (now - Mcp.parseDuration s)]))).
  { intros Hne. rewrite search_logs_filter, Hs.
    rewrite (proj2 (given_some (Some s) s) (conj eq_refl Hne)).
    rewrite conjunction_snoc, map_app, duration_ms_parseDuration. reflexivity. }
  split.
  - intros ds u ms Hd _. pose proof (parseDuration_match s ds u ms Hd) as Hv.
    split; [exact Hv |]. rewrite <- Hv. apply Hfilter.
    destruct Hd as (-> & Hne & _). destruct ds; [congruence | discriminate].
  - intros Hno. pose proof (parseDuration_default s Hno) as Hv.
    split; [exact Hv |]. rewrite <- Hv. exact Hfilter.
Qed.

(** Five minutes before the millionth millisecond, for the errors of a
    project; and a [since] that is no duration. *)
Lemma since_clause_of_duration_witness :
  (Mcp.parseDuration "5m" = 300000
   ∧ Mcp.p_filter
       (snd (Mcp.search_logs_call 1000000 (Sample.api_errors_since "5m")))
     = Some ("project = " ++ dquote ++ "api" ++ dquote ++ " AND level = "
             ++ dquote ++ "error" ++ dquote ++ " AND timestampMs > 700000"))
  ∧ Mcp.parseDuration "soon" = 3600000
  ∧ Mcp.parseDuration "90" = 3600000
  ∧ Mcp.parseDuration "1w" = 3600000.
Proof.
  assert (Hnow : ∀ n, n = 0 ∨ n = 1000000 → 0 ≤ n ≤ Spec.max_safe)
    by (unfold Spec.max_safe; lia).
  split; [| split; [| split]].
  - apply (proj1 (since_clause_of_duration 1000000
                    (Sample.api_errors_since "5m") "5m" eq_refl
                    (Hnow _ (or_intror eq_refl))) "5" "m" 60000).
    + repeat split; [discriminate | simpl; auto].
    + vm_compute. discriminate.
  - apply (proj2 (since_clause_of_duration 0 (Sample.since_args "soon") "soon"
                    eq_refl (Hnow _ (or_introl eq_refl)))).
    apply not_duration_no_match. reflexivity.
  - apply (proj2 (since_clause_of_duration 0 (Sample.since_args "90") "90"
                    eq_refl (Hnow _ (or_introl eq_refl)))).
    apply not_duration_no_match. reflexivity.
  - apply (proj2 (since_clause_of_duration 0 (Sample.since_args "1w") "1w"
                    eq_refl (Hnow _ (or_introl eq_refl)))).
    apply not_duration_no_match. reflexivity.
Defined.

Example search_since_5m :
  Mcp.p_filter (snd (Mcp.search_logs_call 1000000 (Sample.since_args "5m")))
  = Some "timestampMs > 700000".
Proof. vm_compute. reflexivity. Qed.

(** ** Filters, read back *)

Lemma strip_prefix_app (p s : string) : Spec.strip_prefix p (p ++ s) = Some s.
Proof.
  induction p as [|c p IH]; [reflexivity |].
  rewrite string_app_cons. simpl. now rewrite Ascii.eqb_refl.
Qed.

(** A plain value is read back whole, up to the quote that follows it. *)
Lemma read_quoted_plain (v tl : string) :
  Spec.plain v = true →
  Spec.read_quoted (v ++ dquote ++ tl) = Some (v, tl).
Proof.
  induction v as [|c v IH]; intros Hp.
  - reflexivity.
  - simpl in Hp. apply andb_true_iff in Hp as [Hc Hp].
    apply andb_true_iff in Hc as [Hq Hb].
    apply negb_true_iff in Hq, Hb.
    rewrite string_app_cons. simpl. rewrite Hq, Hb, (IH Hp). reflexivity.
Qed.

Lemma unescape_plain (v : string) : Spec.plain v = true → Spec.unescape v = v.
Proof.
  induction v as [|c v IH]; intros Hp; [reflexivity |].
  simpl in Hp. apply andb_true_iff in Hp as [Hc Hp].
  apply andb_true_iff in Hc as [_ Hb]. apply negb_true_iff in Hb.
  simpl. now rewrite Hb, (IH Hp).
Qed.

Lemma after_value_plain (field v : string) :
  Spec.plain v = true → Spec.after_value field (Mcp.eq_clause field v) = Some "".
Proof.
  intros Hp. unfold Spec.after_value, Mcp.eq_clause.
  replace (field ++ " = " ++ dquote ++ v ++ dquote)
    with ((field ++ " = " ++ dquote) ++ v ++ dquote ++ "")
    by now rewrite !string_app_assoc, string_app_nil_r.
  rewrite strip_prefix_app, (read_quoted_plain v "" Hp).
  reflexivity.
Qed.

(** A double quote that follows a plain prefix closes the value there. *)
Lemma after_value_quote (field a b : string) :
  Spec.plain a = true →
  Spec.after_value field (Mcp.eq_clause field (a ++ dquote ++ b))
  = Some (b ++ dquote).
Proof.
  intros Hp. unfold Spec.after_value, Mcp.eq_clause.
  replace (field ++ " = " ++ dquote ++ (a ++ dquote ++ b) ++ dquote)
    with ((field ++ " = " ++ dquote) ++ a ++ dquote ++ (b ++ dquote))
    by now rewrite !string_app_assoc.
  rewrite strip_prefix_app, (read_quoted_plain a _ Hp).
  reflexivity.
Qed.

(** *** Numerals *)

Lemma digit_pretty_char (x : N) :
  (x < 10)%N → Spec.digit (pretty_N_char x) = Some (Z.of_N x).
Proof.
  intros Hx.
  assert (H : (x = 0 ∨ x = 1 ∨ x = 2 ∨ x = 3 ∨ x = 4 ∨ x = 5 ∨ x = 6 ∨ x = 7
               ∨ x = 8 ∨ x = 9)%N) by lia.
  repeat (destruct H as [-> | H]; [reflexivity |]). now subst.
Qed.

Lemma pretty_N_go_app (x : N) (s t : string) :
  pretty_N_go x s ++ t = pretty_N_go x (s ++ t).
Proof.
  revert s. induction (N.lt_wf_0 x) as [x _ IH]; intros s.
  destruct (decide (x = 0)%N) as [-> | Hx]; [reflexivity |].
  rewrite (pretty_N_go_step x s), (pretty_N_go_step x (s ++ t)) by lia.
  rewrite IH by (apply N.div_lt; lia). now rewrite string_app_cons.
Qed.

(** Reading the digits of [x] shifts what was read and adds [x]. *)
Lemma read_digits_pretty_go (x : N) :
  ∃ k, 0 ≤ k ∧ ∀ acc s,
    Spec.read_digits acc (pretty_N_go x s)
    = Spec.read_digits (acc * 10 ^ k + Z.of_N x) s.
Proof.
  induction (N.lt_wf_0 x) as [x _ IH].
  destruct (decide (x = 0)%N) as [-> | Hx].
  - exists 0. split; [lia |]. intros acc s. rewrite pretty_N_go_0.
    f_equal. lia.
  - destruct (IH (x `div` 10)%N) as (k & Hk & Hread); [apply N.div_lt; lia |].
    exists (k + 1). split; [lia |]. intros acc s.
    rewrite pretty_N_go_step, Hread by lia. simpl.
    rewrite digit_pretty_char by (apply N.mod_lt; lia).
    f_equal. rewrite Z.pow_add_r, Z.pow_1_r by lia.
    rewrite N2Z.inj_div, N2Z.inj_mod.
    pose proof (Z.div_mod (Z.of_N x) 10 ltac:(lia)). lia.
Qed.

Lemma pretty_N_char_digit (x : N) : is_Some (Spec.digit (pretty_N_char x)).
Proof. unfold pretty_N_char. repeat case_match; vm_compute; eauto. Qed.

(** The numeral of a positive number starts with a digit. *)
Lemma pretty_N_go_head (x : N) (s : string) :
  (0 < x)%N →
  ∃ c r, pretty_N_go x s = String c r ∧ is_Some (Spec.digit c).
Proof.
  revert s. induction (N.lt_wf_0 x) as [x _ IH]; intros s Hx.
  rewrite pretty_N_go_step by exact Hx.
  destruct (decide (x `div` 10 = 0)%N) as [-> | Hd].
  - rewrite pretty_N_go_0. eexists _, _. split; [reflexivity |].
    apply pretty_N_char_digit.
  - apply IH; [apply N.div_lt; lia | now apply N.neq_0_lt_0].
Qed.

Lemma digit_not_minus (c : ascii) :
  is_Some (Spec.digit c) → Spec.is_minus c = false.
Proof.
  destruct c as [[] [] [] [] [] [] [] []]; vm_compute; try reflexivity;
    intros [? ?]; discriminate.
Qed.

Lemma pretty_Zpos (p : positive) : pretty (Zpos p) = pretty_N_go (Npos p) "".
Proof. reflexivity. Qed.

Lemma pretty_Zneg (p : positive) :
  pretty (Zneg p) = String "-" (pretty_N_go (Npos p) "").
Proof. reflexivity. Qed.

Lemma read_digits_pretty_N (x : N) :
  Spec.read_digits 0 (pretty_N_go x "") = Some (Z.of_N x).
Proof.
  destruct (read_digits_pretty_go x) as (k & _ & H). rewrite H. simpl.
  f_equal.
Qed.

(** The numeral JavaScript prints for an integer denotes that integer. *)
Lemma read_integer_pretty (z : Z) : Spec.read_integer (pretty z) = Some z.
Proof.
  destruct z as [|p|p].
  - reflexivity.
  - rewrite pretty_Zpos.
    destruct (pretty_N_go_head (Npos p) "") as (c & r & E & Hc); [lia |].
    pose proof (read_digits_pretty_N (Npos p)) as Hr. rewrite E in *.
    unfold Spec.read_integer. now rewrite (digit_not_minus c Hc).
  - rewrite pretty_Zneg.
    destruct (pretty_N_go_head (Npos p) "") as (c & r & E & Hc); [lia |].
    pose proof (read_digits_pretty_N (Npos p)) as Hr. rewrite E in *.
    unfold Spec.read_integer.
    change (Spec.is_minus "-") with true. cbn iota. now rewrite Hr.
Qed.

Lemma span_numeral_end (tl : string) :
  Spec.clause_end tl → Spec.span_numeral tl = ("", tl).
Proof. intros [-> | [rest ->]]; reflexivity. Qed.

Lemma span_numeral_cons (c : ascii) (s num tl : string) :
  Spec.is_minus c = true ∨ is_Some (Spec.digit c) →
  Spec.span_numeral s = (num, tl) →
  Spec.span_numeral (String c s) = (String c num, tl).
Proof.
  intros Hc Hs. simpl. rewrite Hs.
  destruct Hc as [-> | Hc]; [reflexivity |].
  rewrite (bool_decide_eq_true_2 _ Hc). now rewrite orb_true_r.
Qed.

Lemma span_numeral_pretty_go (x : N) (s num tl : string) :
  Spec.span_numeral s = (num, tl) →
  Spec.span_numeral (pretty_N_go x s) = (pretty_N_go x num, tl).
Proof.
  revert s num. induction (N.lt_wf_0 x) as [x _ IH]; intros s num Hs.
  destruct (decide (x = 0)%N) as [-> | Hx]; [now rewrite !pretty_N_go_0 |].
  rewrite (pretty_N_go_step x s), (pretty_N_go_step x num) by lia.
  apply IH; [apply N.div_lt; lia |].
  apply span_numeral_cons; [right; apply pretty_N_char_digit | exact Hs].
Qed.

(** The numeral is read up to the end of its clause. *)
Lemma span_numeral_pretty (z : Z) (tl : string) :
  Spec.clause_end tl → Spec.span_numeral (pretty z ++ tl) = (pretty z, tl).
Proof.
  intros Htl. apply span_numeral_end in Htl. destruct z as [|p|p].
  - change (pretty 0) with "0". rewrite string_app_cons, string_app_nil_l.
    apply span_numeral_cons; [right; vm_compute; eauto | exact Htl].
  - rewrite pretty_Zpos, pretty_N_go_app, string_app_nil_l.
    now apply span_numeral_pretty_go.
  - rewrite pretty_Zneg, string_app_cons, pretty_N_go_app, string_app_nil_l.
    apply span_numeral_cons; [left; reflexivity |].
    now apply span_numeral_pretty_go.
Qed.

(** *** Clauses and conjunctions *)

Lemma read_equality_render (field v tl : string) :
  In field Spec.filterable → Spec.plain v = true →
  Spec.read_equality Spec.filterable
    ((field ++ " = " ++ dquote) ++ v ++ dquote ++ tl)
  = Some (Spec.Equals field v, tl).
Proof.
  intros Hin Hp. pose proof (read_quoted_plain v tl Hp) as Hq.
  pose proof (unescape_plain v Hp) as Hu.
  revert Hq. generalize (v ++ dquote ++ tl). intros body Hq.
  destruct Hin as [<- | [<- | [<- | [<- | []]]]];
    cbv -[Spec.read_quoted Spec.unescape]; rewrite Hq, Hu; reflexivity.
Qed.

Lemma read_clause_render (c : Spec.Clause) (tl : string) :
  Spec.readable c → Spec.clause_end tl →
  Spec.read_clause (Spec.render c ++ tl) = Some (c, tl).
Proof.
  destruct c as [field v | cutoff | e]; simpl; intros Hc Htl; [| | contradiction].
  - destruct Hc as [Hin Hp]. unfold Spec.read_clause.
    replace ((field ++ " = " ++ dquote ++ v ++ dquote) ++ tl)
      with ((field ++ " = " ++ dquote) ++ v ++ dquote ++ tl)
      by now rewrite !string_app_assoc.
    now rewrite read_equality_render.
  - pose proof (span_numeral_pretty cutoff tl Htl) as Hspan.
    pose proof (read_integer_pretty cutoff) as Hread.
    rewrite string_app_assoc.
    revert Hspan Hread. generalize (pretty cutoff ++ tl). intros text.
    generalize (pretty cutoff). intros numeral Hspan Hread.
    cbv -[Spec.span_numeral Spec.read_integer]. now rewrite Hspan, Hread.
Qed.

Lemma read_terms_last (fuel : nat) (text : string) (c : Spec.Clause) :
  Spec.read_clause text = Some (c, "") →
  Spec.read_terms (S fuel) text = Some [[c]].
Proof. intros H. simpl. now rewrite H. Qed.

Lemma read_terms_and (fuel : nat) (text rest : string) (c : Spec.Clause) :
  Spec.read_clause text = Some (c, " AND " ++ rest) →
  Spec.read_terms (S fuel) text
  = match Spec.read_terms fuel rest with
    | Some (first :: more) => Some ((c :: first) :: more)
    | _ => None
    end.
Proof.
  intros H. cbn [Spec.read_terms]. rewrite H.
  pose proof (strip_prefix_app " AND " rest) as Hp. revert Hp.
  change (" AND " ++ rest) with (String " " ("AND " ++ rest)).
  intros Hp. now rewrite Hp.
Qed.

(** A conjunction of readable clauses is read back as one alternative
    made of these clauses. *)
Lemma read_terms_conjunction (cs : list Spec.Clause) (fuel : nat) :
  cs ≠ [] → Forall Spec.readable cs → (length cs ≤ fuel)%nat →
  Spec.read_terms fuel (Spec.and_join (map Spec.render cs)) = Some [cs].
Proof.
  revert fuel. induction cs as [|c [|c' cs] IH]; intros fuel Hne Hall Hfuel;
    [congruence | |].
  - destruct fuel as [|fuel]; [simpl in Hfuel; lia |].
    apply read_terms_last. inversion Hall; subst.
    rewrite <- (string_app_nil_r (Spec.and_join _)).
    apply read_clause_render; [assumption | now left].
  - destruct fuel as [|fuel]; [simpl in Hfuel; lia |].
    inversion Hall as [|? ? Hc Hrest]; subst.
    change (map Spec.render (c :: c' :: cs))
      with (Spec.render c :: Spec.render c' :: map Spec.render cs).
    rewrite and_join_cons.
    erewrite read_terms_and.
    + change (Spec.render c' :: map Spec.render cs)
        with (map Spec.render (c' :: cs)).
      rewrite IH; [reflexivity | discriminate | assumption |].
      simpl in *. lia.
    + apply read_clause_render; [assumption |].
      right. now exists ("AND " ++ Spec.and_join (Spec.render c' :: map Spec.render cs)).
Qed.

Lemma and_join_length (parts : list string) :
  (length parts ≤ S (String.length (Spec.and_join parts)))%nat.
Proof.
  induction parts as [|p [|q rest] IH]; [simpl; lia.. |].
  rewrite and_join_cons, !string_length_app.
  change (String.length " AND ") with 5%nat.
  cbn [length] in *. lia.
Qed.

Lemma read_filter_conjunction (cs : list Spec.Clause) :
  cs ≠ [] → Forall Spec.readable cs →
  Spec.read_filter (Spec.and_join (map Spec.render cs)) = Some [cs].
Proof.
  intros Hne Hall. unfold Spec.read_filter.
  apply read_terms_conjunction; [assumption.. |].
  rewrite <- (length_map Spec.render cs). apply and_join_length.
Qed.

(** A search with the conjunction of readable clauses delivers the
    records that satisfy the clauses. *)
Lemma selects_conjunction (cs : list Spec.Clause) (r : Spec.LogRecord) :
  Forall Spec.readable cs →
  Spec.selects (Spec.conjunction cs) r ↔ Spec.satisfies Spec.no_extra r cs.
Proof.
  intros Hall. destruct cs as [|c cs].
  - simpl. split; [constructor | trivial].
  - unfold Spec.conjunction, Spec.selects.
    rewrite read_filter_conjunction by (assumption || discriminate).
    rewrite Exists_cons, Exists_nil. tauto.
Qed.

(** ** Conjunction and monotonicity *)

Lemma keeps_clauses (now : Z) (base wider : Mcp.FilterOpts) (c : Spec.Clause) :
  Spec.extends base wider →
  In c (Spec.clauses now (Spec.given_opts base)) →
  In c (Spec.clauses now (Spec.given_opts wider)).
Proof.
  intros (Hp & Hl & Ht & He & Hs & Hx). rewrite !clauses_elem. simpl.
  intros [H | [H | [H | [H | [H | H]]]]]; destruct H as (v & -> & Hv).
  - left. eauto.
  - right; left. eauto.
  - do 2 right; left. eauto.
  - do 3 right; left. eauto.
  - do 4 right; left. eauto.
  - do 5 right. eauto.
Qed.

Lemma plain_values_given (opts : Mcp.FilterOpts) :
  Spec.plain_values opts = true →
  ∀ field o v, In (field, o) (Spec.string_values opts) →
    Spec.given o = Some v → In field Spec.filterable ∧ Spec.plain v = true.
Proof.
  unfold Spec.plain_values, Spec.string_values. cbn [forallb snd].
  rewrite !andb_true_iff. intros (Hp & Hl & Ht & He & _) field o v Hin Hg.
  apply given_some in Hg as [-> _].
  destruct Hin as [E | [E | [E | [E | []]]]]; inversion E as [[Hf Ho]];
    rewrite Ho in *; (split; [simpl; auto | assumption]).
Qed.

Lemma readable_clauses (now : Z) (opts : Mcp.FilterOpts) :
  Spec.plain_values opts = true →
  Spec.given (Mcp.o_extraFilter opts) = None →
  Forall Spec.readable (Spec.clauses now (Spec.given_opts opts)).
Proof.
  intros Hp Hx. pose proof (plain_values_given opts Hp) as Hv.
  apply Forall_forall. intros c Hc. apply list_elem_of_In, clauses_elem in Hc.
  cbn [Spec.given_opts Mcp.o_project Mcp.o_level Mcp.o_traceId
       Mcp.o_environment Mcp.o_since Mcp.o_extraFilter] in Hc.
  unfold Spec.string_values in Hv.
  destruct Hc as [H | [H | [H | [H | [H | H]]]]]; destruct H as (v & -> & Hg).
  - apply (Hv "project" (Mcp.o_project opts)); simpl; auto.
  - apply (Hv "level" (Mcp.o_level opts)); simpl; auto.
  - apply (Hv "traceId" (Mcp.o_traceId opts)); simpl; auto.
  - apply (Hv "environment" (Mcp.o_environment opts)); simpl; auto.
  - exact I.
  - congruence.
Qed.

(** The filter of options whose values are plain, read by the engine,
    delivers the records that satisfy the clauses of the components that
    are given. *)
Lemma selects_buildFilter (now : Z) (opts : Mcp.FilterOpts) (r : Spec.LogRecord) :
  Spec.plain_values opts = true →
  Spec.given (Mcp.o_extraFilter opts) = None →
  Spec.selects (Mcp.buildFilter now opts) r
  ↔ Spec.satisfies Spec.no_extra r (Spec.clauses now (Spec.given_opts opts)).
Proof.
  intros Hp Hx. rewrite buildFilter_given.
  apply selects_conjunction. now apply readable_clauses.
Qed.

Lemma keeps_plain (base wider : option string) :
  Spec.keeps base wider →
  match wider with Some v => Spec.plain v | None => true end = true →
  match base with Some v => Spec.plain v | None => true end = true.
Proof.
  intros Hk Hw. destruct base as [v|]; [| reflexivity].
  destruct (String.eqb_spec v "") as [-> | Hne]; [reflexivity |].
  specialize (Hk v (proj2 (given_some (Some v) v) (conj eq_refl Hne))).
  apply given_some in Hk as [-> _]. exact Hw.
Qed.

Lemma extends_plain (base wider : Mcp.FilterOpts) :
  Spec.extends base wider → Spec.plain_values wider = true →
  Spec.plain_values base = true.
Proof.
  intros (Hp & Hl & Ht & He & _). unfold Spec.plain_values, Spec.string_values.
  cbn [forallb snd]. rewrite !andb_true_iff.
  intros (Wp & Wl & Wt & We & _).
  repeat split; eapply keeps_plain; eassumption.
Qed.

Lemma extends_no_extra (base wider : Mcp.FilterOpts) :
  Spec.extends base wider → Spec.given (Mcp.o_extraFilter wider) = None →
  Spec.given (Mcp.o_extraFilter base) = None.
Proof.
  intros (_ & _ & _ & _ & _ & Hx) Hw.
  destruct (Spec.given (Mcp.o_extraFilter base)) as [e|] eqn:E; [| reflexivity].
  specialize (Hx e E). congruence.
Qed.

(** C6 (amended). Within the range in which JavaScript numbers are
    exact, the filter is the conjunction, joined with AND, of the clauses
    of the components that are given, that is defined and not empty, and
    there is no filter when none is; and when the string values are free
    of double quotes and backslashes, every record the engine delivers
    for the filter of options that keep every given component of [opts]
    is delivered for the filter of [opts]. *)
Theorem buildFilter_conjunction_monotone (now : Z) (opts : Mcp.FilterOpts) :
  Spec.exact_cutoff now (Mcp.o_since opts) →
  Mcp.buildFilter now opts
  = Spec.conjunction (Spec.clauses now (Spec.given_opts opts))
  ∧ ∀ (wider : Mcp.FilterOpts) (r : Spec.LogRecord),
      Spec.exact_cutoff now (Mcp.o_since wider) →
      Spec.extends opts wider →
      Spec.plain_values wider = true →
      Spec.given (Mcp.o_extraFilter wider) = None →
      Spec.selects (Mcp.buildFilter now wider) r →
      Spec.selects (Mcp.buildFilter now opts) r.
Proof.
  intros _. split; [apply buildFilter_given |].
  intros wider r _ Hext Hplain Hx.
  rewrite !selects_buildFilter
    by eauto using extends_plain, extends_no_extra.
  unfold Spec.satisfies. rewrite !Forall_forall. intros Hall c Hc.
  apply Hall. apply list_elem_of_In. apply list_elem_of_In in Hc.
  eapply keeps_clauses; eauto.
Qed.

(** The errors of the project api of the last five minutes are among
    the logs of the project api. *)
Lemma buildFilter_conjunction_monotone_witness :
  Mcp.buildFilter 1767225700000 (Sample.project_only "api")
  = Some ("project = " ++ dquote ++ "api" ++ dquote)
  ∧ Mcp.buildFilter 1767225700000 Sample.recent_api_errors
    = Some ("project = " ++ dquote ++ "api" ++ dquote ++ " AND level = "
            ++ dquote ++ "error" ++ dquote
            ++ " AND timestampMs > 1767225400000")
  ∧ Spec.selects (Mcp.buildFilter 1767225700000 Sample.recent_api_errors)
      Sample.api_error
  ∧ Spec.selects (Mcp.buildFilter 1767225700000 (Sample.project_only "api"))
      Sample.api_error.
Proof.
  assert (Hnow : 0 ≤ 1767225700000 ≤ Spec.max_safe) by (unfold Spec.max_safe; lia).
  assert (Hbase : Spec.exact_cutoff 1767225700000
                    (Mcp.o_since (Sample.project_only "api")))
    by (split; [exact Hnow | exact I]).
  assert (Hwide : Spec.exact_cutoff 1767225700000
                    (Mcp.o_since Sample.recent_api_errors))
    by (split; [exact Hnow | vm_compute; discriminate]).
  assert (Hext : Spec.extends (Sample.project_only "api") Sample.recent_api_errors)
    by (repeat split; intros v Hv; try discriminate Hv; exact Hv).
  assert (Hsel : Spec.selects (Mcp.buildFilter 1767225700000 Sample.recent_api_errors)
                   Sample.api_error).
  { apply selects_buildFilter; [reflexivity.. |].
    repeat constructor. }
  pose proof (buildFilter_conjunction_monotone 1767225700000
                (Sample.project_only "api") Hbase) as [Hfilter Hmono].
  split; [exact Hfilter |]. split; [reflexivity |]. split; [exact Hsel |].
  exact (Hmono Sample.recent_api_errors Sample.api_error Hwide Hext eq_refl
           eq_refl Hsel).
Defined.

(** C6, as stated, fails twice. A component that is present and empty
    has no clause in the filter. And a project with a double quote in it
    makes the wider filter an alternative: it delivers a debug line of
    the project x, which the filter on the level info alone does not. *)
Lemma buildFilter_not_conjunctive :
  (Mcp.buildFilter 0 (Sample.project_only "") = None
   ∧ Spec.conjunction (Spec.clauses 0 (Sample.project_only ""))
     = Some ("project = " ++ dquote ++ dquote))
  ∧ Spec.extends (Sample.level_only "info")
      (Sample.project_and_level Sample.quoting_value "info")
  ∧ Mcp.buildFilter 0 (Sample.project_and_level Sample.quoting_value "info")
    = Some ("project = " ++ dquote ++ "x" ++ dquote ++ " OR level = "
            ++ dquote ++ "error" ++ dquote ++ " AND level = "
            ++ dquote ++ "info" ++ dquote)
  ∧ Spec.selects
      (Mcp.buildFilter 0 (Sample.project_and_level Sample.quoting_value "info"))
      Sample.x_debug
  ∧ ¬ Spec.selects (Mcp.buildFilter 0 (Sample.level_only "info")) Sample.x_debug.
Proof.
  split; [split; reflexivity |]. split; [| split; [reflexivity | split]].
  - repeat split; intros v Hv; try discriminate Hv; exact Hv.
  - change (Exists (Spec.satisfies Spec.no_extra Sample.x_debug)
              [[Spec.Equals "project" "x"];
               [Spec.Equals "level" "error"; Spec.Equals "level" "info"]]).
    apply Exists_cons_hd. repeat constructor.
  - change (¬ Exists (Spec.satisfies Spec.no_extra Sample.x_debug)
                [[Spec.Equals "level" "info"]]).
    rewrite Exists_cons, Exists_nil. intros [H | []].
    inversion H as [|? ? Hc _]; subst. discriminate Hc.
Qed.

Example buildFilter_two_components :
  Mcp.buildFilter 10000000
    {| Mcp.o_project := Some "api"; Mcp.o_level := Some "error";
       Mcp.o_traceId := None; Mcp.o_environment := None;
       Mcp.o_since := Some "1h"; Mcp.o_extraFilter := None |}
  = Some ("project = " ++ dquote ++ "api" ++ dquote ++ " AND level = "
          ++ dquote ++ "error" ++ dquote ++ " AND timestampMs > 6400000").
Proof. vm_compute. reflexivity. Qed.

(** ** Quoting of values *)

Lemma string_value_clause (now : Z) (opts : Mcp.FilterOpts) (field v : string) :
  In (field, Some v) (Spec.string_values opts) → v ≠ "" →
  In (Spec.Equals field v) (Spec.clauses now (Spec.given_opts opts)).
Proof.
  intros Hin Hne. apply clauses_elem. simpl.
  assert (Hg : Spec.given (Some v) = Some v)
    by (apply given_some; now split).
  unfold Spec.string_values in Hin. simpl in Hin.
  destruct Hin as [E | [E | [E | [E | []]]]]; inversion E as [[Hf Hv]];
    rewrite Hv, Hg.
  - left. eauto.
  - right; left. eauto.
  - do 2 right; left. eauto.
  - do 3 right; left. eauto.
Qed.

(** C1 (amended). Whatever characters it holds, a string value of the
    options (project, level, traceId, environment) that is not empty is
    one of the parts of the filter of [buildFilter], as it is between two
    double quotes, and so is the trace id in the filter of the trace
    query: nothing is escaped. A value with no double quote and no
    backslash stays inside the quoted string. A value with a double
    quote, after a prefix that has no double quote and no backslash,
    closes the quoted string at that double quote: the rest of the value,
    and the closing quote, are left to be read as filter syntax. *)
Theorem values_are_not_escaped (field : string) :
  (∀ now opts v,
     In (field, Some v) (Spec.string_values opts) → v ≠ "" →
     ∃ before after,
       Mcp.filter_parts now opts
       = (before ++ [(field ++ " = " ++ dquote ++ v ++ dquote)%string]
          ++ after)%list
       ∧ Mcp.buildFilter now opts
         = Some (Spec.and_join
                   (before
                    ++ [(field ++ " = " ++ dquote ++ v ++ dquote)%string]
                    ++ after)%list))
  ∧ (∀ args v, Mcp.a_traceId args = Some v →
       Mcp.p_filter (snd (Mcp.get_trace_call args))
       = Some ("traceId = " ++ dquote ++ v ++ dquote))
  ∧ (∀ v, Spec.plain v = true →
       Spec.after_value field (field ++ " = " ++ dquote ++ v ++ dquote)
       = Some "")
  ∧ (∀ a b, Spec.plain a = true →
       Spec.after_value field
         (field ++ " = " ++ dquote ++ (a ++ dquote ++ b) ++ dquote)
       = Some (b ++ dquote)).
Proof.
  split; [| split; [| split]].
  - intros now opts v Hin Hne.
    pose proof (string_value_clause now opts field v Hin Hne) as Hc.
    apply (in_map Spec.render) in Hc. rewrite <- filter_parts_clauses in Hc.
    apply in_split in Hc as (before & after & Hparts).
    exists before, after. split; [exact Hparts |].
    unfold Mcp.buildFilter. rewrite Hparts, join_and_join.
    now destruct before.
  - intros args v Hargs. unfold Mcp.get_trace_call. cbn [snd Mcp.p_filter].
    now rewrite Hargs.
  - apply after_value_plain.
  - intros a b Ha. now apply after_value_quote.
Qed.

(** The project api, and a project that carries a double quote. *)
Lemma values_are_not_escaped_witness :
  Mcp.buildFilter 0 (Sample.project_only Sample.quoting_value)
  = Some ("project = " ++ dquote ++ "x" ++ dquote ++ " OR level = " ++ dquote
          ++ "error" ++ dquote)
  ∧ Spec.after_value "project" ("project = " ++ dquote ++ "api" ++ dquote)
    = Some ""
  ∧ Spec.after_value "project"
      ("project = " ++ dquote ++ Sample.quoting_value ++ dquote)
    = Some (" OR level = " ++ dquote ++ "error" ++ dquote).
Proof.
  destruct (values_are_not_escaped "project") as (Hparts & _ & Hplain & Hquote).
  split; [| split].
  - destruct (Hparts 0 (Sample.project_only Sample.quoting_value)
                Sample.quoting_value) as (before & after & _ & Hfilter);
      [simpl; auto | discriminate |].
    reflexivity.
  - exact (Hplain "api" eq_refl).
  - exact (Hquote "x" (" OR level = " ++ dquote ++ "error") eq_refl).
Defined.

(** C1, as stated, fails: the value is not escaped, and a double quote
    in it closes the quoted string, which leaves the rest of the value to
    be read as filter syntax. *)
Lemma quote_in_value_closes_string :
  Mcp.buildFilter 0 (Sample.project_only Sample.quoting_value)
  = Some ("project = " ++ dquote ++ Sample.quoting_value ++ dquote)
  ∧ Spec.after_value "project"
      ("project = " ++ dquote ++ Sample.quoting_value ++ dquote)
    = Some (" OR level = " ++ dquote ++ "error" ++ dquote)
  ∧ Mcp.p_filter (snd (Mcp.get_trace_call (Sample.trace_args Sample.quoting_value)))
    = Some ("traceId = " ++ dquote ++ Sample.quoting_value ++ dquote)
  ∧ Spec.after_value "traceId"
      ("traceId = " ++ dquote ++ Sample.quoting_value ++ dquote)
    ≠ Some "".
Proof. repeat split. discriminate. Qed.

(** ** search_logs: the limit and the order *)

Lemma tools_call_search_logs (engine : Mcp.Engine) (now : Z) (args : Mcp.Args) :
  Mcp.tools_call engine now {| Mcp.name := "search_logs"; Mcp.arguments := Some args |}
  = match Mcp.search engine (Mcp.search_logs_call now args) with
    | Mcp.Return results => Spec.answer (Mcp.search_logs_shape results)
    | Mcp.Throw err => Spec.caught err
    end.
Proof.
  unfold Mcp.tools_call, Mcp.dispatch. cbn.
  destruct (Mcp.search engine (Mcp.search_logs_call now args)) as [results | err];
    [reflexivity | now destruct err].
Qed.

(** C2 (amended). The limit of a search is the requested limit capped at
    100, with no lower bound: it is 20 when no limit or a limit of 0 is
    requested, the requested limit clamped to [1, 100] when that is at
    least 1, and a negative limit is passed on as it is. The search is
    sorted by time stamp, latest first, and its answer is what the engine
    returns for these parameters. *)
Theorem search_logs_limit_and_sort (engine : Mcp.Engine) (now : Z)
    (args : Mcp.Args) :
  let call := Mcp.search_logs_call now args in
  let req := {| Mcp.name := "search_logs"; Mcp.arguments := Some args |} in
  Mcp.p_sort (snd call) = Some ["timestamp:desc"]
  ∧ match Mcp.a_limit args with
    | None => Mcp.p_limit (snd call) = Some 20
    | Some n =>
        (1 ≤ n → Mcp.p_limit (snd call) = Some (Spec.clamp 1 100 n))
        ∧ (n = 0 → Mcp.p_limit (snd call) = Some 20)
        ∧ (n < 0 → Mcp.p_limit (snd call) = Some n)
    end
  ∧ match engine (fst call) (snd call) with
    | Mcp.Return results =>
        Mcp.tools_call engine now req
        = Spec.answer
            (Mcp.SearchLogs (Mcp.estimatedTotalHits results)
               (Mcp.facetDistribution results) (Mcp.hits results))
    | Mcp.Throw err => Mcp.tools_call engine now req = Spec.caught err
    end.
Proof.
  cbv zeta. split; [reflexivity | split].
  - unfold Mcp.search_logs_call. cbn [snd Mcp.p_limit].
    destruct (Mcp.a_limit args) as [n|]; [| reflexivity].
    unfold Js.num_or, Spec.clamp.
    destruct (Z.eqb_spec n 0) as [-> | Hn]; repeat split; intros; f_equal; lia.
  - rewrite tools_call_search_logs. unfold Mcp.search.
    now destruct (engine _ _).
Qed.

(** C2, as stated, fails below 1: a requested limit of 0 becomes 20 and a
    negative one is passed on, where clamping to [1, 100] gives 1. *)
Lemma search_logs_limit_below_one :
  Mcp.p_limit (snd (Mcp.search_logs_call 0 (Sample.limit_args 0))) = Some 20
  ∧ Spec.clamp 1 100 0 = 1
  ∧ Mcp.p_limit (snd (Mcp.search_logs_call 0 (Sample.limit_args (-5)))) = Some (-5)
  ∧ Spec.clamp 1 100 (-5) = 1
  ∧ Mcp.p_limit (snd (Mcp.search_logs_call 0 (Sample.limit_args (-5))))
    ≠ Some (Spec.clamp 1 100 (-5)).
Proof. repeat split. discriminate. Qed.

Example search_logs_limits :
  map (λ limit, Mcp.p_limit (snd (Mcp.search_logs_call 0 (Sample.limit_args limit))))
    [1; 50; 100; 101; 5000]
  = [Some 1; Some 50; Some 100; Some 100; Some 100]
  ∧ Mcp.p_limit (snd (Mcp.search_logs_call 0 Sample.no_args)) = Some 20.
Proof. split; reflexivity. Qed.

(** ** The distinct values of a list *)

Section Unique.

Context {A : Type} `{EqDecision A}.

Lemma set_add_elem (seen : list A) (x y : A) :
  y ∈ Js.set_add seen x ↔ y ∈ seen ∨ y = x.
Proof.
  unfold Js.set_add. destruct (decide (x ∈ seen)) as [Hx | Hx].
  - split; [tauto | intros [H | ->]; assumption].
  - rewrite elem_of_app, list_elem_of_singleton. tauto.
Qed.

Lemma set_add_NoDup (seen : list A) (x : A) :
  NoDup seen → NoDup (Js.set_add seen x).
Proof.
  intros Hnd. unfold Js.set_add. destruct (decide (x ∈ seen)) as [Hx | Hx]; [exact Hnd |].
  apply NoDup_app. repeat split; [exact Hnd | | apply NoDup_singleton].
  intros y Hy Hy'. apply list_elem_of_singleton in Hy'. now subst.
Qed.

Lemma fold_set_add_elem (xs seen : list A) (y : A) :
  y ∈ fold_left Js.set_add xs seen ↔ y ∈ seen ∨ y ∈ xs.
Proof.
  revert seen. induction xs as [|x xs IH]; intros seen; simpl.
  - rewrite elem_of_nil. tauto.
  - rewrite IH, set_add_elem, elem_of_cons. tauto.
Qed.

Lemma fold_set_add_NoDup (xs seen : list A) :
  NoDup seen → NoDup (fold_left Js.set_add xs seen).
Proof.
  revert seen. induction xs as [|x xs IH]; intros seen Hnd; simpl; [exact Hnd |].
  apply IH, set_add_NoDup, Hnd.
Qed.

Lemma unique_elem (xs : list A) (y : A) : y ∈ Js.unique xs ↔ y ∈ xs.
Proof. unfold Js.unique. rewrite fold_set_add_elem, elem_of_nil. tauto. Qed.

Lemma unique_NoDup (xs : list A) : NoDup (Js.unique xs).
Proof. apply fold_set_add_NoDup, NoDup_nil_2. Qed.

End Unique.

Section FirstOccurrences.

Context {A : Type} `{EqDecision A}.

Lemma filter_all (P : A → Prop) `{∀ x, Decision (P x)} (l : list A) :
  (∀ x, P x) → filter P l = l.
Proof.
  intros HP. induction l as [|x l IH]; [reflexivity |].
  now rewrite filter_cons_True, IH.
Qed.

(** The fold over the values seen so far keeps them and adds, in order,
    the first occurrences of the values it has not seen. *)
Lemma fold_set_add_first (xs seen : list A) :
  fold_left Js.set_add xs seen
  = (seen ++ filter (λ y, y ∉ seen) (Spec.first_occurrences xs))%list.
Proof.
  revert seen. induction xs as [|x xs IH]; intros seen; simpl.
  - now rewrite app_nil_r.
  - rewrite IH. unfold Js.set_add. destruct (decide (x ∈ seen)) as [Hx | Hx].
    + rewrite filter_cons_False by tauto. f_equal.
      rewrite list_filter_filter. apply list_filter_iff.
      intros y. split; [| tauto]. intros Hy. split; [exact Hy |].
      intros ->. contradiction.
    + rewrite filter_cons_True by exact Hx. rewrite <- app_assoc. simpl.
      do 2 f_equal. rewrite list_filter_filter. apply list_filter_iff.
      intros y. rewrite elem_of_app, list_elem_of_singleton. tauto.
Qed.

Lemma unique_first_occurrences (xs : list A) :
  Js.unique xs = Spec.first_occurrences xs.
Proof.
  unfold Js.unique. rewrite fold_set_add_first. simpl.
  apply filter_all. intros x. apply not_elem_of_nil.
Qed.

End FirstOccurrences.


Section FirstOccurrencesFacts.

Context {A : Type} `{EqDecision A}.

Lemma first_occurrences_NoDup (xs : list A) : NoDup (Spec.first_occurrences xs).
Proof. rewrite <- unique_first_occurrences. apply unique_NoDup. Qed.

Lemma first_occurrences_elem (xs : list A) (y : A) :
  y ∈ Spec.first_occurrences xs ↔ y ∈ xs.
Proof. rewrite <- unique_first_occurrences. apply unique_elem. Qed.

End FirstOccurrencesFacts.

(** ** The handler *)

Lemma tools_call_get_trace (engine : Mcp.Engine) (now : Z) (args : Mcp.Args) :
  Mcp.tools_call engine now {| Mcp.name := "get_trace"; Mcp.arguments := Some args |}
  = match Mcp.search engine (Mcp.get_trace_call args) with
    | Mcp.Return results => Spec.answer (Mcp.get_trace_shape args results)
    | Mcp.Throw err => Spec.caught err
    end.
Proof.
  unfold Mcp.tools_call, Mcp.dispatch. cbn.
  destruct (Mcp.search engine (Mcp.get_trace_call args)) as [results | err];
    [reflexivity | now destruct err].
Qed.

(** C4. A trace query for the id [T] asks the engine for the records
    whose traceId equals [T], sorted by time stamp ascending, at most
    500; the answer to what the engine returns for this search carries
    the id, the number of the hits, their projects without repetition,
    in the order in which they first occur, and the time line made of
    seven attributes of each hit. *)
Theorem get_trace_contract (engine : Mcp.Engine) (now : Z) (args : Mcp.Args)
    (T : string) :
  Mcp.a_traceId args = Some T →
  let params :=
    {| Mcp.p_filter := Some ("traceId = " ++ dquote ++ T ++ dquote);
       Mcp.p_sort := Some ["timestamp:asc"];
       Mcp.p_limit := Some 500;
       Mcp.p_facets := None;
       Mcp.p_attributesToRetrieve := None |} in
  let req := {| Mcp.name := "get_trace"; Mcp.arguments := Some args |} in
  Mcp.get_trace_call args = (Some "", params)
  ∧ match engine (Some "") params with
    | Mcp.Return results =>
        let projects := Spec.first_occurrences (map Mcp.h_project (Mcp.hits results)) in
        Mcp.tools_call engine now req
        = Mcp.Return
            {| Mcp.content :=
                 Mcp.Json
                   (Mcp.Trace
                      {| Mcp.traceId := Some T;
                         Mcp.eventCount := length (Mcp.hits results);
                         Mcp.projects := projects;
                         Mcp.timeline :=
                           map (λ h,
                                  {| Mcp.tl_timestamp := Mcp.h_timestamp h;
                                     Mcp.tl_project := Mcp.h_project h;
                                     Mcp.tl_level := Mcp.h_level h;
                                     Mcp.tl_message := Mcp.h_message h;
                                     Mcp.tl_spanId := Mcp.h_spanId h;
                                     Mcp.tl_parentSpanId := Mcp.h_parentSpanId h;
                                     Mcp.tl_source := Mcp.h_source h |})
                             (Mcp.hits results) |});
               Mcp.isError := false |}
        ∧ NoDup projects
        ∧ (∀ p, p ∈ projects ↔ p ∈ map Mcp.h_project (Mcp.hits results))
    | Mcp.Throw err => Mcp.tools_call engine now req = Spec.caught err
    end.
Proof.
  intros HT. cbv zeta.
  assert (Hcall : Mcp.get_trace_call args
    = (Some "",
       {| Mcp.p_filter := Some ("traceId = " ++ dquote ++ T ++ dquote);
          Mcp.p_sort := Some ["timestamp:asc"]; Mcp.p_limit := Some 500;
          Mcp.p_facets := None; Mcp.p_attributesToRetrieve := None |})).
  { unfold Mcp.get_trace_call. now rewrite HT. }
  split; [exact Hcall |].
  rewrite tools_call_get_trace. unfold Mcp.search. rewrite Hcall. cbn [fst snd].
  match goal with |- context [engine ?q ?p] => destruct (engine q p) as [results | err] end;
    [| reflexivity].
  split; [| split; [apply first_occurrences_NoDup | apply first_occurrences_elem]].
  unfold Spec.answer, Mcp.get_trace_shape.
  rewrite unique_first_occurrences, HT. reflexivity.
Qed.

(** The trace T of three events of two services: the fourth scenario of
    the specification. *)
Lemma get_trace_contract_witness :
  Mcp.tools_call Sample.three_events 0
    {| Mcp.name := "get_trace"; Mcp.arguments := Some (Sample.trace_args "T") |}
  = Mcp.Return
      {| Mcp.content :=
           Mcp.Json
             (Mcp.Trace
                {| Mcp.traceId := Some "T";
                   Mcp.eventCount := 3;
                   Mcp.projects := [Some "svcA"; Some "svcB"];
                   Mcp.timeline :=
                     map Mcp.timeline_event
                       [Sample.hit "svcA" "a"; Sample.hit "svcB" "b";
                        Sample.hit "svcA" "c"] |});
         Mcp.isError := false |}.
Proof.
  exact (proj1 (proj2 (get_trace_contract Sample.three_events 0
                         (Sample.trace_args "T") "T" eq_refl))).
Defined.

Lemma str_or_given (o : option string) (d : string) :
  Js.str_or o d = match Spec.given o with Some v => v | None => d end.
Proof.
  now destruct o as [[|c v]|].
Qed.

Lemma tools_call_error_summary (engine : Mcp.Engine) (now : Z) (args : Mcp.Args) :
  Mcp.tools_call engine now
    {| Mcp.name := "error_summary"; Mcp.arguments := Some args |}
  = match Mcp.search engine (Mcp.error_summary_call now args) with
    | Mcp.Return results => Spec.answer (Mcp.error_summary_shape results)
    | Mcp.Throw err => Spec.caught err
    end.
Proof.
  unfold Mcp.tools_call, Mcp.dispatch. cbn.
  destruct (Mcp.search engine (Mcp.error_summary_call now args)) as [results | err];
    [reflexivity | now destruct err].
Qed.

(** The filter of the error summary: the project when it is given, the
    range of [since], which is one hour when none is given, and the
    disjunction. *)
Lemma error_summary_filter (now : Z) (args : Mcp.Args) :
  Mcp.p_filter (snd (Mcp.error_summary_call now args))
  = Some (Spec.and_join
            (map Spec.render
               (Spec.equality "project" (Spec.given (Mcp.a_project args)))
             ++ ["timestampMs > "
                 ++ pretty (now - match Spec.given (Mcp.a_since args) with
                                  | Some s => Spec.duration_ms s
                                  | None => 3600000
                                  end);
                 "(level = " ++ dquote ++ "error" ++ dquote
                 ++ " OR level = " ++ dquote ++ "fatal" ++ dquote ++ ")"])).
Proof.
  unfold Mcp.error_summary_call. cbn [snd Mcp.p_filter].
  rewrite buildFilter_given. unfold Spec.clauses, Spec.given_opts.
  cbn [Mcp.o_project Mcp.o_level Mcp.o_traceId Mcp.o_environment Mcp.o_since
       Mcp.o_extraFilter].
  rewrite (str_or_given (Mcp.a_since args) "1h").
  assert (Hsince :
    Spec.given (Some match Spec.given (Mcp.a_since args) with
                     | Some v => v
                     | None => "1h"
                     end)
    = Some match Spec.given (Mcp.a_since args) with
           | Some v => v
           | None => "1h"
           end).
  { destruct (Spec.given (Mcp.a_since args)) as [s|] eqn:Hs; [| reflexivity].
    apply given_some in Hs as [_ Hne]. apply given_some. now split. }
  rewrite Hsince. change (Spec.given None) with (@None string).
  change (Spec.given (Some Mcp.errors_filter)) with (Some Mcp.errors_filter).
  cbn [Spec.equality app].
  destruct (Spec.given (Mcp.a_since args)) as [s|];
    destruct (Spec.given (Mcp.a_project args)) as [p|]; reflexivity.
Qed.

(** C5. Within the range in which JavaScript numbers are exact, the
    error summary searches the text of the query, or the empty string,
    with the filter made of the project clause, when a project is given,
    the range clause of [since], which is one hour when no [since] is
    given, and the bracketed disjunction level is error or level is
    fatal, joined with AND; it asks for the facet project only, at most
    30 hits, latest first; the answer to what the engine returns for this
    search carries totalErrors, byProject and recentErrors, six
    attributes of each hit. *)
Theorem error_summary_contract (engine : Mcp.Engine) (now : Z) (args : Mcp.Args) :
  Spec.exact_cutoff now (Spec.given (Mcp.a_since args)) →
  let duration :=
    match Spec.given (Mcp.a_since args) with
    | Some s => Spec.duration_ms s
    | None => 3600000
    end in
  let query :=
    match Spec.given (Mcp.a_query args) with
    | Some q => q
    | None => ""
    end in
  let params :=
    {| Mcp.p_filter :=
         Some (Spec.and_join
                 (map Spec.render
                    (Spec.equality "project" (Spec.given (Mcp.a_project args)))
                  ++ ["timestampMs > " ++ pretty (now - duration);
                      "(level = " ++ dquote ++ "error" ++ dquote
                      ++ " OR level = " ++ dquote ++ "fatal" ++ dquote
                      ++ ")"]));
       Mcp.p_sort := Some ["timestamp:desc"];
       Mcp.p_limit := Some 30;
       Mcp.p_facets := Some ["project"];
       Mcp.p_attributesToRetrieve := None |} in
  let req := {| Mcp.name := "error_summary"; Mcp.arguments := Some args |} in
  Mcp.error_summary_call now args = (Some query, params)
  ∧ match engine (Some query) params with
    | Mcp.Return results =>
        Mcp.tools_call engine now req
        = Mcp.Return
            {| Mcp.content :=
                 Mcp.Json
                   (Mcp.ErrorSummary
                      {| Mcp.totalErrors := Mcp.estimatedTotalHits results;
                         Mcp.errorsByProject :=
                           Mcp.facetDistribution results ≫= λ fd, fd !! "project";
                         Mcp.recentErrors :=
                           map (λ h,
                                  {| Mcp.er_timestamp := Mcp.h_timestamp h;
                                     Mcp.er_project := Mcp.h_project h;
                                     Mcp.er_message := Mcp.h_message h;
                                     Mcp.er_source := Mcp.h_source h;
                                     Mcp.er_traceId := Mcp.h_traceId h;
                                     Mcp.er_meta := Mcp.h_meta h |})
                             (Mcp.hits results) |});
               Mcp.isError := false |}
    | Mcp.Throw err => Mcp.tools_call engine now req = Spec.caught err
    end.
Proof.
  intros _. cbv zeta.
  match goal with |- _ = (?q, ?p) ∧ _ =>
    assert (Hcall : Mcp.error_summary_call now args = (q, p))
  end.
  { pose proof (error_summary_filter now args) as Hf.
    unfold Mcp.error_summary_call in *. cbn [snd Mcp.p_filter] in Hf.
    rewrite Hf, str_or_given. reflexivity. }
  split; [exact Hcall |].
  rewrite tools_call_error_summary. unfold Mcp.search. rewrite Hcall. cbn [fst snd].
  match goal with |- context [engine ?q ?p] => destruct (engine q p) as [results | err] end;
    reflexivity.
Qed.

(** The errors of every project, with no [since], at the ten millionth
    millisecond: the cutoff is one hour earlier. *)
Lemma error_summary_contract_witness :
  Mcp.error_summary_call 10000000 Sample.no_args
  = (Some "",
     {| Mcp.p_filter :=
          Some ("timestampMs > 6400000 AND (level = " ++ dquote ++ "error"
                ++ dquote ++ " OR level = " ++ dquote ++ "fatal"
                ++ dquote ++ ")");
        Mcp.p_sort := Some ["timestamp:desc"];
        Mcp.p_limit := Some 30;
        Mcp.p_facets := Some ["project"];
        Mcp.p_attributesToRetrieve := None |}).
Proof.
  assert (Hrange : Spec.exact_cutoff 10000000 (Spec.given (Mcp.a_since Sample.no_args)))
    by (split; [unfold Spec.max_safe; lia | exact I]).
  exact (proj1 (error_summary_contract Sample.three_events 10000000 Sample.no_args
                  Hrange)).
Defined.

Lemma tools_call_list_projects (engine : Mcp.Engine) (now : Z)
    (args : option Mcp.Args) :
  Mcp.tools_call engine now {| Mcp.name := "list_projects"; Mcp.arguments := args |}
  = match Mcp.search engine Mcp.list_projects_call with
    | Mcp.Return results => Spec.answer (Mcp.list_projects_shape results)
    | Mcp.Throw err => Spec.caught err
    end.
Proof.
  unfold Mcp.tools_call, Mcp.dispatch. cbn.
  destruct (Mcp.search engine Mcp.list_projects_call) as [results | err];
    [reflexivity | now destruct err].
Qed.

(** C7. The overview of projects searches the empty string with limit 0
    and the facets project, level and environment, and nothing else; the
    answer to what the engine returns for this search is totalLogs and
    the distributions of the three facets. *)
Theorem list_projects_contract (engine : Mcp.Engine) (now : Z)
    (args : option Mcp.Args) :
  let params :=
    {| Mcp.p_filter := None;
       Mcp.p_sort := None;
       Mcp.p_limit := Some 0;
       Mcp.p_facets := Some ["project"; "level"; "environment"];
       Mcp.p_attributesToRetrieve := None |} in
  let req := {| Mcp.name := "list_projects"; Mcp.arguments := args |} in
  match engine (Some "") params with
  | Mcp.Return results =>
      Mcp.tools_call engine now req
      = Mcp.Return
          {| Mcp.content :=
               Mcp.Json
                 (Mcp.Projects
                    {| Mcp.totalLogs := Mcp.estimatedTotalHits results;
                       Mcp.byProject :=
                         Mcp.facetDistribution results ≫= λ fd, fd !! "project";
                       Mcp.byLevel :=
                         Mcp.facetDistribution results ≫= λ fd, fd !! "level";
                       Mcp.byEnvironment :=
                         Mcp.facetDistribution results
                         ≫= λ fd, fd !! "environment" |});
             Mcp.isError := false |}
  | Mcp.Throw err => Mcp.tools_call engine now req = Spec.caught err
  end.
Proof.
  cbv zeta. rewrite tools_call_list_projects. unfold Mcp.search.
  change Mcp.list_projects_call
    with (Some "",
          {| Mcp.p_filter := None; Mcp.p_sort := None; Mcp.p_limit := Some 0;
             Mcp.p_facets := Some ["project"; "level"; "environment"];
             Mcp.p_attributesToRetrieve := None |}).
  cbn [fst snd].
  match goal with |- context [engine ?q ?p] => destruct (engine q p) as [results | err] end;
    reflexivity.
Qed.

(** ** Errors *)

Lemma name_not_tool (name : string) :
  ¬ In name Spec.tool_names →
  String.eqb name "search_logs" = false ∧ String.eqb name "get_trace" = false
  ∧ String.eqb name "tail_logs" = false ∧ String.eqb name "list_projects" = false
  ∧ String.eqb name "error_summary" = false ∧ String.eqb name "find_similar" = false.
Proof.
  unfold Spec.tool_names. simpl. intros H.
  repeat split; apply String.eqb_neq; intros ->; apply H; tauto.
Qed.

Lemma dispatch_unknown (engine : Mcp.Engine) (now : Z) (req : Mcp.Request) :
  ¬ In (Mcp.name req) Spec.tool_names →
  Mcp.dispatch engine now req = Mcp.Return (Spec.unknown_tool (Mcp.name req)).
Proof.
  intros H. apply name_not_tool in H as (H1 & H2 & H3 & H4 & H5 & H6).
  unfold Mcp.dispatch. cbv zeta. now rewrite H1, H2, H3, H4, H5, H6.
Qed.

Lemma tools_call_unknown (engine : Mcp.Engine) (now : Z) (req : Mcp.Request) :
  ¬ In (Mcp.name req) Spec.tool_names →
  Mcp.tools_call engine now req = Mcp.Return (Spec.unknown_tool (Mcp.name req)).
Proof. intros H. unfold Mcp.tools_call. now rewrite dispatch_unknown. Qed.

(** What [catch] makes of a thrown value. *)
Lemma tools_call_throw (engine : Mcp.Engine) (now : Z) (req : Mcp.Request)
    (err : Mcp.exn) :
  Mcp.dispatch engine now req = Mcp.Throw err →
  Mcp.tools_call engine now req = Spec.caught err.
Proof. intros H. unfold Mcp.tools_call. rewrite H. now destruct err. Qed.

(** A tool that makes a search answers what the engine returns for it,
    or meets what the engine throws. *)
Lemma dispatch_call_of (engine : Mcp.Engine) (now : Z) (req : Mcp.Request)
    (call : option string * Mcp.SearchParams) :
  Spec.call_of now req = Some call →
  ∃ shape : Mcp.SearchResponse → Mcp.Payload,
    Mcp.dispatch engine now req
    = match engine (fst call) (snd call) with
      | Mcp.Return results => Mcp.Return (Mcp.success (shape results))
      | Mcp.Throw err => Mcp.Throw err
      end.
Proof.
  destruct req as [name arguments]. unfold Spec.call_of, Mcp.dispatch.
  cbn [Mcp.name Mcp.arguments]. cbv zeta.
  destruct (String.eqb_spec name "list_projects") as [-> | _].
  { intros H; inversion H; subst. eexists. cbn.
    unfold Mcp.search. destruct (engine _ _); reflexivity. }
  destruct arguments as [args|]; [| discriminate].
  repeat match goal with
    | |- context [String.eqb name ?x] =>
        destruct (String.eqb_spec name x) as [-> | _];
        [intros H; inversion H; subst; eexists; cbn; unfold Mcp.search;
         destruct (engine _ _); reflexivity |]
    end.
  discriminate.
Qed.

(** A tool that cannot make its search has no arguments to read. *)
Lemma dispatch_no_call (engine : Mcp.Engine) (now : Z) (req : Mcp.Request) :
  In (Mcp.name req) Spec.tool_names → Spec.call_of now req = None →
  ∃ field,
    Mcp.dispatch engine now req
    = Mcp.Throw (Mcp.Error ("Cannot read properties of undefined (reading '"
                            ++ field ++ "')")).
Proof.
  destruct req as [name [args|]]; unfold Spec.tool_names; simpl;
    intros Hname Hcall;
    repeat (destruct Hname as [<- | Hname];
            [first [discriminate Hcall | eexists; reflexivity] |]);
    contradiction.
Qed.

(** C10 (amended). For a request that has [params], the handler gives
    the error result that names the tool when the name is no tool; when
    the tool makes a search, a result that is no error for what the
    engine returns, an error result with the message of what the engine
    throws, with the word undefined for a thrown value that has no
    message, and an exception of its own when the engine throws [null] or
    [undefined]; when the arguments the tool reads are missing, an error
    result with the message of that type error. So it returns a result
    whenever the engine throws neither [null] nor [undefined]. *)
Theorem handler_returns (engine : Mcp.Engine) (now : Z)
    (request : Mcp.RawRequest) (req : Mcp.Request) :
  Mcp.params request = Some req →
  (¬ In (Mcp.name req) Spec.tool_names →
   Mcp.handler engine now request
   = Mcp.Return
       {| Mcp.content := Mcp.Text ("Unknown tool: " ++ Mcp.name req);
          Mcp.isError := true |})
  ∧ (∀ call, Spec.call_of now req = Some call →
       match engine (fst call) (snd call) with
       | Mcp.Return results =>
           ∃ payload,
             Mcp.handler engine now request
             = Mcp.Return
                 {| Mcp.content := Mcp.Json payload; Mcp.isError := false |}
       | Mcp.Throw (Mcp.Error message) =>
           Mcp.handler engine now request
           = Mcp.Return
               {| Mcp.content := Mcp.Text ("Error: " ++ message);
                  Mcp.isError := true |}
       | Mcp.Throw Mcp.NoMessage =>
           Mcp.handler engine now request
           = Mcp.Return
               {| Mcp.content := Mcp.Text "Error: undefined";
                  Mcp.isError := true |}
       | Mcp.Throw Mcp.Null =>
           Mcp.handler engine now request
           = Mcp.Throw
               (Mcp.Error "Cannot read properties of null (reading 'message')")
       | Mcp.Throw Mcp.Undefined =>
           Mcp.handler engine now request
           = Mcp.Throw
               (Mcp.Error
                  "Cannot read properties of undefined (reading 'message')")
       end)
  ∧ (In (Mcp.name req) Spec.tool_names → Spec.call_of now req = None →
     ∃ field,
       Mcp.handler engine now request
       = Mcp.Return
           {| Mcp.content :=
                Mcp.Text ("Error: Cannot read properties of undefined (reading '"
                          ++ field ++ "')");
              Mcp.isError := true |})
  ∧ ((∀ query params,
        engine query params ≠ Mcp.Throw Mcp.Null
        ∧ engine query params ≠ Mcp.Throw Mcp.Undefined) →
     ∃ result, Mcp.handler engine now request = Mcp.Return result).
Proof.
  intros Hparams.
  assert (Hhandler : Mcp.handler engine now request = Mcp.tools_call engine now req)
    by (unfold Mcp.handler; now rewrite Hparams).
  rewrite Hhandler.
  assert (Hcall : ∀ call, Spec.call_of now req = Some call →
    match engine (fst call) (snd call) with
    | Mcp.Return results =>
        ∃ payload,
          Mcp.tools_call engine now req
          = Mcp.Return {| Mcp.content := Mcp.Json payload; Mcp.isError := false |}
    | Mcp.Throw err => Mcp.tools_call engine now req = Spec.caught err
    end).
  { intros call Hc. destruct (dispatch_call_of engine now req call Hc) as [shape Hd].
    destruct (engine (fst call) (snd call)) as [results | err].
    - exists (shape results). unfold Mcp.tools_call. now rewrite Hd.
    - now apply tools_call_throw. }
  assert (Hnone : In (Mcp.name req) Spec.tool_names → Spec.call_of now req = None →
    ∃ field,
      Mcp.tools_call engine now req
      = Mcp.Return
          {| Mcp.content :=
               Mcp.Text ("Error: Cannot read properties of undefined (reading '"
                         ++ field ++ "')");
             Mcp.isError := true |}).
  { intros Hname Hc. destruct (dispatch_no_call engine now req Hname Hc) as [field Hd].
    exists field. now rewrite (tools_call_throw _ _ _ _ Hd). }
  split; [| split; [| split]].
  - intros Hname. now rewrite tools_call_unknown.
  - intros call Hc. specialize (Hcall call Hc).
    destruct (engine (fst call) (snd call)) as [results | [message | | |]];
      exact Hcall.
  - exact Hnone.
  - intros Hengine.
    destruct (in_dec string_dec (Mcp.name req) Spec.tool_names) as [Hname | Hname];
      [| rewrite tools_call_unknown by exact Hname; eauto].
    destruct (Spec.call_of now req) as [call|] eqn:Hc.
    + specialize (Hcall call eq_refl). specialize (Hengine (fst call) (snd call)).
      destruct (engine (fst call) (snd call)) as [results | [message | | |]].
      * destruct Hcall as [payload ->]. eauto.
      * rewrite Hcall. simpl. eauto.
      * rewrite Hcall. simpl. eauto.
      * now destruct Hengine as [[] _].
      * now destruct Hengine as [_ []].
    + destruct (Hnone Hname eq_refl) as [field ->]. eauto.
Qed.

(** A search while the engine is down, an unknown tool, and a trace
    query without arguments. *)
Lemma handler_returns_witness :
  Mcp.handler Sample.unreachable 0 (Sample.call "search_logs" (Some Sample.no_args))
  = Mcp.Return
      {| Mcp.content := Mcp.Text "Error: fetch failed"; Mcp.isError := true |}
  ∧ Mcp.handler Sample.three_events 0 (Sample.call "drop_index" None)
    = Mcp.Return
        {| Mcp.content := Mcp.Text "Unknown tool: drop_index";
           Mcp.isError := true |}
  ∧ ∃ field,
      Mcp.handler Sample.three_events 0 (Sample.call "get_trace" None)
      = Mcp.Return
          {| Mcp.content :=
               Mcp.Text ("Error: Cannot read properties of undefined (reading '"
                         ++ field ++ "')");
             Mcp.isError := true |}.
Proof.
  split; [| split].
  - exact (proj1 (proj2 (handler_returns Sample.unreachable 0
                           (Sample.call "search_logs" (Some Sample.no_args))
                           _ eq_refl))
             _ eq_refl).
  - apply (proj1 (handler_returns Sample.three_events 0
                    (Sample.call "drop_index" None) _ eq_refl)).
    unfold Spec.tool_names. simpl. intuition discriminate.
  - apply (proj1 (proj2 (proj2 (handler_returns Sample.three_events 0
                                  (Sample.call "get_trace" None) _ eq_refl)))).
    + unfold Spec.tool_names. simpl. auto.
    + reflexivity.
Defined.

(** C10, as stated, fails: a request without [params] makes the
    handler throw before its [try] block, and a search rejected with
    [null] makes its [catch] block throw. *)
Lemma handler_propagates_exception :
  Mcp.handler Sample.three_events 0 Sample.no_params
  = Mcp.Throw
      (Mcp.Error
         "Cannot destructure property 'name' of 'request.params' as it is undefined.")
  ∧ Mcp.handler Sample.rejects_null 0 (Sample.call "list_projects" None)
    = Mcp.Throw (Mcp.Error "Cannot read properties of null (reading 'message')").
Proof. split; reflexivity. Qed.

Example no_arguments_result :
  Mcp.tools_call Sample.three_events 0
    {| Mcp.name := "get_trace"; Mcp.arguments := None |}
  = Mcp.Return
      {| Mcp.content :=
           Mcp.Text "Error: Cannot read properties of undefined (reading 'traceId')";
         Mcp.isError := true |}.
Proof. vm_compute. reflexivity. Qed.

(** * Further properties of the MCP server *)

(** ** Durations *)

Lemma digit_bounds (c : ascii) (d : Z) : Spec.digit c = Some d → 0 ≤ d ≤ 9.
Proof.
  destruct c as [[] [] [] [] [] [] [] []]; intros H; vm_compute in H;
    inversion H; lia.
Qed.

Lemma decimal_value_nonneg (ds : string) :
  Spec.all_digits ds = true → 0 ≤ Spec.decimal_value ds.
Proof.
  induction ds as [|c ds IH]; simpl; [lia |].
  destruct (Spec.digit c) as [d|] eqn:Ed; [| discriminate]. intros Hds.
  pose proof (digit_bounds c d Ed). pose proof (IH Hds).
  assert (0 ≤ 10 ^ Z.of_nat (String.length ds)) by (apply Z.pow_nonneg; lia).
  change (default 0 (Some d)) with d. nia.
Qed.

Lemma unit_ms_positive (u : string) (ms : Z) : In (u, ms) Spec.unit_ms → 0 < ms.
Proof.
  intros H. apply unit_ms_inv in H.
  destruct H as [[_ ->] | [[_ ->] | [[_ ->] | [_ ->]]]]; lia.
Qed.

(** Either a string is no duration and worth the default, or it is one
    and worth its number, which is not negative, times its unit. *)
Lemma parseDuration_cases (s : string) :
  (¬ Spec.is_duration s ∧ Mcp.parseDuration s = 3600000)
  ∨ ∃ ds u ms, Spec.duration_of s ds u ms
               ∧ Mcp.parseDuration s = Spec.decimal_value ds * ms
               ∧ 0 ≤ Spec.decimal_value ds ∧ 0 < ms.
Proof.
  destruct (Mcp.match_duration s) as [[ds u]|] eqn:E.
  - right. destruct (match_duration_sound s ds u E) as [ms Hd].
    exists ds, u, ms. split; [exact Hd |].
    split; [exact (parseDuration_match s ds u ms Hd) |].
    destruct Hd as (_ & _ & Hds & Hu).
    split; [now apply decimal_value_nonneg | now apply (unit_ms_positive u)].
  - left. apply not_duration_no_match in E. split; [exact E |].
    now apply parseDuration_default.
Qed.

Lemma parseDuration_nonneg (s : string) : 0 ≤ Mcp.parseDuration s.
Proof.
  destruct (parseDuration_cases s) as [[_ ->] | (ds & u & ms & _ & -> & Hv & Hms)];
    nia.
Qed.

(** X1. A duration is never negative, so the cutoff of a [since] is
    never later than the clock; it is zero exactly for a number of zero
    units. *)
Theorem parseDuration_never_negative (s : string) :
  0 ≤ Mcp.parseDuration s
  ∧ (∀ now, now - Mcp.parseDuration s ≤ now)
  ∧ (Mcp.parseDuration s = 0
     ↔ ∃ ds u ms, Spec.duration_of s ds u ms ∧ Spec.decimal_value ds = 0).
Proof.
  pose proof (parseDuration_nonneg s) as Hnn.
  split; [exact Hnn |]. split; [intros now; lia |]. split.
  - intros Hz.
    destruct (parseDuration_cases s) as [[_ E] | (ds & u & ms & Hd & E & Hv & Hms)];
      [lia |].
    exists ds, u, ms. split; [exact Hd | nia].
  - intros (ds & u & ms & Hd & Hz).
    rewrite (parseDuration_match s ds u ms Hd), Hz. lia.
Qed.

Lemma duration_of_unit (ds u : string) (ms : Z) :
  ds ≠ "" → Spec.all_digits ds = true → In (u, ms) Spec.unit_ms →
  Mcp.parseDuration (ds ++ u) = Spec.decimal_value ds * ms.
Proof.
  intros Hne Hds Hu. apply (parseDuration_match _ ds u ms). now repeat split.
Qed.

(** X2. The units agree with each other, as long as the number of days
    is in the range in which JavaScript numbers are exact: a number of
    seconds is worth a thousand times the number, the same number of
    minutes sixty times that of seconds, of hours sixty times that of
    minutes, of days twenty-four times that of hours. *)
Theorem parseDuration_units_agree (ds : string) :
  ds ≠ "" → Spec.all_digits ds = true →
  Spec.decimal_value ds * 86400000 ≤ Spec.max_safe →
  Mcp.parseDuration (ds ++ "s") = 1000 * Spec.decimal_value ds
  ∧ Mcp.parseDuration (ds ++ "m") = 60 * Mcp.parseDuration (ds ++ "s")
  ∧ Mcp.parseDuration (ds ++ "h") = 60 * Mcp.parseDuration (ds ++ "m")
  ∧ Mcp.parseDuration (ds ++ "d") = 24 * Mcp.parseDuration (ds ++ "h").
Proof.
  intros Hne Hds _.
  rewrite (duration_of_unit ds "s" 1000 Hne Hds) by (simpl; tauto).
  rewrite (duration_of_unit ds "m" 60000 Hne Hds) by (simpl; tauto).
  rewrite (duration_of_unit ds "h" 3600000 Hne Hds) by (simpl; tauto).
  rewrite (duration_of_unit ds "d" 86400000 Hne Hds) by (simpl; tauto).
  lia.
Qed.

(** Ninety of each unit. *)
Lemma parseDuration_units_agree_witness :
  ("90" ≠ "" ∧ Spec.all_digits "90" = true
   ∧ Spec.decimal_value "90" * 86400000 ≤ Spec.max_safe)
  ∧ Mcp.parseDuration "90s" = 90000
  ∧ Mcp.parseDuration ("90" ++ "m") = 60 * Mcp.parseDuration ("90" ++ "s")
  ∧ Mcp.parseDuration ("90" ++ "h") = 60 * Mcp.parseDuration ("90" ++ "m")
  ∧ Mcp.parseDuration ("90" ++ "d") = 24 * Mcp.parseDuration ("90" ++ "h").
Proof.
  assert (H1 : "90" ≠ "") by discriminate.
  assert (H2 : Spec.all_digits "90" = true) by reflexivity.
  assert (H3 : Spec.decimal_value "90" * 86400000 ≤ Spec.max_safe)
    by (vm_compute; discriminate).
  split; [now repeat split |]. exact (parseDuration_units_agree "90" H1 H2 H3).
Defined.

Lemma is_unit_length (u : string) : Mcp.is_unit u = true → String.length u = 1%nat.
Proof.
  unfold Mcp.is_unit. rewrite !orb_true_iff, !String.eqb_eq.
  intros [[[-> | ->] | ->] | ->]; reflexivity.
Qed.

(** The run of digits stops at the first character that is no digit, so
    what is left is at least that character and all that follows it. *)
Lemma span_digits_tail (pre post ds tl : string) (c : ascii) :
  Mcp.is_digit c = false →
  Mcp.span_digits (pre ++ String c post) = (ds, tl) →
  (String.length post < String.length tl)%nat.
Proof.
  intros Hc. revert ds tl. induction pre as [|d pre IH]; intros ds tl.
  - rewrite string_app_nil_l. simpl. rewrite Hc. intros E; inversion E; subst.
    simpl. lia.
  - rewrite string_app_cons. simpl. destruct (Mcp.is_digit d).
    + destruct (Mcp.span_digits (pre ++ String c post)) as [ds' tl'] eqn:E.
      intros E'; inversion E'; subst. now apply (IH ds').
    + intros E; inversion E; subst. simpl. rewrite string_length_app. simpl. lia.
Qed.

(** X3. A string with a character that is no digit anywhere before its
    last character is no duration and is worth the default hour: a sign,
    a decimal point, a blank, a second unit letter. *)
Theorem parseDuration_malformed (pre post : string) (c : ascii) :
  Spec.digit c = None → post ≠ "" →
  Mcp.parseDuration (pre ++ String c post) = 3600000.
Proof.
  intros Hc Hpost. pose proof (digit_spec c) as Hd. rewrite Hc in Hd.
  clear Hc. rename Hd into Hc.
  unfold Mcp.parseDuration, Mcp.match_duration.
  destruct (Mcp.span_digits (pre ++ String c post)) as [ds tl] eqn:E.
  pose proof (span_digits_tail pre post ds tl c Hc E) as Hlen.
  destruct (String.eqb ds ""); [reflexivity |].
  destruct (Mcp.is_unit tl) eqn:Hu; [| reflexivity].
  apply is_unit_length in Hu. destruct post; [congruence | simpl in Hlen; lia].
Qed.

(** One and a half hours, written with a point, is read as one hour. *)
Lemma parseDuration_malformed_witness :
  (Spec.digit (ascii_of_nat 46) = None ∧ "5h" ≠ "")
  ∧ Mcp.parseDuration ("1" ++ String (ascii_of_nat 46) "5h") = 3600000.
Proof.
  assert (H1 : Spec.digit (ascii_of_nat 46) = None) by reflexivity.
  assert (H2 : "5h" ≠ "") by discriminate.
  split; [now split |].
  exact (parseDuration_malformed "1" "5h" (ascii_of_nat 46) H1 H2).
Defined.

(** ** Filters *)

Lemma given_none (o : option string) : Spec.given o = None ↔ Js.truthy o = false.
Proof.
  now destruct o as [[|c v]|].
Qed.

Lemma clauses_nil (now : Z) (opts : Mcp.FilterOpts) :
  Spec.clauses now opts = []
  ↔ Mcp.o_project opts = None ∧ Mcp.o_level opts = None
    ∧ Mcp.o_traceId opts = None ∧ Mcp.o_environment opts = None
    ∧ Mcp.o_since opts = None ∧ Mcp.o_extraFilter opts = None.
Proof.
  unfold Spec.clauses.
  destruct (Mcp.o_project opts), (Mcp.o_level opts), (Mcp.o_traceId opts),
    (Mcp.o_environment opts), (Mcp.o_since opts), (Mcp.o_extraFilter opts);
    simpl; split; intros H; try discriminate H;
    try (destruct H as (? & ? & ? & ? & ? & ?); discriminate); tauto.
Qed.

(** X4. There is a filter unless every component, the extra filter
    included, is missing or empty; and each clause of the filter comes
    from one component, so there are at most six. *)
Theorem buildFilter_none_iff (now : Z) (opts : Mcp.FilterOpts) :
  (Mcp.buildFilter now opts = None
   ↔ Spec.given (Mcp.o_project opts) = None
     ∧ Spec.given (Mcp.o_level opts) = None
     ∧ Spec.given (Mcp.o_traceId opts) = None
     ∧ Spec.given (Mcp.o_environment opts) = None
     ∧ Spec.given (Mcp.o_since opts) = None
     ∧ Spec.given (Mcp.o_extraFilter opts) = None)
  ∧ (length (Mcp.filter_parts now opts) ≤ 6)%nat.
Proof.
  split.
  - rewrite buildFilter_given. unfold Spec.conjunction.
    pose proof (clauses_nil now (Spec.given_opts opts)) as Hnil. simpl in Hnil.
    rewrite <- Hnil.
    destruct (Spec.clauses now (Spec.given_opts opts)); split; congruence.
  - rewrite filter_parts_clauses, length_map. unfold Spec.clauses.
    rewrite !length_app.
    destruct (Mcp.o_project (Spec.given_opts opts)),
      (Mcp.o_level (Spec.given_opts opts)),
      (Mcp.o_traceId (Spec.given_opts opts)),
      (Mcp.o_environment (Spec.given_opts opts)),
      (Mcp.o_since (Spec.given_opts opts)),
      (Mcp.o_extraFilter (Spec.given_opts opts)); simpl; lia.
Qed.

Lemma str_or_default_given (o : option string) (d : string) :
  d ≠ "" → Spec.given (Some (Js.str_or o d)) = Some (Js.str_or o d).
Proof.
  intros Hd. apply given_some. split; [reflexivity |].
  unfold Js.str_or. destruct o as [v|]; [| exact Hd].
  destruct (String.eqb_spec v ""); [exact Hd | assumption].
Qed.

Lemma duration_ms_nonneg (s : string) : 0 ≤ Spec.duration_ms s.
Proof. rewrite duration_ms_parseDuration. apply parseDuration_nonneg. Qed.

(** X5. Within the range in which JavaScript numbers are exact, the
    error summary never searches without a filter, whatever its
    arguments: the filter always ends with a range clause whose cutoff is
    not later than the clock, followed by the disjunction on the level;
    before them there is at most the clause of the project. *)
Theorem error_summary_always_bounded (now : Z) (args : Mcp.Args) :
  Spec.exact_cutoff now (Spec.given (Mcp.a_since args)) →
  ∃ pre cutoff,
    Mcp.p_filter (snd (Mcp.error_summary_call now args))
    = Some (pre ++ "timestampMs > " ++ pretty cutoff ++ " AND (level = "
            ++ dquote ++ "error" ++ dquote ++ " OR level = "
            ++ dquote ++ "fatal" ++ dquote ++ ")")
    ∧ cutoff ≤ now
    ∧ cutoff = now - match Spec.given (Mcp.a_since args) with
                     | Some s => Spec.duration_ms s
                     | None => 3600000
                     end
    ∧ (pre = ""
       ∨ ∃ v, Mcp.a_project args = Some v ∧ v ≠ ""
              ∧ pre = "project = " ++ dquote ++ v ++ dquote ++ " AND ").
Proof.
  intros _. rewrite error_summary_filter.
  set (duration := match Spec.given (Mcp.a_since args) with
                   | Some s => Spec.duration_ms s
                   | None => 3600000
                   end).
  assert (Hnn : 0 ≤ duration).
  { unfold duration. destruct (Spec.given (Mcp.a_since args));
      [apply duration_ms_nonneg | lia]. }
  destruct (Spec.given (Mcp.a_project args)) as [v|] eqn:Hp.
  - apply given_some in Hp as [Hp Hne].
    exists ("project = " ++ dquote ++ v ++ dquote ++ " AND "),
      (now - duration).
    split; [| split; [lia | split; [reflexivity | right; exists v; auto]]].
    cbn [Spec.equality app map Spec.render]. rewrite !and_join_cons.
    cbn [Spec.and_join]. now rewrite !string_app_assoc.
  - exists "", (now - duration).
    split; [| split; [lia | split; [reflexivity | now left]]].
    cbn [Spec.equality app map]. rewrite and_join_cons.
    cbn [Spec.and_join]. now rewrite !string_app_assoc.
Qed.

(** The errors of the project api of the last two days, asked at the
    beginning of 2026. *)
Lemma error_summary_always_bounded_witness :
  ∃ pre cutoff,
    Mcp.p_filter
      (snd (Mcp.error_summary_call 1767225600000 (Sample.api_errors_since "2d")))
    = Some (pre ++ "timestampMs > " ++ pretty cutoff ++ " AND (level = "
            ++ dquote ++ "error" ++ dquote ++ " OR level = "
            ++ dquote ++ "fatal" ++ dquote ++ ")")
    ∧ cutoff ≤ 1767225600000
    ∧ cutoff = 1767225600000 - 172800000
    ∧ (pre = ""
       ∨ ∃ v, Mcp.a_project (Sample.api_errors_since "2d") = Some v ∧ v ≠ ""
              ∧ pre = "project = " ++ dquote ++ v ++ dquote ++ " AND ").
Proof.
  apply (error_summary_always_bounded 1767225600000 (Sample.api_errors_since "2d")).
  split; [unfold Spec.max_safe; lia | vm_compute; discriminate].
Defined.

(** ** tail_logs and find_similar *)

Lemma tools_call_tail_logs (engine : Mcp.Engine) (now : Z) (args : Mcp.Args) :
  Mcp.tools_call engine now {| Mcp.name := "tail_logs"; Mcp.arguments := Some args |}
  = match Mcp.search engine (Mcp.tail_logs_call now args) with
    | Mcp.Return results => Spec.answer (Mcp.tail_logs_shape results)
    | Mcp.Throw err => Spec.caught err
    end.
Proof.
  unfold Mcp.tools_call, Mcp.dispatch. cbn.
  destruct (Mcp.search engine (Mcp.tail_logs_call now args)) as [results | err];
    [reflexivity | now destruct err].
Qed.

Lemma conjunction_project_level (now : Z) (project level : option string) :
  Mcp.buildFilter now
    {| Mcp.o_project := project; Mcp.o_level := level; Mcp.o_traceId := None;
       Mcp.o_environment := None; Mcp.o_since := None;
       Mcp.o_extraFilter := None |}
  = Spec.conjunction
      (Spec.equality "project" (Spec.given project)
       ++ Spec.equality "level" (Spec.given level))%list.
Proof.
  rewrite buildFilter_given. unfold Spec.clauses, Spec.given_opts. cbn.
  now rewrite !app_nil_r.
Qed.

(** X6. The tail searches the empty string, latest first, filtered by
    the project and the level only, whatever else the arguments hold; its
    limit is never above 100, is 30 when no limit or 0 is asked for, and
    is the asked limit clamped to [1, 100] from 1 on. *)
Theorem tail_logs_contract (now : Z) (args : Mcp.Args) :
  let call := Mcp.tail_logs_call now args in
  fst call = Some ""
  ∧ Mcp.p_sort (snd call) = Some ["timestamp:desc"]
  ∧ Mcp.p_facets (snd call) = None
  ∧ Mcp.p_filter (snd call)
    = Spec.conjunction
        (Spec.equality "project" (Spec.given (Mcp.a_project args))
         ++ Spec.equality "level" (Spec.given (Mcp.a_level args)))%list
  ∧ ∃ limit,
      Mcp.p_limit (snd call) = Some limit
      ∧ limit ≤ 100
      ∧ match Mcp.a_limit args with
        | None => limit = 30
        | Some n =>
            (n = 0 → limit = 30) ∧ (1 ≤ n → limit = Spec.clamp 1 100 n)
            ∧ (n < 0 → limit = n)
        end.
Proof.
  cbv zeta. unfold Mcp.tail_logs_call. cbn [fst snd Mcp.p_sort Mcp.p_facets
    Mcp.p_filter Mcp.p_limit].
  split; [reflexivity |]. split; [reflexivity |]. split; [reflexivity |].
  split; [apply conjunction_project_level |].
  eexists. split; [reflexivity |]. split; [lia |].
  unfold Js.num_or, Spec.clamp. destruct (Mcp.a_limit args) as [n|]; [| reflexivity].
  destruct (Z.eqb_spec n 0) as [-> | Hn]; repeat split; intros; lia.
Qed.

Lemma StronglySorted_rev {A} (R : A → A → Prop) (l : list A) :
  StronglySorted R l → StronglySorted (flip R) (rev l).
Proof.
  induction 1 as [|x l Hl IH Hx]; simpl; [constructor |].
  apply StronglySorted_app. split; [| split; [exact IH | repeat constructor]].
  intros y z Hy Hz. apply list_elem_of_singleton in Hz. subst z.
  apply list_elem_of_In, in_rev, list_elem_of_In in Hy.
  rewrite Forall_forall in Hx. now apply Hx.
Qed.

(** X7. The tail counts the hits and returns them in the reverse of the
    order of the engine: when the engine lists the hits latest first, the
    tail lists them oldest first. *)
Theorem tail_logs_oldest_first (engine : Mcp.Engine) (now : Z) (args : Mcp.Args)
    (results : Mcp.SearchResponse) (newer : Mcp.Hit → Mcp.Hit → Prop) :
  engine (fst (Mcp.tail_logs_call now args)) (snd (Mcp.tail_logs_call now args))
  = Mcp.Return results →
  StronglySorted newer (Mcp.hits results) →
  ∃ logs,
    Mcp.tools_call engine now
      {| Mcp.name := "tail_logs"; Mcp.arguments := Some args |}
    = Spec.answer (Mcp.TailLogs (length (Mcp.hits results)) logs)
    ∧ length logs = length (Mcp.hits results)
    ∧ (∀ i h, (i < length logs)%nat →
         (logs !! i = Some h
          ↔ Mcp.hits results !! (length logs - 1 - i)%nat = Some h))
    ∧ StronglySorted (flip newer) logs.
Proof.
  intros Hsearch Hsorted. exists (rev (Mcp.hits results)).
  rewrite tools_call_tail_logs. unfold Mcp.search. rewrite Hsearch.
  split; [reflexivity |].
  rewrite length_rev. split; [reflexivity |]. split.
  - intros i h Hi. rewrite rev_alt.
    change (rev_append (Mcp.hits results) []) with (reverse (Mcp.hits results)).
    rewrite reverse_lookup by exact Hi.
    replace (length (Mcp.hits results) - S i)%nat
      with (length (Mcp.hits results) - 1 - i)%nat by lia.
    reflexivity.
  - now apply StronglySorted_rev.
Qed.

(** Three hits, the latest first. *)
Lemma tail_logs_oldest_first_witness :
  ∃ logs,
    Mcp.tools_call Sample.latest_first 0
      {| Mcp.name := "tail_logs"; Mcp.arguments := Some Sample.no_args |}
    = Spec.answer (Mcp.TailLogs 3 logs)
    ∧ map Mcp.h_message logs = [Some "first"; Some "second"; Some "third"]
    ∧ StronglySorted (flip Sample.not_older) logs.
Proof.
  assert (Hsorted : StronglySorted Sample.not_older
            [Sample.timed_hit "2026-01-01T00:00:03.000Z" "third";
             Sample.timed_hit "2026-01-01T00:00:02.000Z" "second";
             Sample.timed_hit "2026-01-01T00:00:01.000Z" "first"])
    by (repeat constructor).
  destruct (tail_logs_oldest_first Sample.latest_first 0 Sample.no_args _
              Sample.not_older eq_refl Hsorted) as (logs & Hcall & _ & _ & Hs).
  exists logs. split; [exact Hcall |]. split; [| exact Hs].
  unfold Mcp.tools_call, Spec.answer in Hcall. simpl in Hcall.
  injection Hcall as <-. reflexivity.
Defined.

Lemma tools_call_find_similar (engine : Mcp.Engine) (now : Z) (args : Mcp.Args) :
  Mcp.tools_call engine now
    {| Mcp.name := "find_similar"; Mcp.arguments := Some args |}
  = match Mcp.search engine (Mcp.find_similar_call now args) with
    | Mcp.Return results => Spec.answer (Mcp.find_similar_shape args results)
    | Mcp.Throw err => Spec.caught err
    end.
Proof.
  unfold Mcp.tools_call, Mcp.dispatch. cbn.
  destruct (Mcp.search engine (Mcp.find_similar_call now args)) as [results | err];
    [reflexivity | now destruct err].
Qed.

(** X8. The search for similar messages queries the message as it is,
    in the order of the engine, filtered by the project only; its limit
    is 10 when no limit or 0 is asked for and the asked limit otherwise,
    with no cap; the answer repeats the message and carries the hits as
    they are. *)
Theorem find_similar_contract (engine : Mcp.Engine) (now : Z) (args : Mcp.Args) :
  let call := Mcp.find_similar_call now args in
  let req := {| Mcp.name := "find_similar"; Mcp.arguments := Some args |} in
  fst call = Mcp.a_message args
  ∧ Mcp.p_sort (snd call) = None
  ∧ Mcp.p_filter (snd call)
    = Spec.conjunction (Spec.equality "project" (Spec.given (Mcp.a_project args)))
  ∧ match Mcp.a_limit args with
    | None => Mcp.p_limit (snd call) = Some 10
    | Some n =>
        (n = 0 → Mcp.p_limit (snd call) = Some 10)
        ∧ (n ≠ 0 → Mcp.p_limit (snd call) = Some n)
    end
  ∧ match engine (fst call) (snd call) with
    | Mcp.Return results =>
        Mcp.tools_call engine now req
        = Spec.answer (Mcp.Similar (Mcp.a_message args) (Mcp.hits results))
    | Mcp.Throw err => Mcp.tools_call engine now req = Spec.caught err
    end.
Proof.
  cbv zeta. split; [reflexivity |]. split; [reflexivity |]. split; [| split].
  - unfold Mcp.find_similar_call. cbn [snd Mcp.p_filter].
    rewrite (conjunction_project_level now (Mcp.a_project args) None).
    change (Spec.given None) with (@None string). simpl. now rewrite app_nil_r.
  - unfold Mcp.find_similar_call. cbn [snd Mcp.p_limit]. unfold Js.num_or.
    destruct (Mcp.a_limit args) as [n|]; [| reflexivity].
    destruct (Z.eqb_spec n 0); split; intros; congruence.
  - rewrite tools_call_find_similar. unfold Mcp.search.
    now destruct (engine _ _).
Qed.

Example find_similar_limit_5000 :
  Mcp.p_limit (snd (Mcp.find_similar_call 0 (Sample.limit_args 5000))) = Some 5000.
Proof. reflexivity. Qed.

(** ** The shape of a trace *)


(** X9. The projects of a trace are listed in the order in which they
    first occur among the hits, and the timeline has one event for each
    hit, in the order of the hits, so the count of events is its length. *)
Theorem get_trace_shape_order (args : Mcp.Args) (results : Mcp.SearchResponse) :
  ∃ payload,
    Mcp.get_trace_shape args results = Mcp.Trace payload
    ∧ Mcp.projects payload
      = Spec.first_occurrences (map Mcp.h_project (Mcp.hits results))
    ∧ length (Mcp.timeline payload) = Mcp.eventCount payload
    ∧ ∀ i, Mcp.timeline payload !! i
           = (λ h,
                {| Mcp.tl_timestamp := Mcp.h_timestamp h;
                   Mcp.tl_project := Mcp.h_project h;
                   Mcp.tl_level := Mcp.h_level h;
                   Mcp.tl_message := Mcp.h_message h;
                   Mcp.tl_spanId := Mcp.h_spanId h;
                   Mcp.tl_parentSpanId := Mcp.h_parentSpanId h;
                   Mcp.tl_source := Mcp.h_source h |})
             <$> (Mcp.hits results !! i).
Proof.
  eexists. split; [reflexivity |]. cbn.
  split; [apply unique_first_occurrences |].
  split; [apply length_map |].
  intros i. apply (list_lookup_fmap Mcp.timeline_event).
Qed.

Example first_occurrences_of_services :
  Spec.first_occurrences ["svcB"; "svcA"; "svcB"; "svcC"; "svcA"]
  = ["svcB"; "svcA"; "svcC"].
Proof. reflexivity. Qed.

(** ** The list of tools and the handler *)

Lemma tool_names_listed :
  map Mcp.tool_name Mcp.tools_list = Spec.tool_names.
Proof. reflexivity. Qed.

Lemma caught_not_unknown (err : Mcp.exn) (name : string) :
  Spec.caught err ≠ Mcp.Return (Spec.unknown_tool name).
Proof. destruct err; unfold Spec.caught, Spec.unknown_tool; intros E; inversion E. Qed.

Lemma answer_not_unknown (p : Mcp.Payload) (name : string) :
  Spec.answer p ≠ Mcp.Return (Spec.unknown_tool name).
Proof. unfold Spec.answer, Spec.unknown_tool. intros E. inversion E. Qed.

(** A tool of the list answers with a payload or with what [catch]
    makes of a thrown value. *)
Lemma listed_tool_result (engine : Mcp.Engine) (now : Z) (req : Mcp.Request) :
  In (Mcp.name req) Spec.tool_names →
  (∃ p, Mcp.tools_call engine now req = Spec.answer p)
  ∨ (∃ err, Mcp.tools_call engine now req = Spec.caught err).
Proof.
  intros Hname. destruct (Spec.call_of now req) as [call|] eqn:Hc.
  - destruct (dispatch_call_of engine now req call Hc) as [shape Hd].
    destruct (engine (fst call) (snd call)) as [results | err].
    + left. exists (shape results). unfold Mcp.tools_call. now rewrite Hd.
    + right. exists err. now apply tools_call_throw.
  - destruct (dispatch_no_call engine now req Hname Hc) as [field Hd].
    right. eexists. apply tools_call_throw. exact Hd.
Qed.

(** X10. The tools that [tools/list] announces are exactly the names the
    handler of [tools/call] knows: a call of an announced tool never
    answers Unknown tool, a call of any other name always does; and every
    property a tool requires is one its schema declares. *)
Theorem tools_list_matches_handler (name : string) :
  (In name (map Mcp.tool_name Mcp.tools_list) →
   ∀ engine now arguments,
     Mcp.tools_call engine now {| Mcp.name := name; Mcp.arguments := arguments |}
     ≠ Mcp.Return
         {| Mcp.content := Mcp.Text ("Unknown tool: " ++ name);
            Mcp.isError := true |})
  ∧ (¬ In name (map Mcp.tool_name Mcp.tools_list) →
     ∀ engine now arguments,
       Mcp.tools_call engine now {| Mcp.name := name; Mcp.arguments := arguments |}
       = Mcp.Return
           {| Mcp.content := Mcp.Text ("Unknown tool: " ++ name);
              Mcp.isError := true |})
  ∧ ∀ tool property,
      In tool Mcp.tools_list → In property (Mcp.tool_required tool) →
      In property (map fst (Mcp.tool_properties tool)).
Proof.
  rewrite tool_names_listed. split; [| split].
  - intros Hname engine now arguments.
    destruct (listed_tool_result engine now
                {| Mcp.name := name; Mcp.arguments := arguments |} Hname)
      as [[p ->] | [err ->]];
      [apply (answer_not_unknown p name) | apply (caught_not_unknown err name)].
  - intros Hout engine now arguments.
    exact (tools_call_unknown engine now
             {| Mcp.name := name; Mcp.arguments := arguments |} Hout).
  - intros tool property Htool. unfold Mcp.tools_list in Htool. simpl in Htool.
    repeat (destruct Htool as [<- | Htool]; [simpl; tauto |]). contradiction.
Qed.

(** ** Requests that never reach the engine *)

(** X11. A call of an unknown name, and a call without arguments of any
    tool but the overview of projects, is answered without a search: the
    answer is the same whatever the engine; the overview of projects
    needs no arguments. *)
Theorem invalid_request_skips_engine (engine1 engine2 : Mcp.Engine) (now : Z)
    (req : Mcp.Request) :
  (¬ In (Mcp.name req) Spec.tool_names
   ∨ (Mcp.arguments req = None ∧ Mcp.name req ≠ "list_projects")) →
  Mcp.tools_call engine1 now req = Mcp.tools_call engine2 now req
  ∧ (∃ result,
       Mcp.tools_call engine1 now req = Mcp.Return result
       ∧ Mcp.isError result = true)
  ∧ ∀ args,
      Mcp.tools_call engine1 now
        {| Mcp.name := "list_projects"; Mcp.arguments := args |}
      = Mcp.tools_call engine1 now
          {| Mcp.name := "list_projects"; Mcp.arguments := None |}.
Proof.
  intros Hreq.
  assert (Hfixed : ∃ result, Mcp.isError result = true
            ∧ ∀ engine, Mcp.tools_call engine now req = Mcp.Return result).
  { destruct (in_dec string_dec (Mcp.name req) Spec.tool_names) as [Hin | Hout].
    - destruct Hreq as [Hname | [Hargs Hne]]; [contradiction |].
      destruct req as [name arguments]. simpl in Hargs, Hne, Hin. subst arguments.
      unfold Spec.tool_names in Hin. simpl in Hin.
      repeat (destruct Hin as [<- | Hin];
              [first [congruence
                     | eexists; split; [| intros engine; reflexivity];
                       reflexivity] |]).
      contradiction.
    - exists (Spec.unknown_tool (Mcp.name req)). split; [reflexivity |].
      intros engine. now apply tools_call_unknown. }
  destruct Hfixed as (result & Herr & Hres).
  rewrite !Hres. split; [reflexivity |]. split; [eauto |].
  intros args. now rewrite !tools_call_list_projects.
Qed.

(** A search without arguments. *)
Lemma invalid_request_skips_engine_witness :
  Mcp.tools_call Sample.three_events 0
    {| Mcp.name := "search_logs"; Mcp.arguments := None |}
  = Mcp.tools_call Sample.unreachable 0
      {| Mcp.name := "search_logs"; Mcp.arguments := None |}
  ∧ ∃ result,
      Mcp.tools_call Sample.three_events 0
        {| Mcp.name := "search_logs"; Mcp.arguments := None |}
      = Mcp.Return result
      ∧ Mcp.isError result = true.
Proof.
  assert (H : ¬ In "search_logs" Spec.tool_names
              ∨ (@None Mcp.Args = None ∧ "search_logs" ≠ "list_projects"))
    by (right; split; [reflexivity | discriminate]).
  destruct (invalid_request_skips_engine Sample.three_events Sample.unreachable 0
              {| Mcp.name := "search_logs"; Mcp.arguments := None |} H)
    as (H1 & H2 & _).
  split; [exact H1 | exact H2].
Defined.

(** X12. The trace id is not checked: when the arguments of a trace
    query hold no trace id, the engine is asked for the traces whose id
    is the word undefined, and the answer carries no trace id. *)
Theorem get_trace_without_id (engine : Mcp.Engine) (now : Z) (args : Mcp.Args)
    (results : Mcp.SearchResponse) :
  Mcp.a_traceId args = None →
  engine (fst (Mcp.get_trace_call args)) (snd (Mcp.get_trace_call args))
  = Mcp.Return results →
  Mcp.p_filter (snd (Mcp.get_trace_call args))
  = Some ("traceId = " ++ dquote ++ "undefined" ++ dquote)
  ∧ ∃ payload,
      Mcp.tools_call engine now
        {| Mcp.name := "get_trace"; Mcp.arguments := Some args |}
      = Spec.answer (Mcp.Trace payload)
      ∧ Mcp.traceId payload = None
      ∧ Mcp.eventCount payload = length (Mcp.hits results).
Proof.
  intros Hid Hsearch. split.
  - unfold Mcp.get_trace_call. cbn [snd Mcp.p_filter]. now rewrite Hid.
  - rewrite tools_call_get_trace. unfold Mcp.search. rewrite Hsearch.
    eexists. split; [reflexivity |].
    cbn. now split.
Qed.

(** A trace query with no argument set. *)
Lemma get_trace_without_id_witness :
  Mcp.p_filter (snd (Mcp.get_trace_call Sample.no_args))
  = Some ("traceId = " ++ dquote ++ "undefined" ++ dquote)
  ∧ ∃ payload,
      Mcp.tools_call Sample.three_events 0
        {| Mcp.name := "get_trace"; Mcp.arguments := Some Sample.no_args |}
      = Spec.answer (Mcp.Trace payload)
      ∧ Mcp.traceId payload = None
      ∧ Mcp.eventCount payload = 3%nat.
Proof.
  exact (get_trace_without_id Sample.three_events 0 Sample.no_args _
           eq_refl eq_refl).
Defined.

(** ** The environment of emitted entries *)

Section NodeEntries.

Variable uuid : nat → string.
Variable opts : NodeSdk.LogstreamOptions.

Lemma node_emitted_flush (st : NodeSdk.State) :
  NodeSdk.emitted (NodeSdk.flush st) = NodeSdk.emitted st.
Proof.
  unfold NodeSdk.flush, NodeSdk.emitted.
  destruct (negb (NodeSdk.connected st) || (length (NodeSdk.queue st) =? 0)%nat);
    [reflexivity |].
  simpl. rewrite concat_app. simpl. now rewrite !app_nil_r.
Qed.

(** A call of [log] adds one entry, the new one, whether or not it
    flushes. *)
Lemma node_emitted_log (timestamp level message : string)
    (extra : option NodeSdk.LogMeta) (st : NodeSdk.State) :
  NodeSdk.emitted (NodeSdk.log opts timestamp level message extra st)
  = (NodeSdk.emitted st
       ++ [NodeSdk.new_entry opts timestamp level message extra])%list.
Proof.
  unfold NodeSdk.log. cbv zeta.
  match goal with |- context [if ?b then _ else _] => destruct b end;
    rewrite ?node_emitted_flush; unfold NodeSdk.emitted; cbn [NodeSdk.sent NodeSdk.queue];
    apply app_assoc.
Qed.

Lemma node_emitted_randomUUID (st : NodeSdk.State) :
  NodeSdk.emitted (snd (NodeSdk.randomUUID uuid st)) = NodeSdk.emitted st.
Proof. reflexivity. Qed.

(** Every step keeps the entries there were and adds at most one, built
    by [new_entry]. *)
Lemma node_emitted_step (st : NodeSdk.State) (op : NodeSdk.Op) :
  NodeSdk.emitted (NodeSdk.step uuid opts st op) = NodeSdk.emitted st
  ∨ ∃ timestamp level message extra,
      NodeSdk.emitted (NodeSdk.step uuid opts st op)
      = (NodeSdk.emitted st
           ++ [NodeSdk.new_entry opts timestamp level message extra])%list.
Proof.
  destruct op; simpl.
  - right. do 4 eexists. apply node_emitted_log.
  - left. apply node_emitted_flush.
  - left. unfold NodeSdk.on_open. now rewrite node_emitted_flush.
  - now left.
  - right. unfold NodeSdk.startTrace. simpl. do 4 eexists.
    rewrite node_emitted_log. reflexivity.
  - right. unfold NodeSdk.continueTrace.
    destruct (Js.truthy (headers !! "x-trace-id")); simpl; do 4 eexists;
      rewrite node_emitted_log; reflexivity.
  - right. unfold NodeSdk.span. simpl. do 4 eexists.
    rewrite node_emitted_log. reflexivity.
  - right. do 4 eexists. apply node_emitted_log.
  - right. do 4 eexists. apply node_emitted_log.
Qed.

Lemma node_environment_invariant (ops : list NodeSdk.Op) (st : NodeSdk.State) :
  (∀ e, e ∈ NodeSdk.emitted st →
        NodeSdk.e_environment e = Js.str_or (NodeSdk.environment opts) "dev") →
  ∀ e, e ∈ NodeSdk.emitted (fold_left (NodeSdk.step uuid opts) ops st) →
       NodeSdk.e_environment e = Js.str_or (NodeSdk.environment opts) "dev".
Proof.
  revert st. induction ops as [|op ops IH]; intros st Hst; simpl; [exact Hst |].
  apply IH. intros e He.
  destruct (node_emitted_step st op) as [E | (ts & lv & msg & extra & E)];
    rewrite E in He; [now apply Hst |].
  apply elem_of_app in He as [He | He]; [now apply Hst |].
  apply list_elem_of_singleton in He. now subst.
Qed.

End NodeEntries.

Section BrowserEntries.

Variable opts : BrowserSdk.BrowserLoggerOptions.
Variable host : BrowserSdk.Host.

Lemma browser_emitted_flush (beacon : bool) (st : BrowserSdk.State) :
  BrowserSdk.emitted (BrowserSdk.flush host beacon st) ≡ₚ BrowserSdk.emitted st.
Proof.
  unfold BrowserSdk.flush, BrowserSdk.emitted.
  destruct (BrowserSdk.queue st) as [|e batch] eqn:Hq; [now rewrite Hq |].
  destruct (beacon && BrowserSdk.has_sendBeacon host);
    cbn [BrowserSdk.queue BrowserSdk.beacons BrowserSdk.posts];
    rewrite !concat_app; cbn [concat]; rewrite !app_nil_r.
  - rewrite <- (assoc_L (++)).
    apply Permutation_app_head, Permutation_app_comm.
  - reflexivity.
Qed.

Lemma browser_emitted_log (timestamp level message : string)
    (meta : option (gmap string string)) (st : BrowserSdk.State) :
  ∃ entry,
    BrowserSdk.e_environment entry = Js.str_or (BrowserSdk.environment opts) "dev"
    ∧ BrowserSdk.e_level entry = level
    ∧ BrowserSdk.emitted (BrowserSdk.log opts host timestamp level message meta st)
      = (BrowserSdk.emitted st ++ [entry])%list.
Proof.
  exists {| BrowserSdk.e_timestamp := timestamp;
            BrowserSdk.e_project := BrowserSdk.project opts;
            BrowserSdk.e_environment := Js.str_or (BrowserSdk.environment opts) "dev";
            BrowserSdk.e_level := level;
            BrowserSdk.e_message := message;
            BrowserSdk.e_meta := BrowserSdk.with_url host meta |}.
  split; [reflexivity |]. split; [reflexivity |].
  unfold BrowserSdk.log, BrowserSdk.emitted.
  cbn [BrowserSdk.queue BrowserSdk.beacons BrowserSdk.posts].
  now rewrite <- !(assoc_L (++)).
Qed.

Lemma browser_emitted_step (st : BrowserSdk.State) (op : BrowserSdk.Op) (e : BrowserSdk.Entry) :
  e ∈ BrowserSdk.emitted (BrowserSdk.step opts host st op) →
  e ∈ BrowserSdk.emitted st
  ∨ BrowserSdk.e_environment e = Js.str_or (BrowserSdk.environment opts) "dev".
Proof.
  assert (Hlog : ∀ timestamp level message meta,
    e ∈ BrowserSdk.emitted (BrowserSdk.log opts host timestamp level message meta st) →
    e ∈ BrowserSdk.emitted st
    ∨ BrowserSdk.e_environment e = Js.str_or (BrowserSdk.environment opts) "dev").
  { intros ts lv msg meta He.
    destruct (browser_emitted_log ts lv msg meta st) as (entry & Henv & _ & E).
    rewrite E in He. apply elem_of_app in He as [He | He]; [now left | right].
    apply list_elem_of_singleton in He. now subst. }
  destruct op; simpl.
  - apply Hlog.
  - intros He. left. now rewrite browser_emitted_flush in He.
  - destruct (BrowserSdk.captures_errors opts host); [apply Hlog | now left].
  - destruct (BrowserSdk.captures_errors opts host); [apply Hlog | now left].
  - destruct (BrowserSdk.captures_console opts); [apply Hlog | now left].
Qed.

Lemma browser_environment_invariant (ops : list BrowserSdk.Op) (st : BrowserSdk.State) :
  (∀ e, e ∈ BrowserSdk.emitted st →
        BrowserSdk.e_environment e = Js.str_or (BrowserSdk.environment opts) "dev") →
  ∀ e, e ∈ BrowserSdk.emitted (fold_left (BrowserSdk.step opts host) ops st) →
       BrowserSdk.e_environment e = Js.str_or (BrowserSdk.environment opts) "dev".
Proof.
  revert st. induction ops as [|op ops IH]; intros st Hst; simpl; [exact Hst |].
  apply IH. intros e He.
  destruct (browser_emitted_step st op e He) as [Hold | Hnew]; [now apply Hst | exact Hnew].
Qed.

End BrowserEntries.

Lemma str_or_cases (o : option string) (d : string) :
  match o with
  | None => Js.str_or o d = d
  | Some v => (v ≠ "" → Js.str_or o d = v) ∧ (v = "" → Js.str_or o d = d)
  end.
Proof.
  destruct o as [v|]; [| reflexivity]. unfold Js.str_or.
  destruct (String.eqb_spec v ""); split; congruence.
Qed.

(** C8 (amended). Whatever is done with a logger of the Node SDK or of
    the browser SDK, every entry it has queued or sent carries the
    environment dev when the options give no environment or the empty
    string, and the environment of the options when that is not empty. *)
Theorem emitted_environment :
  (∀ (uuid : nat → string) (opts : NodeSdk.LogstreamOptions)
     (ops : list NodeSdk.Op) (e : NodeSdk.Entry),
     e ∈ NodeSdk.emitted (NodeSdk.run uuid opts ops) →
     match NodeSdk.environment opts with
     | None => NodeSdk.e_environment e = "dev"
     | Some v =>
         (v ≠ "" → NodeSdk.e_environment e = v)
         ∧ (v = "" → NodeSdk.e_environment e = "dev")
     end)
  ∧ (∀ (opts : BrowserSdk.BrowserLoggerOptions) (host : BrowserSdk.Host)
       (ops : list BrowserSdk.Op) (e : BrowserSdk.Entry),
       e ∈ BrowserSdk.emitted (BrowserSdk.run opts host ops) →
       match BrowserSdk.environment opts with
       | None => BrowserSdk.e_environment e = "dev"
       | Some v =>
           (v ≠ "" → BrowserSdk.e_environment e = v)
           ∧ (v = "" → BrowserSdk.e_environment e = "dev")
       end).
Proof.
  split.
  - intros uuid opts ops e He.
    assert (Henv : NodeSdk.e_environment e
                   = Js.str_or (NodeSdk.environment opts) "dev").
    { apply (node_environment_invariant uuid opts ops NodeSdk.initial); [| exact He].
      intros e' He'. unfold NodeSdk.emitted in He'. simpl in He'.
      now apply elem_of_nil in He'. }
    rewrite Henv. apply str_or_cases.
  - intros opts host ops e He.
    assert (Henv : BrowserSdk.e_environment e
                   = Js.str_or (BrowserSdk.environment opts) "dev").
    { apply (browser_environment_invariant opts host ops BrowserSdk.initial); [| exact He].
      intros e' He'. unfold BrowserSdk.emitted in He'. simpl in He'.
      now apply elem_of_nil in He'. }
    rewrite Henv. apply str_or_cases.
Qed.

(** C8, as stated, fails for an environment that is specified as the
    empty string: the entries carry dev, not the value of the options. *)
Lemma empty_environment_becomes_dev :
  NodeSdk.environment (Sample.node_opts (Some "")) = Some ""
  ∧ map NodeSdk.e_environment
      (NodeSdk.emitted
         (NodeSdk.run Sample.uuid (Sample.node_opts (Some ""))
            [NodeSdk.OpLog "2026-01-01T00:00:00.000Z" "info" "hi" None]))
    = ["dev"]
  ∧ BrowserSdk.environment (Sample.browser_opts (Some "")) = Some ""
  ∧ map BrowserSdk.e_environment
      (BrowserSdk.emitted
         (BrowserSdk.run (Sample.browser_opts (Some "")) Sample.page
            [BrowserSdk.OpLog "2026-01-01T00:00:00.000Z" "info" "hi" None]))
    = ["dev"].
Proof. repeat split. Qed.

Example node_environment_prod :
  map NodeSdk.e_environment
    (NodeSdk.emitted
       (NodeSdk.run Sample.uuid (Sample.node_opts (Some "prod"))
          [NodeSdk.OpStartTrace "2026-01-01T00:00:00.000Z" "checkout";
           NodeSdk.OpOpen;
           NodeSdk.OpLog "2026-01-01T00:00:00.005Z" "warn" "slow" None]))
  = ["prod"; "prod"].
Proof. vm_compute. reflexivity. Qed.

(** ** Propagation of the trace context *)

Lemma started_headers (traceId spanId name : string) :
  let t := {| NodeSdk.traceId := traceId; NodeSdk.spanId := spanId;
              NodeSdk.t_name := name; NodeSdk.t_origin := NodeSdk.Started |} in
  NodeSdk.trace_headers t !! "x-trace-id" = Some traceId
  ∧ NodeSdk.trace_headers t !! "x-span-id" = Some spanId
  ∧ NodeSdk.trace_headers t !! "x-parent-span-id" = None.
Proof. cbv zeta. unfold NodeSdk.trace_headers. simpl. by simplify_map_eq. Qed.

Lemma continued_headers (traceId spanId name : string) (parent : option string) :
  let t := {| NodeSdk.traceId := traceId; NodeSdk.spanId := spanId;
              NodeSdk.t_name := name;
              NodeSdk.t_origin := NodeSdk.Continued parent |} in
  NodeSdk.trace_headers t !! "x-trace-id" = Some traceId
  ∧ NodeSdk.trace_headers t !! "x-span-id" = Some spanId
  ∧ NodeSdk.trace_headers t !! "x-parent-span-id" = Some (Js.str_or parent "").
Proof. cbv zeta. unfold NodeSdk.trace_headers. simpl. by simplify_map_eq. Qed.

Lemma span_headers_lookup (s : NodeSdk.SpanContext) :
  NodeSdk.span_headers s !! "x-trace-id" = Some (NodeSdk.span_traceId s)
  ∧ NodeSdk.span_headers s !! "x-span-id" = Some (NodeSdk.span_spanId s)
  ∧ NodeSdk.span_headers s !! "x-parent-span-id" = Some (NodeSdk.span_parentSpanId s).
Proof. unfold NodeSdk.span_headers. by simplify_map_eq. Qed.

Lemma str_or_nonempty (v d : string) : v ≠ "" → Js.str_or (Some v) d = v.
Proof. intros H. unfold Js.str_or. apply String.eqb_neq in H. now rewrite H. Qed.

Lemma truthy_nonempty (v : string) : v ≠ "" → Js.truthy (Some v) = true.
Proof. intros H. unfold Js.truthy. apply String.eqb_neq in H. now rewrite H. Qed.

(** What [startTrace] returns: the next two draws. *)
Lemma startTrace_context (uuid : nat → string) (opts : NodeSdk.LogstreamOptions)
    (timestamp name : string) (st : NodeSdk.State) :
  fst (NodeSdk.startTrace uuid opts timestamp name st)
  = {| NodeSdk.traceId := uuid (NodeSdk.draws st);
       NodeSdk.spanId := uuid (S (NodeSdk.draws st));
       NodeSdk.t_name := name; NodeSdk.t_origin := NodeSdk.Started |}.
Proof. reflexivity. Qed.

Lemma log_draws (opts : NodeSdk.LogstreamOptions) (timestamp level message : string)
    (extra : option NodeSdk.LogMeta) (st : NodeSdk.State) :
  NodeSdk.draws (NodeSdk.log opts timestamp level message extra st)
  = NodeSdk.draws st.
Proof.
  unfold NodeSdk.log. cbv zeta.
  match goal with |- context [if ?b then _ else _] => destruct b end;
    [| reflexivity].
  unfold NodeSdk.flush.
  match goal with |- context [if ?b then _ else _] => destruct b end; reflexivity.
Qed.

Lemma startTrace_draws (uuid : nat → string) (opts : NodeSdk.LogstreamOptions)
    (timestamp name : string) (st : NodeSdk.State) :
  NodeSdk.draws (snd (NodeSdk.startTrace uuid opts timestamp name st))
  = S (S (NodeSdk.draws st)).
Proof. unfold NodeSdk.startTrace. simpl. now rewrite log_draws. Qed.

(** What [continueTrace] returns when the headers carry a trace id that
    is not empty: that id, one new draw, and the span id it read. *)
Lemma continueTrace_context (uuid : nat → string) (opts : NodeSdk.LogstreamOptions)
    (timestamp name : string) (headers : gmap string string) (id : string)
    (st : NodeSdk.State) :
  headers !! "x-trace-id" = Some id → id ≠ "" →
  fst (NodeSdk.continueTrace uuid opts timestamp headers name st)
  = {| NodeSdk.traceId := id;
       NodeSdk.spanId := uuid (NodeSdk.draws st);
       NodeSdk.t_name := name;
       NodeSdk.t_origin := NodeSdk.Continued (headers !! "x-span-id") |}
  ∧ NodeSdk.draws (snd (NodeSdk.continueTrace uuid opts timestamp headers name st))
    = S (NodeSdk.draws st).
Proof.
  intros Hid Hne. unfold NodeSdk.continueTrace.
  rewrite Hid, (truthy_nonempty id Hne), (str_or_nonempty id "" Hne). simpl.
  now rewrite log_draws.
Qed.

(** C9. A trace started by one logger and continued by another from its
    headers keeps its trace id; the continued context has a span id that
    is a new draw of the receiver, and its headers name the span of the
    sender as parent. A child span carries the trace id of its parent,
    the span id of the parent as parent, and a new draw as its own id.
    Identifiers are never empty. *)
Theorem trace_context_round_trip (uuid1 uuid2 : nat → string)
    (opts1 opts2 : NodeSdk.LogstreamOptions) (ts1 ts2 name name2 : string)
    (st1 st2 : NodeSdk.State) :
  (∀ n, uuid1 n ≠ "") →
  let t := fst (NodeSdk.startTrace uuid1 opts1 ts1 name st1) in
  let continued :=
    NodeSdk.continueTrace uuid2 opts2 ts2 (NodeSdk.trace_headers t) name2 st2 in
  let t2 := fst continued in
  NodeSdk.traceId t2 = NodeSdk.traceId t
  ∧ NodeSdk.spanId t2 = uuid2 (NodeSdk.draws st2)
  ∧ NodeSdk.draws (snd continued) = S (NodeSdk.draws st2)
  ∧ NodeSdk.trace_headers t2 !! "x-trace-id" = Some (NodeSdk.traceId t)
  ∧ NodeSdk.trace_headers t2 !! "x-parent-span-id" = Some (NodeSdk.spanId t)
  ∧ (uuid2 = uuid1 → (∀ i j, uuid1 i = uuid1 j → i = j) →
     (NodeSdk.draws (snd (NodeSdk.startTrace uuid1 opts1 ts1 name st1))
      ≤ NodeSdk.draws st2)%nat →
     NodeSdk.spanId t2 ≠ NodeSdk.spanId t ∧ NodeSdk.spanId t2 ≠ NodeSdk.traceId t)
  ∧ ∀ (uuid : nat → string) (opts : NodeSdk.LogstreamOptions) (ts child : string)
      (parent : NodeSdk.TraceContext) (st : NodeSdk.State),
      let s := fst (NodeSdk.span uuid opts ts parent child st) in
      NodeSdk.span_traceId s = NodeSdk.traceId parent
      ∧ NodeSdk.span_parentSpanId s = NodeSdk.spanId parent
      ∧ NodeSdk.span_spanId s = uuid (NodeSdk.draws st)
      ∧ NodeSdk.span_headers s !! "x-trace-id" = Some (NodeSdk.traceId parent)
      ∧ NodeSdk.span_headers s !! "x-parent-span-id" = Some (NodeSdk.spanId parent).
Proof.
  intros Hne. cbv zeta. rewrite startTrace_context.
  set (t := {| NodeSdk.traceId := uuid1 (NodeSdk.draws st1) |}).
  destruct (started_headers (uuid1 (NodeSdk.draws st1))
              (uuid1 (S (NodeSdk.draws st1))) name) as (Hid & Hspan & _).
  fold t in Hid, Hspan.
  destruct (continueTrace_context uuid2 opts2 ts2 name2 (NodeSdk.trace_headers t)
              _ st2 Hid (Hne _)) as [Ht2 Hdraws].
  rewrite Ht2, Hdraws, Hspan.
  destruct (continued_headers (uuid1 (NodeSdk.draws st1))
              (uuid2 (NodeSdk.draws st2)) name2
              (Some (uuid1 (S (NodeSdk.draws st1))))) as (Hid2 & _ & Hparent2).
  cbv zeta in Hid2, Hparent2. rewrite (str_or_nonempty _ "" (Hne _)) in Hparent2.
  split; [reflexivity |]. split; [reflexivity |]. split; [reflexivity |].
  split; [exact Hid2 |]. split; [exact Hparent2 |]. split.
  - intros -> Hinj Hle. rewrite startTrace_draws in Hle. cbn.
    split; intros E; apply Hinj in E; lia.
  - intros uuid opts ts child parent st.
    pose proof (span_headers_lookup (fst (NodeSdk.span uuid opts ts parent child st)))
      as (Hs1 & _ & Hs3).
    repeat split; assumption.
Qed.

(** A checkout trace continued by the service that charges. *)
Lemma trace_context_round_trip_witness :
  (∀ n, Sample.uuid n ≠ "")
  ∧ NodeSdk.traceId Sample.received = NodeSdk.traceId Sample.started
  ∧ NodeSdk.trace_headers Sample.received !! "x-parent-span-id"
    = Some (NodeSdk.spanId Sample.started).
Proof.
  assert (Hne : ∀ n, Sample.uuid n ≠ "") by (intros n; discriminate).
  split; [exact Hne |].
  pose proof (trace_context_round_trip Sample.uuid Sample.uuid_b
                (Sample.node_opts None) (Sample.node_opts (Some "prod"))
                "2026-01-01T00:00:00.000Z" "2026-01-01T00:00:00.020Z"
                "checkout" "charge" NodeSdk.initial NodeSdk.initial Hne) as H.
  cbv zeta in H. destruct H as (H1 & _ & _ & _ & H5 & _).
  split; [exact H1 | exact H5].
Defined.

Example continued_trace_ids :
  NodeSdk.traceId Sample.started = "u0"
  ∧ NodeSdk.spanId Sample.started = "u1"
  ∧ NodeSdk.traceId Sample.received = "u0"
  ∧ NodeSdk.spanId Sample.received = "v0"
  ∧ NodeSdk.trace_headers Sample.received !! "x-parent-span-id" = Some "u1".
Proof. vm_compute. repeat split. Qed.

(** * Further properties of the Node SDK *)

Local Open Scope list_scope.

Section NodeQueue.

Variable uuid : nat → string.
Variable opts : NodeSdk.LogstreamOptions.

(** What [flush] does: nothing, when the socket is closed or the queue
    is empty; otherwise it sends the whole queue as one batch. *)
Lemma node_flush_cases (st : NodeSdk.State) :
  ((NodeSdk.connected st = false ∨ NodeSdk.queue st = []) ∧ NodeSdk.flush st = st)
  ∨ (NodeSdk.connected st = true ∧ NodeSdk.queue st ≠ []
     ∧ NodeSdk.flush st
       = {| NodeSdk.connected := true; NodeSdk.queue := [];
            NodeSdk.sent := NodeSdk.sent st ++ [NodeSdk.queue st];
            NodeSdk.draws := NodeSdk.draws st |}).
Proof.
  unfold NodeSdk.flush. destruct (NodeSdk.connected st) eqn:Hc; simpl.
  - destruct (NodeSdk.queue st) as [|e q] eqn:Hq; simpl.
    + left. split; [now right | reflexivity].
    + right. repeat split. discriminate.
  - left. split; [now left | reflexivity].
Qed.

(** What [log] does to the queue and to the batches sent. *)
Lemma node_log_cases (timestamp level message : string)
    (extra : option NodeSdk.LogMeta) (st : NodeSdk.State) :
  let entry := NodeSdk.new_entry opts timestamp level message extra in
  let st' := NodeSdk.log opts timestamp level message extra st in
  NodeSdk.connected st' = NodeSdk.connected st
  ∧ NodeSdk.draws st' = NodeSdk.draws st
  ∧ ((NodeSdk.queue st' = NodeSdk.queue st ++ [entry]
      ∧ NodeSdk.sent st' = NodeSdk.sent st
      ∧ (NodeSdk.connected st = false
         ∨ Z.of_nat (length (NodeSdk.queue st ++ [entry])) < NodeSdk.batch_size opts))
     ∨ (NodeSdk.connected st = true
        ∧ NodeSdk.batch_size opts ≤ Z.of_nat (length (NodeSdk.queue st ++ [entry]))
        ∧ NodeSdk.queue st' = []
        ∧ NodeSdk.sent st' = NodeSdk.sent st ++ [NodeSdk.queue st ++ [entry]])).
Proof.
  cbv zeta. unfold NodeSdk.log. cbv zeta.
  cbn [NodeSdk.queue NodeSdk.connected NodeSdk.sent NodeSdk.draws].
  destruct (Z.leb_spec (NodeSdk.batch_size opts)
              (Z.of_nat (length (NodeSdk.queue st
                 ++ [NodeSdk.new_entry opts timestamp level message extra]))))
    as [Hfull | Hroom].
  - match goal with |- context [NodeSdk.flush ?s] =>
      destruct (node_flush_cases s) as [[Hidle ->] | (Hc & Hq & ->)] end;
      cbn [NodeSdk.queue NodeSdk.connected NodeSdk.sent NodeSdk.draws] in *.
    + split; [reflexivity |]. split; [reflexivity |]. left.
      split; [reflexivity |]. split; [reflexivity |]. left.
      destruct Hidle as [Hc | Hq]; [exact Hc |]. now destruct (NodeSdk.queue st).
    + split; [now rewrite Hc |]. split; [reflexivity |]. right. now repeat split.
  - cbn [NodeSdk.queue NodeSdk.connected NodeSdk.sent NodeSdk.draws].
    split; [reflexivity |]. split; [reflexivity |]. left.
    split; [reflexivity |]. split; [reflexivity |]. now right.
Qed.

(** The three operations on traces that draw identifiers end in a call
    of [log] on a state that differs from the one before in the number of
    draws only. *)
Lemma node_step_as_log (st : NodeSdk.State) (op : NodeSdk.Op) :
  Spec.node_logs op = true →
  ∃ timestamp level message extra (n : nat),
    NodeSdk.step uuid opts st op
    = NodeSdk.log opts timestamp level message extra
        {| NodeSdk.connected := NodeSdk.connected st;
           NodeSdk.queue := NodeSdk.queue st;
           NodeSdk.sent := NodeSdk.sent st;
           NodeSdk.draws := (NodeSdk.draws st + n)%nat |}.
Proof.
  assert (Hst : ∀ s : NodeSdk.State,
    s = {| NodeSdk.connected := NodeSdk.connected s; NodeSdk.queue := NodeSdk.queue s;
           NodeSdk.sent := NodeSdk.sent s;
           NodeSdk.draws := (NodeSdk.draws s + 0)%nat |}).
  { intros [c q s d]. simpl. now rewrite Nat.add_0_r. }
  destruct op; simpl; intros Hlogs; try discriminate.
  - do 4 eexists. exists 0%nat. now rewrite <- Hst.
  - unfold NodeSdk.startTrace. simpl. do 4 eexists. exists 2%nat.
    now replace (NodeSdk.draws st + 2)%nat with (S (S (NodeSdk.draws st))) by lia.
  - unfold NodeSdk.continueTrace.
    destruct (Js.truthy (headers !! "x-trace-id")); simpl.
    + do 4 eexists. exists 1%nat.
      now replace (NodeSdk.draws st + 1)%nat with (S (NodeSdk.draws st)) by lia.
    + do 4 eexists. exists 2%nat.
      now replace (NodeSdk.draws st + 2)%nat with (S (S (NodeSdk.draws st))) by lia.
  - unfold NodeSdk.span. simpl. do 4 eexists. exists 1%nat.
    now replace (NodeSdk.draws st + 1)%nat with (S (NodeSdk.draws st)) by lia.
  - unfold NodeSdk.trace_end. do 4 eexists. exists 0%nat. now rewrite <- Hst.
  - unfold NodeSdk.span_end. do 4 eexists. exists 0%nat. now rewrite <- Hst.
Qed.

End NodeQueue.

Lemma fold_left_invariant {S O : Type} (step : S → O → S) (P : S → Prop) :
  (∀ s o, P s → P (step s o)) →
  ∀ ops s, P s → P (fold_left step ops s).
Proof.
  intros Hstep ops. induction ops as [|o ops IH]; intros s Hs; simpl; [exact Hs |].
  apply IH, Hstep, Hs.
Qed.

Section NodeBatches.

Variable uuid : nat → string.
Variable opts : NodeSdk.LogstreamOptions.

Lemma node_sent_step (st : NodeSdk.State) (op : NodeSdk.Op) :
  NodeSdk.sent (NodeSdk.step uuid opts st op) = NodeSdk.sent st
  ∨ ∃ batch, batch ≠ []
      ∧ NodeSdk.sent (NodeSdk.step uuid opts st op) = NodeSdk.sent st ++ [batch].
Proof.
  destruct (Spec.node_logs op) eqn:Hlogs.
  - destruct (node_step_as_log uuid opts st op Hlogs)
      as (ts & lv & msg & extra & n & ->).
    match goal with |- context [NodeSdk.log opts ts lv msg extra ?s] =>
      destruct (node_log_cases opts ts lv msg extra s)
        as (_ & _ & [(_ & Hs & _) | (_ & _ & _ & Hs)]) end;
      rewrite Hs; cbn [NodeSdk.sent NodeSdk.queue]; [now left | right].
    eexists. split; [| reflexivity]. now destruct (NodeSdk.queue st).
  - destruct op; try discriminate Hlogs; simpl.
    + destruct (node_flush_cases st) as [[_ ->] | (_ & Hq & ->)]; [now left | right].
      now exists (NodeSdk.queue st).
    + unfold NodeSdk.on_open.
      match goal with |- context [NodeSdk.flush ?s] =>
        destruct (node_flush_cases s) as [[_ ->] | (_ & Hq & ->)] end;
        cbn [NodeSdk.sent NodeSdk.queue] in *; [now left | right].
      now exists (NodeSdk.queue st).
    + now left.
Qed.

(** X13. The logger never sends an empty batch: whatever is done with
    it, every batch it has given to the socket holds at least one entry. *)
Theorem node_batches_not_empty (ops : list NodeSdk.Op) :
  Forall (λ batch, batch ≠ []) (NodeSdk.sent (NodeSdk.run uuid opts ops)).
Proof.
  unfold NodeSdk.run.
  apply (fold_left_invariant (NodeSdk.step uuid opts)
           (λ st, Forall (λ batch, batch ≠ []) (NodeSdk.sent st))).
  - intros st op Hst.
    destruct (node_sent_step st op) as [-> | (b & Hb & ->)]; [exact Hst |].
    apply Forall_app. split; [exact Hst | now constructor].
  - constructor.
Qed.

End NodeBatches.

Example node_batches_of_a_run :
  map (map NodeSdk.e_message)
    (NodeSdk.sent
       (NodeSdk.run Sample.uuid (Sample.node_opts None)
          [NodeSdk.OpLog "t1" "info" "one" None;
           NodeSdk.OpFlush;
           NodeSdk.OpLog "t2" "info" "two" None;
           NodeSdk.OpOpen;
           NodeSdk.OpFlush;
           NodeSdk.OpLog "t3" "info" "three" None;
           NodeSdk.OpFlush]))
  = [["one"; "two"]; ["three"]].
Proof. vm_compute. reflexivity. Qed.

Section NodeDelivery.

Variable uuid : nat → string.
Variable opts : NodeSdk.LogstreamOptions.

Lemma node_emitted_step_new (st : NodeSdk.State) (op : NodeSdk.Op) :
  ∃ new,
    NodeSdk.emitted (NodeSdk.step uuid opts st op) = NodeSdk.emitted st ++ new
    ∧ length new = (if Spec.node_logs op then 1 else 0)%nat.
Proof.
  destruct (Spec.node_logs op) eqn:Hlogs.
  - destruct (node_step_as_log uuid opts st op Hlogs)
      as (ts & lv & msg & extra & n & ->).
    rewrite node_emitted_log. eexists. split; reflexivity.
  - exists []. rewrite app_nil_r. split; [| reflexivity].
    destruct op; try discriminate Hlogs; simpl.
    + apply node_emitted_flush.
    + unfold NodeSdk.on_open. now rewrite node_emitted_flush.
    + reflexivity.
Qed.

Lemma node_emitted_fold (ops : list NodeSdk.Op) (st : NodeSdk.State) :
  ∃ new,
    NodeSdk.emitted (fold_left (NodeSdk.step uuid opts) ops st)
    = NodeSdk.emitted st ++ new
    ∧ length new = length (List.filter Spec.node_logs ops).
Proof.
  revert st. induction ops as [|op ops IH]; intros st; simpl.
  - exists []. now rewrite app_nil_r.
  - destruct (IH (NodeSdk.step uuid opts st op)) as (new2 & -> & Hlen2).
    destruct (node_emitted_step_new st op) as (new1 & -> & Hlen1).
    exists (new1 ++ new2). rewrite <- app_assoc. split; [reflexivity |].
    rewrite length_app, Hlen1, Hlen2.
    destruct (Spec.node_logs op); simpl; lia.
Qed.

(** X14. The logger loses nothing and keeps the order: the entries it
    holds or has sent after more operations start with the entries it
    held or had sent before, and there is one entry for each operation
    that logs, whether the socket was open or not. *)
Theorem node_entries_never_lost (ops more : list NodeSdk.Op) :
  (∃ new,
     NodeSdk.emitted (NodeSdk.run uuid opts (ops ++ more))
     = NodeSdk.emitted (NodeSdk.run uuid opts ops) ++ new)
  ∧ length (NodeSdk.emitted (NodeSdk.run uuid opts ops))
    = length (List.filter Spec.node_logs ops).
Proof.
  unfold NodeSdk.run. split.
  - rewrite fold_left_app.
    destruct (node_emitted_fold more
                (fold_left (NodeSdk.step uuid opts) ops NodeSdk.initial))
      as (new & Hnew & _).
    now exists new.
  - destruct (node_emitted_fold ops NodeSdk.initial) as (new & -> & Hlen).
    exact Hlen.
Qed.

Lemma queue_below_batch_flush (st : NodeSdk.State) :
  Spec.queue_below_batch opts st → Spec.queue_below_batch opts (NodeSdk.flush st).
Proof.
  intros Hst. destruct (node_flush_cases st) as [[_ ->] | (_ & _ & ->)];
    [exact Hst |].
  intros _. simpl. lia.
Qed.

Lemma queue_below_batch_step (st : NodeSdk.State) (op : NodeSdk.Op) :
  Spec.queue_below_batch opts st → Spec.queue_below_batch opts (NodeSdk.step uuid opts st op).
Proof.
  intros Hst. destruct (Spec.node_logs op) eqn:Hlogs.
  - destruct (node_step_as_log uuid opts st op Hlogs)
      as (ts & lv & msg & extra & n & ->).
    match goal with |- context [NodeSdk.log opts ts lv msg extra ?s] =>
      destruct (node_log_cases opts ts lv msg extra s)
        as (Hc & _ & [(Hq & _ & Hroom) | (_ & _ & Hq & _)]) end;
      unfold Spec.queue_below_batch; rewrite Hc, Hq;
      cbn [NodeSdk.connected NodeSdk.queue] in *; intros Hopen.
    + destruct Hroom as [Hclosed | Hroom]; [congruence | lia].
    + simpl. lia.
  - destruct op; try discriminate Hlogs; simpl.
    + now apply queue_below_batch_flush.
    + unfold NodeSdk.on_open.
      match goal with |- context [NodeSdk.flush ?s] =>
        destruct (node_flush_cases s) as [[[Hc | Hq] ->] | (_ & _ & ->)] end;
        cbn [NodeSdk.connected NodeSdk.queue] in *; intros _; simpl;
        [discriminate | rewrite Hq; simpl; lia | lia].
    + intros Hopen. discriminate Hopen.
Qed.

(** X15. While the socket is open, the queue stays below the size of a
    batch (below one entry when that size is not positive): an entry
    that fills the batch is sent at once. *)
Theorem node_queue_bounded (ops : list NodeSdk.Op) :
  NodeSdk.connected (NodeSdk.run uuid opts ops) = true →
  Z.of_nat (length (NodeSdk.queue (NodeSdk.run uuid opts ops)))
  < Z.max 1 (NodeSdk.batch_size opts).
Proof.
  unfold NodeSdk.run.
  apply (fold_left_invariant (NodeSdk.step uuid opts) (Spec.queue_below_batch opts)).
  - apply queue_below_batch_step.
  - intros Hopen. discriminate Hopen.
Qed.

End NodeDelivery.

(** An open logger with batches of two, after three entries. *)
Lemma node_queue_bounded_witness :
  NodeSdk.connected (NodeSdk.run Sample.uuid Sample.small_batches Sample.three_logs)
  = true
  ∧ Z.of_nat
      (length (NodeSdk.queue
                 (NodeSdk.run Sample.uuid Sample.small_batches Sample.three_logs)))
    < Z.max 1 (NodeSdk.batch_size Sample.small_batches).
Proof.
  assert (H : NodeSdk.connected
                (NodeSdk.run Sample.uuid Sample.small_batches Sample.three_logs)
              = true) by reflexivity.
  split; [exact H |].
  exact (node_queue_bounded Sample.uuid Sample.small_batches Sample.three_logs H).
Defined.

Example node_queue_after_three_logs :
  map NodeSdk.e_message
    (NodeSdk.queue (NodeSdk.run Sample.uuid Sample.small_batches Sample.three_logs))
  = ["three"]
  ∧ map (map NodeSdk.e_message)
      (NodeSdk.sent (NodeSdk.run Sample.uuid Sample.small_batches Sample.three_logs))
    = [["one"; "two"]].
Proof. vm_compute. split; reflexivity. Qed.

Section NodeOffline.

Variable uuid : nat → string.
Variable opts : NodeSdk.LogstreamOptions.

Lemma node_offline_step (st : NodeSdk.State) (op : NodeSdk.Op) :
  Spec.is_open op = false →
  NodeSdk.connected st = false ∧ NodeSdk.sent st = [] →
  NodeSdk.connected (NodeSdk.step uuid opts st op) = false
  ∧ NodeSdk.sent (NodeSdk.step uuid opts st op) = [].
Proof.
  intros Hop [Hc Hs]. destruct (Spec.node_logs op) eqn:Hlogs.
  - destruct (node_step_as_log uuid opts st op Hlogs)
      as (ts & lv & msg & extra & n & ->).
    match goal with |- context [NodeSdk.log opts ts lv msg extra ?s] =>
      destruct (node_log_cases opts ts lv msg extra s)
        as (Hc' & _ & [(_ & Hs' & _) | (Hopen & _)]) end;
      cbn [NodeSdk.connected NodeSdk.sent] in *; [| congruence].
    now rewrite Hc', Hs'.
  - destruct op; try discriminate; simpl.
    + destruct (node_flush_cases st) as [[_ ->] | (Hopen & _)]; [now split | congruence].
    + now split.
Qed.

Lemma node_offline_fold (ops : list NodeSdk.Op) (st : NodeSdk.State) :
  forallb (λ op, negb (Spec.is_open op)) ops = true →
  NodeSdk.connected st = false ∧ NodeSdk.sent st = [] →
  NodeSdk.connected (fold_left (NodeSdk.step uuid opts) ops st) = false
  ∧ NodeSdk.sent (fold_left (NodeSdk.step uuid opts) ops st) = [].
Proof.
  revert st. induction ops as [|op ops IH]; intros st Hops Hst; simpl; [exact Hst |].
  simpl in Hops. apply andb_true_iff in Hops as [Hop Hops].
  apply IH; [exact Hops |]. apply node_offline_step; [| exact Hst].
  now apply negb_true_iff.
Qed.

(** X16. Until its socket opens, the logger sends nothing and queues
    every entry, however many there are; when the socket opens, it sends
    all of them at once, in the order in which they were logged, and the
    queue is empty. *)
Theorem node_offline_entries_sent_on_open (ops : list NodeSdk.Op) :
  forallb (λ op, negb (Spec.is_open op)) ops = true →
  let offline := NodeSdk.run uuid opts ops in
  NodeSdk.sent offline = []
  ∧ length (NodeSdk.queue offline) = length (List.filter Spec.node_logs ops)
  ∧ (NodeSdk.queue offline ≠ [] →
     NodeSdk.sent (NodeSdk.run uuid opts (ops ++ [NodeSdk.OpOpen]))
     = [NodeSdk.queue offline]
     ∧ NodeSdk.queue (NodeSdk.run uuid opts (ops ++ [NodeSdk.OpOpen])) = []).
Proof.
  intros Hops. cbv zeta.
  destruct (node_offline_fold ops NodeSdk.initial Hops (conj eq_refl eq_refl))
    as [Hc Hs].
  fold (NodeSdk.run uuid opts ops) in Hc, Hs.
  split; [exact Hs |]. split.
  - destruct (node_emitted_fold uuid opts ops NodeSdk.initial) as (new & Hnew & <-).
    fold (NodeSdk.run uuid opts ops) in Hnew. unfold NodeSdk.emitted in Hnew.
    rewrite Hs in Hnew. simpl in Hnew. now rewrite Hnew.
  - intros Hq. unfold NodeSdk.run. rewrite fold_left_app. simpl.
    fold (NodeSdk.run uuid opts ops). unfold NodeSdk.on_open.
    match goal with |- context [NodeSdk.flush ?s] =>
      destruct (node_flush_cases s) as [[[Hclosed | Hempty] _] | (_ & _ & ->)] end;
      cbn [NodeSdk.connected NodeSdk.queue NodeSdk.sent] in *;
      [discriminate | contradiction |].
    now rewrite Hs.
Qed.

End NodeOffline.

(** A warning and an error logged before the socket opens. *)
Lemma node_offline_entries_sent_on_open_witness :
  NodeSdk.sent (NodeSdk.run Sample.uuid (Sample.node_opts None) Sample.two_offline)
  = []
  ∧ length (NodeSdk.queue
              (NodeSdk.run Sample.uuid (Sample.node_opts None) Sample.two_offline))
    = 2%nat
  ∧ map (map NodeSdk.e_message)
      (NodeSdk.sent
         (NodeSdk.run Sample.uuid (Sample.node_opts None)
            (Sample.two_offline ++ [NodeSdk.OpOpen])))
    = [["slow"; "down"]].
Proof.
  destruct (node_offline_entries_sent_on_open Sample.uuid (Sample.node_opts None)
              Sample.two_offline eq_refl) as (H1 & H2 & H3).
  split; [exact H1 |]. split; [exact H2 |].
  rewrite (proj1 (H3 ltac:(discriminate))). reflexivity.
Defined.

(** ** Traces *)

Lemma truthy_false_str_or (o : option string) (d : string) :
  Js.truthy o = false → Js.str_or o d = d.
Proof.
  unfold Js.truthy, Js.str_or. destruct o as [v|]; [| reflexivity].
  now destruct (String.eqb v "").
Qed.

(** X17. Headers that carry no trace id, or an empty one, start a new
    trace: the trace id and the span id are the next two draws; the
    parent the new context reports in its own headers is the span id it
    was given, and the empty string when it was given none. *)
Theorem continueTrace_without_trace_id (uuid : nat → string)
    (opts : NodeSdk.LogstreamOptions) (timestamp name : string)
    (headers : gmap string string) (st : NodeSdk.State) :
  Spec.given (headers !! "x-trace-id") = None →
  let continued := NodeSdk.continueTrace uuid opts timestamp headers name st in
  let t := fst continued in
  NodeSdk.traceId t = uuid (NodeSdk.draws st)
  ∧ NodeSdk.spanId t = uuid (S (NodeSdk.draws st))
  ∧ NodeSdk.draws (snd continued) = S (S (NodeSdk.draws st))
  ∧ NodeSdk.trace_headers t !! "x-trace-id" = Some (uuid (NodeSdk.draws st))
  ∧ NodeSdk.trace_headers t !! "x-parent-span-id"
    = Some match Spec.given (headers !! "x-span-id") with
           | Some parent => parent
           | None => ""
           end
  ∧ (Spec.given (headers !! "x-span-id") = None →
     NodeSdk.trace_headers t !! "x-parent-span-id" = Some "").
Proof.
  intros Hid. apply given_none in Hid.
  cbv zeta. unfold NodeSdk.continueTrace. rewrite Hid. simpl.
  rewrite log_draws. simpl.
  destruct (continued_headers (uuid (NodeSdk.draws st))
              (uuid (S (NodeSdk.draws st))) name (headers !! "x-span-id"))
    as (H1 & _ & H3).
  cbv zeta in H1, H3. rewrite str_or_given in H3.
  repeat split; try assumption.
  intros Hspan. now rewrite H3, Hspan.
Qed.

(** A request that carries no headers of a trace. *)
Lemma continueTrace_without_trace_id_witness :
  Spec.given ((∅ : gmap string string) !! "x-trace-id") = None
  ∧ NodeSdk.traceId
      (fst (NodeSdk.continueTrace Sample.uuid (Sample.node_opts None) "t" ∅
              "GET /" NodeSdk.initial))
    = Sample.uuid 0
  ∧ NodeSdk.spanId
      (fst (NodeSdk.continueTrace Sample.uuid (Sample.node_opts None) "t" ∅
              "GET /" NodeSdk.initial))
    = Sample.uuid 1.
Proof.
  assert (H : Spec.given ((∅ : gmap string string) !! "x-trace-id") = None)
    by reflexivity.
  split; [exact H |].
  destruct (continueTrace_without_trace_id Sample.uuid (Sample.node_opts None)
              "t" "GET /" ∅ NodeSdk.initial H) as (H1 & H2 & _).
  split; [exact H1 | exact H2].
Defined.

(** X18. A trace continued from the headers of a child span keeps the
    trace id of the span, and the parent it reports is that span. *)
Theorem span_headers_round_trip (uuid1 uuid2 : nat → string)
    (opts1 opts2 : NodeSdk.LogstreamOptions) (ts1 ts2 child name : string)
    (parent : NodeSdk.TraceContext) (st1 st2 : NodeSdk.State) :
  NodeSdk.traceId parent ≠ "" →
  uuid1 (NodeSdk.draws st1) ≠ "" →
  let s := fst (NodeSdk.span uuid1 opts1 ts1 parent child st1) in
  let t := fst (NodeSdk.continueTrace uuid2 opts2 ts2 (NodeSdk.span_headers s)
                  name st2) in
  NodeSdk.traceId t = NodeSdk.traceId parent
  ∧ NodeSdk.spanId t = uuid2 (NodeSdk.draws st2)
  ∧ NodeSdk.trace_headers t !! "x-trace-id" = Some (NodeSdk.traceId parent)
  ∧ NodeSdk.trace_headers t !! "x-parent-span-id" = Some (NodeSdk.span_spanId s)
  ∧ NodeSdk.span_parentSpanId s = NodeSdk.spanId parent.
Proof.
  intros Htrace Hspan. cbv zeta.
  set (s := fst (NodeSdk.span uuid1 opts1 ts1 parent child st1)).
  assert (Hs : NodeSdk.span_traceId s = NodeSdk.traceId parent
               ∧ NodeSdk.span_spanId s = uuid1 (NodeSdk.draws st1)
               ∧ NodeSdk.span_parentSpanId s = NodeSdk.spanId parent)
    by (repeat split).
  destruct Hs as (Hs1 & Hs2 & Hs3).
  destruct (span_headers_lookup s) as (Hh1 & Hh2 & _).
  rewrite Hs1 in Hh1. 
  destruct (continueTrace_context uuid2 opts2 ts2 name (NodeSdk.span_headers s)
              (NodeSdk.traceId parent) st2 Hh1 Htrace) as [-> _].
  rewrite Hh2.
  destruct (continued_headers (NodeSdk.traceId parent) (uuid2 (NodeSdk.draws st2))
              name (Some (NodeSdk.span_spanId s))) as (H1 & _ & H3).
  cbv zeta in H1, H3. rewrite str_or_nonempty in H3 by (now rewrite Hs2).
  repeat split; assumption.
Qed.

(** The checkout trace, its span for the payment, and the service that
    charges. *)
Lemma span_headers_round_trip_witness :
  (NodeSdk.traceId Sample.started ≠ "" ∧ Sample.uuid 2 ≠ "")
  ∧ NodeSdk.traceId
      (fst (NodeSdk.continueTrace Sample.uuid_b (Sample.node_opts None) "t2"
              (NodeSdk.span_headers Sample.payment_span) "charge" NodeSdk.initial))
    = NodeSdk.traceId Sample.started
  ∧ NodeSdk.trace_headers
      (fst (NodeSdk.continueTrace Sample.uuid_b (Sample.node_opts None) "t2"
              (NodeSdk.span_headers Sample.payment_span) "charge" NodeSdk.initial))
    !! "x-parent-span-id"
    = Some (NodeSdk.span_spanId Sample.payment_span).
Proof.
  assert (H1 : NodeSdk.traceId Sample.started ≠ "") by discriminate.
  assert (H2 : Sample.uuid 2 ≠ "") by discriminate.
  split; [now split |].
  destruct (span_headers_round_trip Sample.uuid Sample.uuid_b
              (Sample.node_opts None) (Sample.node_opts None) "t1" "t2"
              "payment.charge" "charge" Sample.started Sample.after_start
              NodeSdk.initial H1 H2) as (Ha & _ & _ & Hb & _).
  split; [exact Ha | exact Hb].
Defined.

Lemma node_draws_step (uuid : nat → string) (opts : NodeSdk.LogstreamOptions)
    (st : NodeSdk.State) (op : NodeSdk.Op) :
  (NodeSdk.draws st ≤ NodeSdk.draws (NodeSdk.step uuid opts st op))%nat.
Proof.
  destruct (Spec.node_logs op) eqn:Hlogs.
  - destruct (node_step_as_log uuid opts st op Hlogs)
      as (ts & lv & msg & extra & n & ->).
    rewrite log_draws. simpl. lia.
  - destruct op; try discriminate Hlogs; simpl.
    + destruct (node_flush_cases st) as [[_ ->] | (_ & _ & ->)]; simpl; lia.
    + unfold NodeSdk.on_open.
      match goal with |- context [NodeSdk.flush ?s] =>
        destruct (node_flush_cases s) as [[_ ->] | (_ & _ & ->)] end; simpl; lia.
    + lia.
Qed.

Lemma node_draws_fold (uuid : nat → string) (opts : NodeSdk.LogstreamOptions)
    (ops : list NodeSdk.Op) (st : NodeSdk.State) :
  (NodeSdk.draws st ≤ NodeSdk.draws (fold_left (NodeSdk.step uuid opts) ops st))%nat.
Proof.
  revert st. induction ops as [|op ops IH]; intros st; simpl; [lia |].
  pose proof (node_draws_step uuid opts st op). pose proof (IH (NodeSdk.step uuid opts st op)).
  lia.
Qed.

(** X19. When the source of identifiers never repeats itself, the
    identifiers of one logger are all different: the trace id and the
    span id of a trace, the ids of two traces, whatever the logger did
    between them, and the id of a span opened later. *)
Theorem node_ids_distinct (uuid : nat → string) (opts : NodeSdk.LogstreamOptions)
    (ts1 name1 ts2 name2 ts3 child : string) (ops : list NodeSdk.Op)
    (st : NodeSdk.State) :
  (∀ i j, uuid i = uuid j → i = j) →
  let first := NodeSdk.startTrace uuid opts ts1 name1 st in
  let later := fold_left (NodeSdk.step uuid opts) ops (snd first) in
  let second := fst (NodeSdk.startTrace uuid opts ts2 name2 later) in
  let s := fst (NodeSdk.span uuid opts ts3 (fst first) child later) in
  NodeSdk.traceId (fst first) ≠ NodeSdk.spanId (fst first)
  ∧ NodeSdk.traceId second ≠ NodeSdk.traceId (fst first)
  ∧ NodeSdk.traceId second ≠ NodeSdk.spanId (fst first)
  ∧ NodeSdk.spanId second ≠ NodeSdk.traceId (fst first)
  ∧ NodeSdk.spanId second ≠ NodeSdk.spanId (fst first)
  ∧ NodeSdk.span_spanId s ≠ NodeSdk.traceId (fst first)
  ∧ NodeSdk.span_spanId s ≠ NodeSdk.spanId (fst first).
Proof.
  intros Hinj. cbv zeta.
  pose proof (node_draws_fold uuid opts ops
                (snd (NodeSdk.startTrace uuid opts ts1 name1 st))) as Hle.
  rewrite startTrace_draws in Hle.
  rewrite !startTrace_context. cbn [NodeSdk.traceId NodeSdk.spanId].
  change (NodeSdk.span_spanId (fst (NodeSdk.span uuid opts ts3 ?p child ?l)))
    with (uuid (NodeSdk.draws l)).
  repeat split; intros E; apply Hinj in E; lia.
Qed.

Lemma sample_uuid_inj (i j : nat) : Sample.uuid i = Sample.uuid j → i = j.
Proof. unfold Sample.uuid. intros E. injection E as E. now apply (inj pretty). Qed.

(** Two traces of one logger with a log between them. *)
Lemma node_ids_distinct_witness :
  NodeSdk.traceId
    (fst (NodeSdk.startTrace Sample.uuid (Sample.node_opts None) "t2" "refund"
            (NodeSdk.log (Sample.node_opts None) "t1" "info" "paid" None
               Sample.after_start)))
  ≠ NodeSdk.traceId Sample.started.
Proof.
  exact (proj1 (proj2 (node_ids_distinct Sample.uuid (Sample.node_opts None)
                         "2026-01-01T00:00:00.000Z" "checkout" "t2" "refund" "t3"
                         "payment.charge"
                         [NodeSdk.OpLog "t1" "info" "paid" None]
                         NodeSdk.initial sample_uuid_inj))).
Defined.

(** X20. The entry a child span logs when it starts names the trace, the
    span and, as parent, the span of its parent context; the entry it
    logs when it ends names the trace and the span, and names the parent
    only when the parent context was made by [startTrace]. *)
Theorem span_entries_link_to_parent (uuid : nat → string)
    (opts : NodeSdk.LogstreamOptions) (ts ts' child : string)
    (parent : NodeSdk.TraceContext) (st st' : NodeSdk.State) :
  NodeSdk.traceId parent ≠ "" → NodeSdk.spanId parent ≠ "" →
  uuid (NodeSdk.draws st) ≠ "" →
  let opened := NodeSdk.span uuid opts ts parent child st in
  let s := fst opened in
  (∃ e,
     NodeSdk.emitted (snd opened) = NodeSdk.emitted st ++ [e]
     ∧ NodeSdk.e_message e = ("span:start " ++ child)%string
     ∧ NodeSdk.e_level e = "info"
     ∧ NodeSdk.e_traceId e = Some (NodeSdk.traceId parent)
     ∧ NodeSdk.e_spanId e = Some (NodeSdk.span_spanId s)
     ∧ NodeSdk.e_parentSpanId e = Some (NodeSdk.spanId parent))
  ∧ ∃ e,
      NodeSdk.emitted (NodeSdk.span_end opts ts' s st') = NodeSdk.emitted st' ++ [e]
      ∧ NodeSdk.e_message e = ("span:end " ++ child)%string
      ∧ NodeSdk.e_traceId e = Some (NodeSdk.traceId parent)
      ∧ NodeSdk.e_spanId e = Some (NodeSdk.span_spanId s)
      ∧ NodeSdk.e_parentSpanId e
        = match NodeSdk.t_origin parent with
          | NodeSdk.Started => Some (NodeSdk.spanId parent)
          | NodeSdk.Continued _ => None
          end.
Proof.
  intros Htrace Hspan Hchild. cbv zeta.
  pose proof (truthy_nonempty _ Htrace) as Tt.
  pose proof (truthy_nonempty _ Hspan) as Ts.
  pose proof (truthy_nonempty _ Hchild) as Tc.
  split.
  - unfold NodeSdk.span. cbn [fst snd NodeSdk.randomUUID].
    rewrite node_emitted_log. eexists. split; [reflexivity |].
    unfold NodeSdk.new_entry, NodeSdk.pick.
    cbn [NodeSdk.e_message NodeSdk.e_level NodeSdk.e_traceId NodeSdk.e_spanId
         NodeSdk.e_parentSpanId NodeSdk.span_spanId NodeSdk.m_traceId
         NodeSdk.m_spanId NodeSdk.m_parentSpanId].
    rewrite Tt, Ts, Tc. repeat split.
  - unfold NodeSdk.span_end. rewrite node_emitted_log.
    eexists. split; [reflexivity |]. unfold NodeSdk.new_entry, NodeSdk.pick.
    cbn [NodeSdk.e_message NodeSdk.e_level NodeSdk.e_traceId NodeSdk.e_spanId
         NodeSdk.e_parentSpanId NodeSdk.span_spanId NodeSdk.span_traceId
         NodeSdk.span_name NodeSdk.span_origin NodeSdk.span_parentSpanId
         NodeSdk.span fst NodeSdk.randomUUID NodeSdk.m_traceId
         NodeSdk.m_spanId NodeSdk.m_parentSpanId].
    rewrite Tt, Tc.
    split; [reflexivity |]. split; [reflexivity |]. split; [reflexivity |].
    destruct (NodeSdk.t_origin parent); [now rewrite Ts | reflexivity].
Qed.

(** The span for the payment of the checkout trace. *)
Lemma span_entries_link_to_parent_witness :
  (NodeSdk.traceId Sample.started ≠ "" ∧ NodeSdk.spanId Sample.started ≠ ""
   ∧ Sample.uuid (NodeSdk.draws Sample.after_start) ≠ "")
  ∧ ∃ e,
      NodeSdk.emitted
        (snd (NodeSdk.span Sample.uuid (Sample.node_opts None) "t1" Sample.started
                "payment.charge" Sample.after_start))
      = NodeSdk.emitted Sample.after_start ++ [e]
      ∧ NodeSdk.e_traceId e = Some (NodeSdk.traceId Sample.started)
      ∧ NodeSdk.e_parentSpanId e = Some (NodeSdk.spanId Sample.started).
Proof.
  assert (H1 : NodeSdk.traceId Sample.started ≠ "") by discriminate.
  assert (H2 : NodeSdk.spanId Sample.started ≠ "") by discriminate.
  assert (H3 : Sample.uuid (NodeSdk.draws Sample.after_start) ≠ "") by discriminate.
  split; [now repeat split |].
  destruct (span_entries_link_to_parent Sample.uuid (Sample.node_opts None) "t1"
              "t9" "payment.charge" Sample.started Sample.after_start
              NodeSdk.initial H1 H2 H3) as [(e & He & _ & _ & Ht & _ & Hp) _].
  exists e. split; [exact He |]. split; [exact Ht | exact Hp].
Defined.

(** * Further properties of the browser SDK *)

Section Browser.

Variable opts : BrowserSdk.BrowserLoggerOptions.
Variable host : BrowserSdk.Host.

Lemma with_url_lookup (meta : option (gmap string string)) (key : string) :
  BrowserSdk.with_url host meta !! key
  = if decide (key = "url") then BrowserSdk.location host
    else default ∅ meta !! key.
Proof.
  unfold BrowserSdk.with_url. destruct (BrowserSdk.location host) as [href|];
    destruct (decide (key = "url")) as [-> | Hkey].
  - apply lookup_insert_eq.
  - now apply lookup_insert_ne.
  - apply lookup_delete_eq.
  - now apply lookup_delete_ne.
Qed.

(** X21. A call of [log] queues one entry and sends nothing. The url of
    the entry's meta is the address of the page, whatever url the caller
    passed, and is absent when there is no page; every other key of the
    meta is kept as the caller passed it. *)
Theorem browser_log_entry (timestamp level message : string)
    (meta : option (gmap string string)) (st : BrowserSdk.State) :
  ∃ e,
    BrowserSdk.queue (BrowserSdk.log opts host timestamp level message meta st)
    = BrowserSdk.queue st ++ [e]
    ∧ BrowserSdk.beacons (BrowserSdk.log opts host timestamp level message meta st)
      = BrowserSdk.beacons st
    ∧ BrowserSdk.posts (BrowserSdk.log opts host timestamp level message meta st)
      = BrowserSdk.posts st
    ∧ BrowserSdk.e_level e = level
    ∧ BrowserSdk.e_message e = message
    ∧ BrowserSdk.e_project e = BrowserSdk.project opts
    ∧ BrowserSdk.e_meta e !! "url" = BrowserSdk.location host
    ∧ ∀ key, key ≠ "url" → BrowserSdk.e_meta e !! key = default ∅ meta !! key.
Proof.
  eexists. split; [reflexivity |]. cbn. repeat split.
  - rewrite with_url_lookup. now rewrite decide_True.
  - intros key Hkey. rewrite with_url_lookup. now rewrite decide_False.
Qed.






(** X24. Uncaught errors and rejections are logged unless the options
    set [captureErrors] to false or there is no window: then these events
    change nothing. When they are logged, the entry of an error has the
    level error, the message of the event, and a meta with the type
    unhandled_error, the source, and the stack when there is one; the
    entry of a rejection has the level error, the reason after the words
    Unhandled promise rejection, and a meta with the type
    unhandled_rejection and the stack when there is one. Calls of
    [console.error] are logged only when the options ask for it, and
    then with the level error, the arguments separated by blanks as
    message and the type console_error. *)
Theorem browser_error_capture (timestamp message source : string)
    (stack : option string) (st : BrowserSdk.State) :
  (BrowserSdk.captures_errors opts host = false
   ↔ BrowserSdk.captureErrors opts = Some false ∨ BrowserSdk.has_window host = false)
  ∧ (BrowserSdk.captures_errors opts host = false →
     BrowserSdk.step opts host st (BrowserSdk.OpError timestamp message source stack)
     = st
     ∧ BrowserSdk.step opts host st (BrowserSdk.OpRejection timestamp message stack)
       = st)
  ∧ (BrowserSdk.captures_errors opts host = true →
     ∃ e,
       BrowserSdk.queue
         (BrowserSdk.step opts host st
            (BrowserSdk.OpError timestamp message source stack))
       = BrowserSdk.queue st ++ [e]
       ∧ BrowserSdk.e_level e = "error"
       ∧ BrowserSdk.e_message e = message
       ∧ BrowserSdk.e_meta e !! "type" = Some "unhandled_error"
       ∧ BrowserSdk.e_meta e !! "source" = Some source
       ∧ BrowserSdk.e_meta e !! "stack" = stack)
  ∧ (BrowserSdk.captureConsole opts ≠ Some true →
     ∀ args,
       BrowserSdk.step opts host st (BrowserSdk.OpConsoleError timestamp args) = st)
  ∧ (BrowserSdk.captures_errors opts host = true →
     ∃ e,
       BrowserSdk.queue
         (BrowserSdk.step opts host st
            (BrowserSdk.OpRejection timestamp message stack))
       = BrowserSdk.queue st ++ [e]
       ∧ BrowserSdk.e_level e = "error"
       ∧ BrowserSdk.e_message e = ("Unhandled promise rejection: " ++ message)%string
       ∧ BrowserSdk.e_meta e !! "type" = Some "unhandled_rejection"
       ∧ BrowserSdk.e_meta e !! "source" = None
       ∧ BrowserSdk.e_meta e !! "stack" = stack)
  ∧ (BrowserSdk.captureConsole opts = Some true →
     ∀ args,
       ∃ e,
         BrowserSdk.queue
           (BrowserSdk.step opts host st (BrowserSdk.OpConsoleError timestamp args))
         = BrowserSdk.queue st ++ [e]
         ∧ BrowserSdk.e_level e = "error"
         ∧ BrowserSdk.e_message e = String.concat " " args
         ∧ BrowserSdk.e_meta e !! "type" = Some "console_error").
Proof.
  split; [| split; [| split; [| split; [| split]]]].
  - unfold BrowserSdk.captures_errors. rewrite andb_false_iff, negb_false_iff.
    rewrite bool_decide_eq_true. reflexivity.
  - intros Hoff. simpl. now rewrite Hoff.
  - intros Hon. simpl. rewrite Hon. eexists. split; [reflexivity |].
    cbn [BrowserSdk.e_level BrowserSdk.e_message BrowserSdk.e_meta].
    rewrite !with_url_lookup.
    rewrite !decide_False by discriminate. cbn [default].
    unfold BrowserSdk.set_key. repeat split; destruct stack; by simplify_map_eq.
  - intros Hoff args. simpl. unfold BrowserSdk.captures_console.
    now rewrite bool_decide_eq_false_2.
  - intros Hon. simpl. rewrite Hon. eexists. split; [reflexivity |].
    cbn [BrowserSdk.e_level BrowserSdk.e_message BrowserSdk.e_meta].
    rewrite !with_url_lookup.
    rewrite !decide_False by discriminate. cbn [default].
    unfold BrowserSdk.set_key. repeat split; destruct stack; by simplify_map_eq.
  - intros Hon args. simpl. unfold BrowserSdk.captures_console.
    rewrite bool_decide_eq_true_2 by exact Hon.
    eexists. split; [reflexivity |].
    cbn [BrowserSdk.e_level BrowserSdk.e_message BrowserSdk.e_meta].
    rewrite !with_url_lookup.
    rewrite !decide_False by discriminate. cbn [default].
    repeat split; by simplify_map_eq.
Qed.

End Browser.

Example browser_default_captures_errors :
  map BrowserSdk.e_message
    (BrowserSdk.emitted
       (BrowserSdk.run (Sample.browser_opts None) Sample.page
          [BrowserSdk.OpError "t1" "x is not a function" "app.js:10:4" None;
           BrowserSdk.OpConsoleError "t2" ["ignored"];
           BrowserSdk.OpFlush true;
           BrowserSdk.OpLog "t3" "info" "loaded" None]))
  = ["x is not a function"; "loaded"].
Proof. vm_compute. reflexivity. Qed.
